(** * pull.js of the TellRequest browser extension, embedded in Rocq

    The file follows [src/pull.js]: the codec that hides a JSON payload in a
    delimited block of the pull-request description ([parseComment],
    [renderComment]) and the [App] class that keeps the presentation, the
    page and the persisted description in step.

    Conventions of the embedding.
    - A JavaScript string is a [string]: a sequence of code units, of which
      the embedding covers those below 256.
    - A JavaScript function that may raise is a function into [completion].
    - [MAGIC] is a constant of [common.js], which is not part of the sources
      at hand; it is a parameter of everything that uses it. *)

From Stdlib Require Import String Ascii List ZArith Bool Lia.
From Stdlib Require Import Decimal DecimalString DecimalZ DecimalPos.
From Stdlib Require Import DecimalFacts.
Import ListNotations.

Open Scope string_scope.

(** ** Characters and strings *)

(** The line feed, the double quote and the backslash, by code. *)
Definition LF : ascii := ascii_of_nat 10.
Definition DQUOTE : ascii := ascii_of_nat 34.
Definition BACKSLASH : ascii := ascii_of_nat 92.

(** A one-character string. *)
Definition str1 (c : ascii) : string := String c EmptyString.

(** The class [\s] of a regular expression without the [u] flag, on code
    units below 256: TAB, LF, VT, FF, CR, space and the no-break space. *)
Definition is_space (c : ascii) : bool :=
  let n := nat_of_ascii c in
  (((9 <=? n) && (n <=? 13)) || (n =? 32) || (n =? 160))%nat.

(** The class [\w] restricted to ASCII, and the hyphen. *)
Definition is_word (c : ascii) : bool :=
  let n := nat_of_ascii c in
  (((48 <=? n) && (n <=? 57)) || ((65 <=? n) && (n <=? 90))
   || ((97 <=? n) && (n <=? 122)) || (n =? 95))%nat.

Definition is_hyphen (c : ascii) : bool := (nat_of_ascii c =? 45)%nat.

(** [strip_prefix p s] is the rest of [s] after its prefix [p], if it has it. *)
Fixpoint strip_prefix (p s : string) : option string :=
  match p with
  | EmptyString => Some s
  | String a p' =>
      match s with
      | String b s' => if Ascii.eqb a b then strip_prefix p' s' else None
      | EmptyString => None
      end
  end.

(** [String.prototype.includes]: [m] occurs somewhere in [s]. *)
Fixpoint includes (m s : string) : bool :=
  match strip_prefix m s with
  | Some _ => true
  | None =>
      match s with
      | String _ s' => includes m s'
      | EmptyString => false
      end
  end.

(** The test [/\s$/]: the last character is a space character. *)
Fixpoint ends_with_space (s : string) : bool :=
  match s with
  | EmptyString => false
  | String c EmptyString => is_space c
  | String _ s' => ends_with_space s'
  end.

Fixpoint string_forallb (f : ascii -> bool) (s : string) : bool :=
  match s with
  | EmptyString => true
  | String c s' => f c && string_forallb f s'
  end.

(** What the embedding asks of the marker [MAGIC]: a word character, then
    word characters and hyphens. pull.js puts the marker, as it is, into a
    regular expression and into a class selector, so it is a name of this
    kind; the conditions are stated where they are used. *)
Definition marker_char (c : ascii) : bool := is_word c || is_hyphen c.

Definition marker_ok (m : string) : bool :=
  match m with
  | EmptyString => false
  | String c r => is_word c && string_forallb marker_char r
  end.

(** ** Completions

    How a JavaScript call ends: in a value or in an exception; for an
    [async] function, how the promise it returns ends: fulfilled, rejected,
    or never settled because the function waits for a promise that never
    settles ([Pending]). *)
Inductive js_error : Type := TypeError | SyntaxError.

Inductive completion (A : Type) : Type :=
| Normal (a : A)
| Throw (e : js_error)
| Pending.
Arguments Normal {A} a.
Arguments Throw {A} e.
Arguments Pending {A}.

Definition bind {A B : Type} (m : completion A) (f : A -> completion B)
  : completion B :=
  match m with
  | Normal a => f a
  | Throw e => Throw e
  | Pending => Pending
  end.

Notation "x <- m ;; k" := (bind m (fun x => k))
  (at level 61, m at next level, right associativity).

(** Modelled from the spec: [Try] of [common.js], which is not among the
    sources. It runs a thunk and yields its value, or [undefined] when the
    thunk raises; section 4.2 has a failed parse reported as absent and
    never thrown to the caller. *)
Definition Try {A : Type} (thunk : completion A) : option A :=
  match thunk with
  | Normal a => Some a
  | Throw _ => None
  | Pending => None
  end.

(** ** A backtracking matcher

    The pieces of [PARSE_REGEX], each a matcher in continuation-passing
    style as in the ECMAScript definition of pattern matching: a matcher
    takes the continuation that matches the rest of the pattern, and
    choices are tried in the order of the language (a greedy quantifier
    takes more first, a lazy one takes less first). The [s] flag makes [.]
    match every character. *)
Section Matcher.
Context {R : Type}.

Definition continuation : Type := string -> option R.

(** A literal. *)
Definition re_lit (p : string) (k : continuation) : continuation :=
  fun s =>
    match strip_prefix p s with
    | Some rest => k rest
    | None => None
    end.

(** [\s*], greedy. *)
Fixpoint re_spaces (k : continuation) (s : string) : option R :=
  match s with
  | String c s' =>
      if is_space c then
        match re_spaces k s' with
        | Some r => Some r
        | None => k s
        end
      else k s
  | EmptyString => k s
  end.

(** [(?: r )?], greedy: with [r] first, then without. *)
Definition re_opt (r : continuation -> continuation) (k : continuation)
  : continuation :=
  fun s =>
    match r k s with
    | Some x => Some x
    | None => k s
    end.

(** The lazy group [(?<g> .*? )]: the continuation gets the captured text,
    shortest first. [acc] is what the group holds so far. *)
Fixpoint re_group_lazy (acc : string) (k : string -> continuation)
  (s : string) : option R :=
  match k acc s with
  | Some x => Some x
  | None =>
      match s with
      | String c s' => re_group_lazy (acc ++ str1 c) k s'
      | EmptyString => None
      end
  end.

(** The greedy group [(?<g> .* )]: the continuation gets the captured text,
    longest first. *)
Fixpoint re_group_greedy (acc : string) (k : string -> continuation)
  (s : string) : option R :=
  match s with
  | String c s' =>
      match re_group_greedy (acc ++ str1 c) k s' with
      | Some x => Some x
      | None => k acc s
      end
  | EmptyString => k acc s
  end.

(** [$] without the [m] flag: the end of the input. *)
Definition re_end (r : R) : continuation :=
  fun s =>
    match s with
    | EmptyString => Some r
    | String _ _ => None
    end.
End Matcher.

(** ** JSON values, [JSON.stringify] and [JSON.parse]

    The values [JSON.parse] builds. A number is an integer here:
    floating-point numbers are outside the embedding. The members of an
    object are listed in the order JavaScript enumerates them. *)
#[local] Unset Elimination Schemes.
Inductive json : Type :=
| JNull
| JBool (b : bool)
| JNumber (n : Z)
| JString (s : string)
| JArray (items : list json)
| JObject (members : list (string * json)).
#[local] Set Elimination Schemes.

(** [ToBoolean] on these values, as [if (!j)] and [o?.id] test them. *)
Definition truthy (v : json) : bool :=
  match v with
  | JNull => false
  | JBool b => b
  | JNumber n => negb (n =? 0)%Z
  | JString s => negb (s =? "")
  | JArray _ => true
  | JObject _ => true
  end.

(** *** Printing: [JSON.stringify(value, null, 2)] *)

(** [Number::toString] on an integer: its decimal digits. This is what
    the language prints for integers of magnitude below 10^21; the
    statements use it on safe integers. *)
Definition NumberToString (n : Z) : string :=
  NilEmpty.string_of_int (Z.to_int n).

Definition hex_digit (n : nat) : ascii :=
  match get n "0123456789abcdef" with
  | Some c => c
  | None => "0"%char
  end.

(** One code unit inside a quoted string. In a literal of this file a
    backslash is an ordinary character. *)
Definition escape_char (c : ascii) : string :=
  let n := nat_of_ascii c in
  if (n =? 8)%nat then "\b"
  else if (n =? 9)%nat then "\t"
  else if (n =? 10)%nat then "\n"
  else if (n =? 12)%nat then "\f"
  else if (n =? 13)%nat then "\r"
  else if (n =? 34)%nat then String BACKSLASH (str1 DQUOTE)
  else if (n =? 92)%nat then "\\"
  else if (n <? 32)%nat then
    "\u00" ++ str1 (hex_digit (n / 16)) ++ str1 (hex_digit (n mod 16))
  else str1 c.

Fixpoint escape_string (s : string) : string :=
  match s with
  | EmptyString => EmptyString
  | String c s' => escape_char c ++ escape_string s'
  end.

Definition QuoteJSONString (s : string) : string :=
  str1 DQUOTE ++ escape_string s ++ str1 DQUOTE.

(** The gap of [JSON.stringify(_, null, 2)]. *)
Definition gap : string := "  ".

(** [SerializeJSONProperty] with [SerializeJSONArray] and
    [SerializeJSONObject] inlined; [indent] is the current indentation. *)
Fixpoint SerializeJSONProperty (indent : string) (v : json) : string :=
  match v with
  | JNull => "null"
  | JBool true => "true"
  | JBool false => "false"
  | JNumber n => NumberToString n
  | JString s => QuoteJSONString s
  | JArray items =>
      let stepback := indent in
      let indent := indent ++ gap in
      match items with
      | [] => "[]"
      | _ :: _ =>
          "[" ++ str1 LF ++ indent
          ++ String.concat ("," ++ str1 LF ++ indent)
               (map (SerializeJSONProperty indent) items)
          ++ str1 LF ++ stepback ++ "]"
      end
  | JObject members =>
      let stepback := indent in
      let indent := indent ++ gap in
      match members with
      | [] => "{}"
      | _ :: _ =>
          "{" ++ str1 LF ++ indent
          ++ String.concat ("," ++ str1 LF ++ indent)
               (map (fun kv : string * json =>
                       let (k, x) := kv in
                       QuoteJSONString k ++ ": "
                       ++ SerializeJSONProperty indent x) members)
          ++ str1 LF ++ stepback ++ "}"
      end
  end.

Definition JSON_stringify (v : json) : string :=
  SerializeJSONProperty "" v.

(** *** Parsing: [JSON.parse(text)] *)

(** JSON white space: space, TAB, LF and CR. *)
Definition is_json_ws (c : ascii) : bool :=
  let n := nat_of_ascii c in
  ((n =? 32) || (n =? 9) || (n =? 10) || (n =? 13))%nat.

Fixpoint skip_ws (s : string) : string :=
  match s with
  | String c s' => if is_json_ws c then skip_ws s' else s
  | EmptyString => s
  end.

Definition digit_of (c : ascii) : option (uint -> uint) :=
  match nat_of_ascii c with
  | 48 => Some D0 | 49 => Some D1 | 50 => Some D2 | 51 => Some D3
  | 52 => Some D4 | 53 => Some D5 | 54 => Some D6 | 55 => Some D7
  | 56 => Some D8 | 57 => Some D9
  | _ => None
  end%nat.

(** The longest run of decimal digits at the head of [s], and the rest. *)
Fixpoint parse_digits (s : string) : uint * string :=
  match s with
  | String c s' =>
      match digit_of c with
      | Some d => let (u, rest) := parse_digits s' in (d u, rest)
      | None => (Nil, s)
      end
  | EmptyString => (Nil, s)
  end.

Definition starts_fraction_or_exponent (s : string) : bool :=
  match s with
  | String c _ =>
      let n := nat_of_ascii c in ((n =? 46) || (n =? 101) || (n =? 69))%nat
  | EmptyString => false
  end.

(** The digits of a JSON number: a lone zero, or digits that do not start
    with a zero. A fraction or an exponent would make a floating-point
    number, which the embedding does not have: such text is refused. *)
Definition parse_unsigned (s : string) : option (Z * string) :=
  let (u, rest) := parse_digits s in
  match u with
  | Nil => None
  | D0 (D0 _ | D1 _ | D2 _ | D3 _ | D4 _ | D5 _ | D6 _ | D7 _ | D8 _ | D9 _) =>
      None
  | _ =>
      if starts_fraction_or_exponent rest then None
      else Some (Z.of_uint u, rest)
  end.

Definition parse_number (s : string) : option (Z * string) :=
  match s with
  | String c s' =>
      if is_hyphen c then
        match parse_unsigned s' with
        | Some (n, rest) => Some ((- n)%Z, rest)
        | None => None
        end
      else parse_unsigned s
  | EmptyString => None
  end.

Definition hex_value (c : ascii) : option nat :=
  let n := nat_of_ascii c in
  if ((48 <=? n) && (n <=? 57))%nat then Some (n - 48)%nat
  else if ((97 <=? n) && (n <=? 102))%nat then Some (n - 87)%nat
  else if ((65 <=? n) && (n <=? 70))%nat then Some (n - 55)%nat
  else None.

(** The code unit of [\uXXXX]; one of 256 or more is outside the
    embedding and refused. *)
Definition unicode_escape (h1 h2 h3 h4 : ascii) : option ascii :=
  match hex_value h1, hex_value h2, hex_value h3, hex_value h4 with
  | Some a, Some b, Some c, Some d =>
      if ((a =? 0) && (b =? 0))%nat then Some (ascii_of_nat (16 * c + d))
      else None
  | _, _, _, _ => None
  end.

(** The character a one-letter escape stands for. *)
Definition simple_escape (e : ascii) : option ascii :=
  match nat_of_ascii e with
  | 34 => Some DQUOTE
  | 92 => Some BACKSLASH
  | 47 => Some "/"%char
  | 98 => Some (ascii_of_nat 8)
  | 102 => Some (ascii_of_nat 12)
  | 110 => Some (ascii_of_nat 10)
  | 114 => Some (ascii_of_nat 13)
  | 116 => Some (ascii_of_nat 9)
  | _ => None
  end%nat.

Definition cons_char (c : ascii) (r : option (string * string))
  : option (string * string) :=
  match r with
  | Some (s, rest) => Some (String c s, rest)
  | None => None
  end.

(** The characters of a string after its opening quote, up to the closing
    quote, and the text after it. *)
Fixpoint parse_string_chars (s : string) : option (string * string) :=
  match s with
  | EmptyString => None
  | String c s' =>
      if Ascii.eqb c DQUOTE then Some (EmptyString, s')
      else if Ascii.eqb c BACKSLASH then
        match s' with
        | String e s'' =>
            if Ascii.eqb e "u" then
              match s'' with
              | String h1 (String h2 (String h3 (String h4 r))) =>
                  match unicode_escape h1 h2 h3 h4 with
                  | Some u => cons_char u (parse_string_chars r)
                  | None => None
                  end
              | _ => None
              end
            else
              match simple_escape e with
              | Some u => cons_char u (parse_string_chars s'')
              | None => None
              end
        | EmptyString => None
        end
      else if (nat_of_ascii c <? 32)%nat then None
      else cons_char c (parse_string_chars s')
  end.

(** An array index among property keys: the decimal text, without leading
    zeros, of an integer below 2^32 - 1. *)
Definition array_index (k : string) : option Z :=
  match parse_unsigned k with
  | Some (n, EmptyString) => if (n <? 4294967295)%Z then Some n else None
  | _ => None
  end.

(** Whether a new key [k] is enumerated before the present key [k']:
    array indices come first, in ascending order; the other keys follow in
    the order of their creation. *)
Definition enumerated_before (k k' : string) : bool :=
  match array_index k, array_index k' with
  | Some i, Some j => (i <? j)%Z
  | Some _, None => true
  | None, _ => false
  end.

(** [CreateDataProperty] on the members of an object in enumeration order:
    a present key keeps its place and takes the new value. *)
Fixpoint object_set (k : string) (v : json) (o : list (string * json))
  : list (string * json) :=
  match o with
  | [] => [(k, v)]
  | (k', v') :: o' =>
      if (k =? k') then (k', v) :: o'
      else if enumerated_before k k' then (k, v) :: (k', v') :: o'
      else (k', v') :: object_set k v o'
  end.

(** The object that results from its members in the order of the text. *)
Definition object_of_entries (entries : list (string * json))
  : list (string * json) :=
  fold_left (fun o kv => object_set (fst kv) (snd kv) o) entries [].

Definition is_char (n : nat) (c : ascii) : bool := (nat_of_ascii c =? n)%nat.

(** Recursive descent over the JSON grammar. [fuel] bounds the nesting of
    calls; [JSON_parse] below supplies enough of it for its text.
    [parse_value] reads one value, [parse_elements] the elements of an
    array after its opening bracket or a comma, [parse_members] the members
    of an object after its opening brace or a comma. Each returns what it
    read and the text that follows. *)
Fixpoint parse_value (fuel : nat) (s : string) : option (json * string) :=
  match fuel with
  | O => None
  | S fuel =>
      match skip_ws s with
      | EmptyString => None
      | String c r as t =>
          if is_char 123 c then
            match skip_ws r with
            | String c' r' =>
                if is_char 125 c' then Some (JObject [], r')
                else
                  match parse_members fuel r with
                  | Some (ms, rest) =>
                      Some (JObject (object_of_entries ms), rest)
                  | None => None
                  end
            | EmptyString => None
            end
          else if is_char 91 c then
            match skip_ws r with
            | String c' r' =>
                if is_char 93 c' then Some (JArray [], r')
                else
                  match parse_elements fuel r with
                  | Some (vs, rest) => Some (JArray vs, rest)
                  | None => None
                  end
            | EmptyString => None
            end
          else if Ascii.eqb c DQUOTE then
            match parse_string_chars r with
            | Some (str, rest) => Some (JString str, rest)
            | None => None
            end
          else if is_char 110 c then
            match strip_prefix "null" t with
            | Some rest => Some (JNull, rest)
            | None => None
            end
          else if is_char 116 c then
            match strip_prefix "true" t with
            | Some rest => Some (JBool true, rest)
            | None => None
            end
          else if is_char 102 c then
            match strip_prefix "false" t with
            | Some rest => Some (JBool false, rest)
            | None => None
            end
          else
            match parse_number t with
            | Some (n, rest) => Some (JNumber n, rest)
            | None => None
            end
      end
  end
with parse_elements (fuel : nat) (s : string) : option (list json * string) :=
  match fuel with
  | O => None
  | S fuel =>
      match parse_value fuel s with
      | Some (v, rest) =>
          match skip_ws rest with
          | String c r =>
              if is_char 44 c then
                match parse_elements fuel r with
                | Some (vs, rest') => Some (v :: vs, rest')
                | None => None
                end
              else if is_char 93 c then Some ([v], r)
              else None
          | EmptyString => None
          end
      | None => None
      end
  end
with parse_members (fuel : nat) (s : string)
  : option (list (string * json) * string) :=
  match fuel with
  | O => None
  | S fuel =>
      match skip_ws s with
      | String q r =>
          if Ascii.eqb q DQUOTE then
            match parse_string_chars r with
            | Some (k, rest) =>
                match skip_ws rest with
                | String c r' =>
                    if is_char 58 c then
                      match parse_value fuel r' with
                      | Some (v, rest') =>
                          match skip_ws rest' with
                          | String c' r'' =>
                              if is_char 44 c' then
                                match parse_members fuel r'' with
                                | Some (ms, rest'') =>
                                    Some ((k, v) :: ms, rest'')
                                | None => None
                                end
                              else if is_char 125 c' then Some ([(k, v)], r'')
                              else None
                          | EmptyString => None
                          end
                      | None => None
                      end
                    else None
                | EmptyString => None
                end
            | None => None
            end
          else None
      | EmptyString => None
      end
  end.

(** [JSON.parse(text)]: one value, white space around it and nothing else;
    a [SyntaxError] otherwise. The embedding has integers and code units
    below 256 only: a number with a fraction or an exponent and an escape
    [\u] of a code unit of 256 or more are refused here, where
    [JSON.parse] reads them, and an integer outside the safe range is read
    exactly here and rounded there. [beyond_embedding] below marks the
    texts in which a fraction, an exponent or such an escape can occur. *)
Definition JSON_parse (text : string) : completion json :=
  match parse_value (2 * String.length text + 2) text with
  | Some (v, rest) =>
      match skip_ws rest with
      | EmptyString => Normal v
      | String _ _ => Throw SyntaxError
      end
  | None => Throw SyntaxError
  end.

(** A value that [JSON.stringify] prints and [JSON.parse] reads back as
    it was: its numbers are safe integers, and the members of its objects
    stand in the order of enumeration, so that building the object again
    from them changes nothing. *)
Fixpoint serializable (v : json) : Prop :=
  match v with
  | JNull | JBool _ | JString _ => True
  | JNumber n => (- 9007199254740992 < n < 9007199254740992)%Z
  | JArray items => fold_right and True (map serializable items)
  | JObject members =>
      object_of_entries members = members
      /\ fold_right and True (map (fun kv => serializable (snd kv)) members)
  end.

(** The fuel [parse_value] needs for a printed value. *)
Fixpoint size (v : json) : nat :=
  match v with
  | JArray items => S (list_sum (map (fun x => S (size x)) items))
  | JObject members =>
      S (list_sum (map (fun kv => S (size (snd kv))) members))
  | _ => 1
  end.

Definition is_digit (c : ascii) : bool :=
  match digit_of c with
  | Some _ => true
  | None => false
  end.

(** Text after which a number ends: it does not go on with a digit, a
    fraction or an exponent. *)
Definition number_end (rest : string) : bool :=
  match rest with
  | EmptyString => true
  | String c _ => negb (is_digit c) && negb (starts_fraction_or_exponent rest)
  end.

Definition all_ws (s : string) : Prop := string_forallb is_json_ws s = true.

(** What the round trip asks of one value, at every indentation and after
    any white space. *)
Definition parses (v : json) : Prop :=
  serializable v ->
  forall indent w rest fuel,
    all_ws indent -> all_ws w -> number_end rest = true -> size v <= fuel ->
    parse_value fuel (w ++ SerializeJSONProperty indent v ++ rest)
    = Some (v, rest).

(** ** The codec of pull.js *)

(** The named groups of [PARSE_REGEX]. *)
Record groups : Type := {
  before : string;
  data_group : string;
  after : string
}.

(** The text an optional piece of the pattern takes: nothing, or the
    comment opener with white space after it; nothing, or the comment
    closer with white space before it. *)
Definition comment_opener (o : string) : Prop :=
  o = "" \/ exists w, o = "<!--" ++ w /\ string_forallb is_space w = true.

Definition comment_closer (c : string) : Prop :=
  c = "" \/ exists w, c = w ++ "-->" /\ string_forallb is_space w = true.

(** What [parseComment] returns and [renderComment] takes:
    [{ data, comment }]. *)
Record parsed : Type := {
  data : json;
  comment : string
}.

(** What [renderComment] puts between the envelope and the block. *)
Definition separator (env : string) : string :=
  if (String.length env =? 0)%nat || ends_with_space env then ""
  else str1 LF.

Section Codec.
Variable MAGIC : string.

(** [PARSE_REGEX], with the flags [g] and [s]. The pattern is, piece by
    piece (a piece per line of the definition below):
    - [^(?<before> .*? )], the lazy group [before];
    - [(?:<!--\s* )?], an optional comment opener with white space;
    - [(?:MAGIC)], the marker, which stands for itself in the pattern;
    - [(?<data> .* )], the greedy group [data];
    - [(?:MAGIC)], the marker again;
    - [(?:\s* -->)?], an optional comment closer after white space;
    - [(?<after> .* )$], the greedy group [after] up to the end.
    The pattern starts with [^], so the first match that
    [matchAll(...).next()] yields is the match at the start of the text. *)
Definition PARSE_REGEX (c : string) : option groups :=
  re_group_lazy "" (fun before =>
    re_opt (fun k => re_lit "<!--" (re_spaces k))
      (re_lit MAGIC
        (re_group_greedy "" (fun data =>
          re_lit MAGIC
            (re_opt (fun k => re_spaces (re_lit "-->" k))
              (re_group_greedy "" (fun after =>
                re_end {| before := before;
                          data_group := data;
                          after := after |}))))))) c.

(** [parseComment]: [undefined] is [None]. *)
Definition parseComment (c : string) : completion (option parsed) :=
  match PARSE_REGEX c with
  | None => Normal None
  | Some matches =>
      let body := data_group matches in
      let rest := before matches ++ after matches in
      match Try (JSON_parse body) with
      | None => Normal None
      | Some j =>
          if negb (truthy j) then Normal None
          else Normal (Some {| data := j; comment := rest |})
      end
  end.

(** [renderComment]. *)
Definition renderComment (c : parsed) : string :=
  comment c
  ++ (if (String.length (comment c) =? 0)%nat || ends_with_space (comment c)
      then "" else str1 LF)
  ++ "<!-- " ++ MAGIC ++ JSON_stringify (data c) ++ MAGIC ++ " -->".

(** What [App.persist] keeps of the text it fetched: the text around the
    block, or all of it when [parseComment] returns nothing. *)
Definition envelope_of (fetched : string) : string :=
  match parseComment fetched with
  | Normal (Some p) => comment p
  | _ => fetched
  end.

End Codec.


(** ** The id scan of [App.import]

    [o?.id] on a parsed value: only an object has members. [None] is
    [undefined]. *)
Fixpoint lookup (k : string) (ms : list (string * json)) : option json :=
  match ms with
  | [] => None
  | (k', v) :: ms' => if (k =? k') then Some v else lookup k ms'
  end.

Definition id_of (o : json) : option json :=
  match o with
  | JObject ms => lookup "id" ms
  | _ => None
  end.

(** What [flatMap] does with the result of its callback: the elements of
    an array, or the value itself. *)
Definition flat1 (r : json) : list json :=
  match r with
  | JArray l => l
  | x => [x]
  end.

(** [array.flatMap(f)] where [f] may raise: the results in order, each
    flattened by one level. *)
Definition flatMap (f : json -> completion json)
  : list json -> completion (list json) :=
  fix go (l : list json) : completion (list json) :=
    match l with
    | [] => Normal []
    | x :: l' =>
        r <- f x ;;
        rs <- go l' ;;
        Normal (flat1 r ++ rs)%list
    end.

(** [Object.values(o).flatMap(f)] on the members of an object. *)
Definition flatMap_values (f : json -> completion json)
  : list (string * json) -> completion (list json) :=
  fix go (ms : list (string * json)) : completion (list json) :=
    match ms with
    | [] => Normal []
    | (_, v) :: ms' =>
        r <- f v ;;
        rs <- go ms' ;;
        Normal (flat1 r ++ rs)%list
    end.

(** The callback of [Object.values(o).flatMap(...)], given [getAllIds]:
    [v.flatMap(getAllIds)] on an array, [getAllIds(v)] on what has the type
    [object], which [null] has too, and the empty array otherwise. *)
Definition getAllIds_callback (getAllIds : json -> completion json)
  (v : json) : completion json :=
  match v with
  | JArray l => rs <- flatMap getAllIds l ;; Normal (JArray rs)
  | JObject _ => getAllIds v
  | JNull => getAllIds v
  | JBool _ | JNumber _ | JString _ => Normal (JArray [])
  end.

(** [getAllIds]. It returns [o.id] itself when that is truthy, and an array
    otherwise. [Object.values] raises a [TypeError] on [null]; it is empty
    on a number or a boolean; on a string it lists the characters, on which
    the callback yields nothing. *)
Fixpoint getAllIds (o : json) : completion json :=
  match (match id_of o with
         | Some i => if truthy i then Some i else None
         | None => None
         end) with
  | Some i => Normal i
  | None =>
      match o with
      | JNull => Throw TypeError
      | JBool _ | JNumber _ | JString _ => Normal (JArray [])
      | JArray l =>
          rs <- flatMap (getAllIds_callback getAllIds) l ;;
          Normal (JArray rs)
      | JObject ms =>
          rs <- flatMap_values (getAllIds_callback getAllIds) ms ;;
          Normal (JArray rs)
      end
  end.

(** [ToString] on a parsed value, as [parseInt] applies it to its
    argument. *)
Fixpoint ToString (v : json) : string :=
  match v with
  | JNull => "null"
  | JBool true => "true"
  | JBool false => "false"
  | JNumber n => NumberToString n
  | JString s => s
  | JArray l =>
      String.concat ","
        (map (fun e => match e with JNull => "" | _ => ToString e end) l)
  | JObject _ => "[object Object]"
  end.

Fixpoint trim_start (s : string) : string :=
  match s with
  | String c s' => if is_space c then trim_start s' else s
  | EmptyString => s
  end.

(** The value of the longest run of digits of radix [R] at the head of
    [s]; [acc] is the value read so far, [None] before the first digit. *)
Fixpoint radix_digits (R : nat) (acc : option Z) (s : string) : option Z :=
  match s with
  | String c s' =>
      match hex_value c with
      | Some d =>
          if (d <? R)%nat then
            radix_digits R
              (Some (match acc with Some a => a | None => 0 end
                     * Z.of_nat R + Z.of_nat d)%Z) s'
          else acc
      | None => acc
      end
  | EmptyString => acc
  end.

(** [parseInt(string)] with no radix given. [None] is [NaN]. *)
Definition parseInt_string (s : string) : option Z :=
  let s := trim_start s in
  let (sign, s) :=
    match s with
    | String c s' =>
        if is_hyphen c then ((-1)%Z, s')
        else if is_char 43 c then (1%Z, s')
        else (1%Z, s)
    | EmptyString => (1%Z, s)
    end in
  let (R, s) :=
    match s with
    | String z (String x s') =>
        if is_char 48 z && (is_char 120 x || is_char 88 x) then (16, s')
        else (10, s)
    | _ => (10, s)
    end in
  match radix_digits R None s with
  | Some n => Some (sign * n)%Z
  | None => None
  end.

Definition parseInt (x : json) : option Z := parseInt_string (ToString x).

(** The comparator [(a, b) => b - a]; a [NaN] difference counts as zero. *)
Definition compare_desc (a b : option Z) : Z :=
  match a, b with
  | Some x, Some y => (y - x)%Z
  | _, _ => 0%Z
  end.

(** [Array.prototype.sort] with that comparator, as a stable insertion
    sort. Every sort agrees with it on numbers; the order of an array that
    holds a [NaN] is left to the implementation by the language, and this is
    one of the orders it allows; the statements that give the value of the
    seed are made for arrays without [NaN]. *)
Fixpoint insert_sorted (x : option Z) (l : list (option Z))
  : list (option Z) :=
  match l with
  | [] => [x]
  | y :: l' =>
      if (compare_desc x y <? 0)%Z then x :: y :: l'
      else y :: insert_sorted x l'
  end.

Definition sort_desc (l : list (option Z)) : list (option Z) :=
  fold_left (fun sorted x => insert_sorted x sorted) l [].

(** Modelled from the spec: [toArray] and [first], which [common.js] (not
    among the sources) adds to arrays. [toArray] is taken to return the
    array itself and [first] its first element, [undefined] when there is
    none; section 4.1 has the seed default to 1 if no id is found. *)
Definition toArray {A : Type} (l : list A) : list A := l.

Definition first {A : Type} (l : list A) : option A :=
  match l with
  | [] => None
  | x :: _ => Some x
  end.

(** The seed of [App.import]:
    [getAllIds(data).map(x => parseInt(x)).toArray()
       .sort((a, b) => b - a).first() || 1].
    A result of [getAllIds] that is no array has no [map]. *)
Definition maxId (data : json) : completion Z :=
  ids <- getAllIds data ;;
  match ids with
  | JArray l =>
      match first (sort_desc (toArray (map parseInt l))) with
      | Some (Some n) => Normal (if (n =? 0)%Z then 1%Z else n)
      | Some None => Normal 1%Z
      | None => Normal 1%Z
      end
  | _ => Throw TypeError
  end.

(** ** The entities of model.js that pull.js handles *)

Record FileContext : Type := {
  file : string;
  lineNo : string
}.

(** An annotation, [Comment] in the sources. *)
Record Comment : Type := {
  id : Z;
  context : FileContext;
  text : string
}.

(** The listeners pull.js registers for the [change] event of a
    presentation: the two methods of [App], and the resolver of the promise
    of [Util.waitEvent]. *)
Inductive listener : Type :=
| onPresentationChange
| maybePersistOnPresentationChange
| cleanupDone.

(** Modelled from the spec: [Presentation] of [model/model.js], which is
    not among the sources. Section 3 has it an ordered sequence of
    annotations; [oid] tells one instance from another, and [listeners]
    are those of its [events] target, in the order of registration. *)
Record Presentation : Type := {
  oid : nat;
  visuals : list Comment;
  listeners : list listener
}.

(** The detail of a [change] event: [{ presentation, added, removed }]. *)
Record change : Type := {
  detail_presentation : Presentation;
  added : list Comment;
  removed : list Comment
}.

(** ** The page *)

(** An element of the document, as far as the selectors of pull.js see
    it: the line numbers of the cells of a row of the diff table, the
    [data-visual-id] attribute, the class list, and the text that the
    [CommentUI] rooted at the element shows. *)
Record element : Type := {
  data_line_number : list string;
  data_visual_id : option Z;
  classList : list string;
  shown_text : string
}.

Definition contains (c : string) (e : element) : bool :=
  existsb (String.eqb c) (classList e).

(** [classList.remove] and [classList.add]. *)
Definition classList_remove (c : string) (e : element) : element :=
  {| data_line_number := data_line_number e;
     data_visual_id := data_visual_id e;
     classList := filter (fun c' => negb (c =? c')) (classList e);
     shown_text := shown_text e |}.

Definition classList_add (c : string) (e : element) : element :=
  {| data_line_number := data_line_number e;
     data_visual_id := data_visual_id e;
     classList := if contains c e then classList e
                  else (classList e ++ [c])%list;
     shown_text := shown_text e |}.

Definition setText (t : string) (e : element) : element :=
  {| data_line_number := data_line_number e;
     data_visual_id := data_visual_id e;
     classList := classList e;
     shown_text := t |}.

(** [querySelector]: the first element, in document order, that the
    selector matches. *)
Definition querySelector (sel : element -> bool) (doc : list element)
  : option element := find sel doc.

(** The document after a change to the element [querySelector] finds, and
    after its removal. *)
Fixpoint update_first (sel : element -> bool) (f : element -> element)
  (doc : list element) : list element :=
  match doc with
  | [] => []
  | e :: doc' => if sel e then f e :: doc' else e :: update_first sel f doc'
  end.

Fixpoint remove_first (sel : element -> bool) (doc : list element)
  : list element :=
  match doc with
  | [] => []
  | e :: doc' => if sel e then doc' else e :: remove_first sel doc'
  end.

(** [ref.after(e)], with [ref] the element [querySelector] finds. *)
Fixpoint insert_after (sel : element -> bool) (x : element)
  (doc : list element) : list element :=
  match doc with
  | [] => []
  | e :: doc' => if sel e then e :: x :: doc' else e :: insert_after sel x doc'
  end.

Definition has_visual_id (i : Z) (e : element) : bool :=
  match data_visual_id e with
  | Some j => (i =? j)%Z
  | None => false
  end.

(** The selector [[data-visual-id=ID].visual-root]. *)
Definition sel_visual_root (i : Z) (e : element) : bool :=
  has_visual_id i e && contains "visual-root" e.

(** The selector [div.file .diff-table tr:has(td[data-line-number=N])]. *)
Definition sel_diff_row (n : string) (e : element) : bool :=
  existsb (String.eqb n) (data_line_number e).

(** ** The state of the page and of the application

    What pull.js reads and writes: the presentation the [App] holds, the
    document, the description stored on the server, the counter of [Ids],
    whether the promise [cleanupDone] of [App.import] has settled, the
    number of presentations made so far, and the calls made so far, oldest
    first. *)
Inductive effect : Type :=
| call_Ids_initId (seed : Z)
| call_new_Presentation (p : nat)
| deliver (l : listener) (e : change)
| call_sidebar_remove (i : Z)
| call_sidebar_add (x : Comment) (index : Z)
| call_sidebar_select (i : Z)
| dispatch_select (i : Z)
| unhandled_rejection (e : js_error).

Record App : Type := {
  presentation : Presentation;
  document : list element;
  issue_body : string;
  Ids_counter : Z;
  cleanupDone_settled : bool;
  presentations_made : nat;
  trace : list effect
}.

Definition set_presentation (p : Presentation) (s : App) : App :=
  {| presentation := p; document := document s; issue_body := issue_body s;
     Ids_counter := Ids_counter s;
     cleanupDone_settled := cleanupDone_settled s;
     presentations_made := presentations_made s; trace := trace s |}.

Definition set_document (d : list element) (s : App) : App :=
  {| presentation := presentation s; document := d;
     issue_body := issue_body s; Ids_counter := Ids_counter s;
     cleanupDone_settled := cleanupDone_settled s;
     presentations_made := presentations_made s; trace := trace s |}.

Definition set_issue_body (t : string) (s : App) : App :=
  {| presentation := presentation s; document := document s;
     issue_body := t; Ids_counter := Ids_counter s;
     cleanupDone_settled := cleanupDone_settled s;
     presentations_made := presentations_made s; trace := trace s |}.

Definition set_Ids_counter (n : Z) (s : App) : App :=
  {| presentation := presentation s; document := document s;
     issue_body := issue_body s; Ids_counter := n;
     cleanupDone_settled := cleanupDone_settled s;
     presentations_made := presentations_made s; trace := trace s |}.

Definition set_cleanupDone_settled (b : bool) (s : App) : App :=
  {| presentation := presentation s; document := document s;
     issue_body := issue_body s; Ids_counter := Ids_counter s;
     cleanupDone_settled := b;
     presentations_made := presentations_made s; trace := trace s |}.

Definition set_presentations_made (n : nat) (s : App) : App :=
  {| presentation := presentation s; document := document s;
     issue_body := issue_body s; Ids_counter := Ids_counter s;
     cleanupDone_settled := cleanupDone_settled s;
     presentations_made := n; trace := trace s |}.

Definition log (x : effect) (s : App) : App :=
  {| presentation := presentation s; document := document s;
     issue_body := issue_body s; Ids_counter := Ids_counter s;
     cleanupDone_settled := cleanupDone_settled s;
     presentations_made := presentations_made s;
     trace := (trace s ++ [x])%list |}.

Definition log_all (xs : list effect) (s : App) : App :=
  {| presentation := presentation s; document := document s;
     issue_body := issue_body s; Ids_counter := Ids_counter s;
     cleanupDone_settled := cleanupDone_settled s;
     presentations_made := presentations_made s;
     trace := (trace s ++ xs)%list |}.

(** A method: it ends as a [completion] and leaves a state, also when it
    raises. *)
Definition M (A : Type) : Type := App -> completion A * App.

Definition ret {A : Type} (a : A) : M A := fun s => (Normal a, s).

Definition lift {A : Type} (c : completion A) : M A := fun s => (c, s).

Definition modify (f : App -> App) : M unit := fun s => (Normal tt, f s).

Definition bindM {A B : Type} (m : M A) (f : A -> M B) : M B :=
  fun s =>
    match m s with
    | (Normal a, s') => f a s'
    | (Throw e, s') => (Throw e, s')
    | (Pending, s') => (Pending, s')
    end.

Notation "x <~ m ;; k" := (bindM m (fun x => k))
  (at level 61, m at next level, right associativity).
Notation "m ;;; k" := (bindM m (fun _ => k))
  (at level 61, right associativity).

(** [array.forEach(f)]: it stops at the first call that raises. *)
Fixpoint forEach {A : Type} (l : list A) (f : A -> M unit) : M unit :=
  match l with
  | [] => ret tt
  | x :: l' => f x ;;; forEach l' f
  end.

(** Modelled from the spec: [Ids] of [model/model.js]. Section 4.1 has
    [initId(seed)] set the counter to [seed] and [nextId()] return
    [seed+1], [seed+2], and so on. *)
Definition Ids_initId (seed : Z) : M unit :=
  modify (fun s => log (call_Ids_initId seed) (set_Ids_counter seed s)).

Definition Ids_nextId : M Z :=
  fun s =>
    let n := (Ids_counter s + 1)%Z in
    (Normal n, set_Ids_counter n s).

(** ** The application *)

Definition with_visuals (vs : list Comment) (p : Presentation)
  : Presentation :=
  {| oid := oid p; visuals := vs; listeners := listeners p |}.

Definition with_listeners (ls : list listener) (p : Presentation)
  : Presentation :=
  {| oid := oid p; visuals := visuals p; listeners := ls |}.

(** [events.addEventListener('change', l)]. *)
Definition addEventListener (l : listener) (p : Presentation)
  : Presentation :=
  with_listeners (listeners p ++ [l])%list p.

Definition is_cleanupDone (l : listener) : bool :=
  match l with
  | cleanupDone => true
  | _ => false
  end.

(** Modelled from the spec: [indexOf] of [Presentation], the position of
    the annotation with the given id, or the not-found signal, here -1
    (section 4.3). *)
Fixpoint indexOf_from (n : Z) (i : Z) (vs : list Comment) : Z :=
  match vs with
  | [] => (-1)%Z
  | x :: vs' => if (id x =? i)%Z then n else indexOf_from (n + 1)%Z i vs'
  end.

Definition Presentation_indexOf (p : Presentation) (i : Z) : Z :=
  indexOf_from 0%Z i (visuals p).

Section Application.
Variable MAGIC : string.

(** Modelled from the spec: the two conversions inside [export] and
    [import] of [Presentation] (model/model.js is not among the sources).
    Section 4.3 has [export] serialize the current sequence into the shape
    [import] accepts, and [import] validate and deserialize a payload into
    an ordered list of annotations. They are parameters here. *)
Variable Presentation_serialize : list Comment -> json.
Variable Presentation_deserialize : json -> completion (list Comment).

(** Modelled from the spec: the root element of a [CommentUI] (ui/ui.js is
    not among the sources), as the selectors of pull.js address it: it
    carries the id of its annotation as [data-visual-id] and the classes
    [MAGIC] and [visual-root], and shows the text of the annotation. *)
Definition CommentUI_rootElem (x : Comment) : element :=
  {| data_line_number := [];
     data_visual_id := Some (id x);
     classList := [MAGIC; "visual-root"];
     shown_text := text x |}.

(** [findVisualUI]: the element found stands for its [visualUI], whose
    [rootElem] it is. *)
Definition findVisualUI (i : Z) (doc : list element) : option element :=
  querySelector (sel_visual_root i) doc.

(** The callback of the last [added.forEach] of [onPresentationChange]:
    the text of the view node that is there is set, or a view node is made
    and put after the row of its line; [tr.ancestors()] raises a
    [TypeError] when the page has no such row. *)
Definition show_added (x : Comment) : M unit :=
  fun s =>
    match findVisualUI (id x) (document s) with
    | Some _ =>
        (Normal tt,
         set_document
           (update_first (sel_visual_root (id x)) (setText (text x))
              (document s)) s)
    | None =>
        match querySelector (sel_diff_row (lineNo (context x))) (document s)
        with
        | None => (Throw TypeError, s)
        | Some _ =>
            (Normal tt,
             set_document
               (insert_after (sel_diff_row (lineNo (context x)))
                  (CommentUI_rootElem x) (document s)) s)
        end
    end.

(** The body of [onPresentationChange]. *)
Definition onPresentationChange_body (e : change) : M unit :=
  forEach (removed e) (fun x => modify (log (call_sidebar_remove (id x)))) ;;;
  forEach (removed e) (fun x =>
    modify (fun s =>
      set_document (remove_first (sel_visual_root (id x)) (document s)) s)) ;;;
  forEach (added e) (fun x =>
    modify (log (call_sidebar_add x
                   (Presentation_indexOf (detail_presentation e) (id x))))) ;;;
  forEach (added e) show_added.

(** A call of an [async] function that nothing awaits: its rejection is
    not raised to the caller. *)
Definition not_awaited {A : Type} (m : M A) (s : App) : App :=
  match m s with
  | (Normal _, s') => s'
  | (Throw err, s') => log (unhandled_rejection err) s'
  | (Pending, s') => s'
  end.

(** What each listener does when the event reaches it.
    [maybePersistOnPresentationChange] first awaits the configuration, so
    nothing of it happens during the delivery; the call itself is in the
    trace. *)
Definition handle (l : listener) (e : change) (s : App) : App :=
  match l with
  | onPresentationChange => not_awaited (onPresentationChange_body e) s
  | maybePersistOnPresentationChange => s
  | cleanupDone => set_cleanupDone_settled true s
  end.

(** Modelled from the spec: the event target of [Util.createEventTarget]
    (common.js is not among the sources). Section 5 has a notification
    delivered to all listeners, in the order of their registration, before
    the call that caused it returns. *)
Fixpoint dispatchEvent (ls : list listener) (e : change) (s : App) : App :=
  match ls with
  | [] => s
  | l :: ls' => dispatchEvent ls' e (handle l e (log (deliver l e) s))
  end.

(** A presentation emits a change; the listener of [Util.waitEvent] is
    taken to be registered for one event. The presentation is returned as
    it is after the call. *)
Definition emit (p : Presentation) (added removed : list Comment)
  : M Presentation :=
  fun s =>
    let e := {| detail_presentation := p;
                added := added; removed := removed |} in
    (Normal (with_listeners
               (filter (fun l => negb (is_cleanupDone l)) (listeners p)) p),
     dispatchEvent (listeners p) e s).

(** Modelled from the spec: the operations of [Presentation] that pull.js
    calls, after section 4.3. *)
Definition Presentation_removeAllVisuals (p : Presentation)
  : M Presentation :=
  emit (with_visuals [] p) [] (visuals p).

Definition Presentation_import (p : Presentation) (payload : json)
  : M Presentation :=
  vs <~ lift (Presentation_deserialize payload) ;;
  emit (with_visuals vs p) vs [].

Fixpoint replace_text (v : Comment) (vs : list Comment) : list Comment :=
  match vs with
  | [] => []
  | x :: vs' =>
      if (id x =? id v)%Z
      then {| id := id x; context := context x; text := text v |} :: vs'
      else x :: replace_text v vs'
  end.

Definition Presentation_addOrReplaceVisual (p : Presentation) (v : Comment)
  : M Presentation :=
  if existsb (fun x => (id x =? id v)%Z) (visuals p)
  then emit (with_visuals (replace_text v (visuals p)) p) [v] []
  else emit (with_visuals (visuals p ++ [v])%list p) [v] [].

Fixpoint remove_visual (i : Z) (vs : list Comment) : list Comment :=
  match vs with
  | [] => []
  | x :: vs' => if (id x =? i)%Z then vs' else x :: remove_visual i vs'
  end.

Definition Presentation_removeVisual (p : Presentation) (i : Z)
  : M Presentation :=
  match find (fun x => (id x =? i)%Z) (visuals p) with
  | Some x => emit (with_visuals (remove_visual i (visuals p)) p) [] [x]
  | None => ret p
  end.

Definition new_Presentation : M Presentation :=
  fun s =>
    let n := presentations_made s in
    (Normal {| oid := n; visuals := []; listeners := [] |},
     log (call_new_Presentation n) (set_presentations_made (S n) s)).

(** Modelled from the spec: [Util.waitEvent(target, 'change')], a promise
    that settles when the next [change] event is delivered (section 5: an
    explicit wait). The promise is [cleanupDone] of [App.import]. *)
Definition waitEvent_change : M unit :=
  modify (fun s =>
    set_presentation (addEventListener cleanupDone (presentation s))
      (set_cleanupDone_settled false s)).

(** [await cleanupDone]. *)
Definition await_cleanupDone : M unit :=
  fun s => if cleanupDone_settled s then (Normal tt, s) else (Pending, s).

(** A method of [this.presentation], which stays the same object. *)
Definition on_this_presentation (f : Presentation -> M Presentation)
  : M unit :=
  fun s =>
    match f (presentation s) s with
    | (Normal p, s') => (Normal tt, set_presentation p s')
    | (Throw e, s') => (Throw e, s')
    | (Pending, s') => (Pending, s')
    end.

(** The first statement of [App.import]: the clean-up of the presentation
    in place. [length] of a presentation is taken to be the number of its
    annotations. *)
Definition import_cleanup : M unit :=
  fun s =>
    if (List.length (visuals (presentation s)) =? 0)%nat then (Normal tt, s)
    else
      (waitEvent_change ;;;
       on_this_presentation Presentation_removeAllVisuals ;;;
       await_cleanupDone) s.

(** The statements of [App.import] after the clean-up, from the scan of
    the ids to the assignment of [this.presentation]. *)
Definition import_continuation (data : json) : M unit :=
  seed <~ lift (maxId data) ;;
  Ids_initId seed ;;;
  p <~ new_Presentation ;;
  let p := addEventListener onPresentationChange p in
  p <~ Presentation_import p data ;;
  let p := addEventListener maybePersistOnPresentationChange p in
  modify (set_presentation p).

(** [App.import]. *)
Definition App_import (data : json) : M unit :=
  import_cleanup ;;;
  import_continuation data.

(** [App.export]. *)
Definition App_export (s : App) : json :=
  Presentation_serialize (visuals (presentation s)).

(** The text that [App.persist] writes back, from the text it fetched and
    the payload it exports. *)
Definition persist_text (currentValue : string) (exported : json) : string :=
  let currentParsed :=
    match parseComment MAGIC currentValue with
    | Normal (Some p) => p
    | _ => {| comment := currentValue; data := JObject [] |}
    end in
  let currentParsed :=
    {| data := exported; comment := comment currentParsed |} in
  renderComment MAGIC currentParsed.

(** [App.persist], with the server answering every request. *)
Definition App_persist : M unit :=
  fun s =>
    let currentValue := issue_body s in
    (Normal tt, set_issue_body (persist_text currentValue (App_export s)) s).

(** [App.onSettingsLoad]: [parsed.data] raises a [TypeError] when [parsed]
    is [undefined]; the call of [this.import] is not awaited. *)
Definition App_onSettingsLoad : M unit :=
  fun s =>
    let currentValue := issue_body s in
    match parseComment MAGIC currentValue with
    | Normal (Some parsed) =>
        (Normal tt, not_awaited (App_import (data parsed)) s)
    | Normal None => (Throw TypeError, s)
    | Throw e => (Throw e, s)
    | Pending => (Pending, s)
    end.

(** The selector [.MAGIC.visual-root.selected]. *)
Definition sel_selected (e : element) : bool :=
  contains MAGIC e && contains "visual-root" e && contains "selected" e.

(** What the [forEach] of [selectVisual] does to an element of the
    document: the marker goes from the elements the selector matches. *)
Definition clear_selected (x : element) : element :=
  if sel_selected x then classList_remove "selected" x else x.

(** [App.onSelect], the listener of the [select] event. *)
Definition App_onSelect (i : Z) : M unit :=
  modify (log (call_sidebar_select i)).

(** [App.selectVisual]. The first line has no [?.]: it raises a
    [TypeError] when no element is found. *)
Definition App_selectVisual (i : Z) : M unit :=
  fun s =>
    match findVisualUI i (document s) with
    | None => (Throw TypeError, s)
    | Some ui =>
        if contains "selected" ui then (Normal tt, s)
        else
          (modify (fun s =>
             set_document
               (map clear_selected (document s)) s) ;;;
           modify (fun s =>
             set_document
               (update_first (sel_visual_root i) (classList_add "selected")
                  (document s)) s) ;;;
           modify (log (dispatch_select i)) ;;;
           App_onSelect i) s
    end.

(** [App.onSidebarDelete] and the [accept] listener of [createCommentUI]. *)
Definition App_onSidebarDelete (i : Z) : M unit :=
  on_this_presentation (fun p => Presentation_removeVisual p i).

Definition App_onAccept (comment : Comment) : M unit :=
  on_this_presentation (fun p => Presentation_addOrReplaceVisual p comment).

End Application.

(** ** [App.import] over any [removeAllVisuals]

    The same statements as in [import_cleanup] and [App_import], with the
    method of the presentation left open. *)
Section Import_over.
Variable MAGIC : string.
Variable Presentation_deserialize : json -> completion (list Comment).

(** [removeAllVisuals] of [Presentation], a class of model/model.js, when
    nothing is taken for granted about it: a parameter. *)
Variable removeAllVisuals : Presentation -> M Presentation.


End Import_over.

(** ** What the statements below speak of *)

Definition maximum (l : list Z) : option Z :=
  match l with
  | [] => None
  | x :: l' => Some (fold_left Z.max l' x)
  end.

(** The seed in the words of the spec (sections 4.1 and 6): the maximum id
    found anywhere in the payload, recursing into every nested object and
    array, and 1 if none is found. It is compared with [maxId] below. *)
Fixpoint spec_all_ids (o : json) : list Z :=
  match o with
  | JObject ms =>
      (match lookup "id" ms with
       | Some (JNumber n) => [n]
       | _ => []
       end ++ concat (map (fun kv => spec_all_ids (snd kv)) ms))%list
  | JArray l => concat (map spec_all_ids l)
  | _ => []
  end.

Definition spec_seed (data : json) : Z :=
  match maximum (spec_all_ids data) with
  | Some m => m
  | None => 1%Z
  end.

Definition safe_integer (n : Z) : bool :=
  ((- 9007199254740992 <? n) && (n <? 9007199254740992))%Z.

(** The ids the scan of pull.js reaches: it goes through objects and
    arrays, and stops at an object that has a truthy [id]. *)
Fixpoint outermost_ids (o : json) : list Z :=
  match o with
  | JObject ms =>
      match lookup "id" ms with
      | Some (JNumber n) =>
          if (n =? 0)%Z
          then concat (map (fun kv => outermost_ids (snd kv)) ms)
          else [n]
      | _ => concat (map (fun kv => outermost_ids (snd kv)) ms)
      end
  | JArray l => concat (map outermost_ids l)
  | _ => []
  end.

(** A payload on which the scan does not raise and meets numbers only:
    no [null] where the scan goes, and every truthy [id] it reaches is a
    safe integer. *)
Fixpoint well_scanned (o : json) : bool :=
  match o with
  | JNull => false
  | JBool _ | JNumber _ | JString _ => true
  | JArray l => forallb well_scanned l
  | JObject ms =>
      match lookup "id" ms with
      | Some (JNumber n) =>
          if (n =? 0)%Z
          then forallb (fun kv => well_scanned (snd kv)) ms
          else safe_integer n
      | Some i =>
          negb (truthy i) && forallb (fun kv => well_scanned (snd kv)) ms
      | None => forallb (fun kv => well_scanned (snd kv)) ms
      end
  end.

(** [o?.id] is truthy. *)
Definition has_id (o : json) : bool :=
  match id_of o with
  | Some i => truthy i
  | None => false
  end.

(** A value without an id anywhere in it. *)
Definition no_ids (o : json) : bool :=
  match spec_all_ids o with
  | [] => true
  | _ :: _ => false
  end.

(** A payload whose ids do not nest: an object with a numeric id has a
    non-zero one and no id below it. The records [{ id, context, text }] of
    section 6 of the spec are of this kind, under any grouping. *)
Fixpoint ids_unnested (o : json) : bool :=
  match o with
  | JObject ms =>
      match lookup "id" ms with
      | Some (JNumber n) =>
          negb (n =? 0)%Z && forallb (fun kv => no_ids (snd kv)) ms
      | _ => forallb (fun kv => ids_unnested (snd kv)) ms
      end
  | JArray l => forallb ids_unnested l
  | _ => true
  end.

(** The calls of the side list that [onPresentationChange] makes. *)
Definition sidebar_calls (e : change) : list effect :=
  (map (fun x => call_sidebar_remove (id x)) (removed e)
   ++ map (fun x => call_sidebar_add x
                      (Presentation_indexOf (detail_presentation e) (id x)))
        (added e))%list.

Definition no_delivery (x : effect) : bool :=
  match x with
  | deliver _ _ => false
  | _ => true
  end.


(** A view node that carries the selected marker, and how many there are. *)
Definition marked (e : element) : bool :=
  contains "visual-root" e && contains "selected" e.

Definition count_marked (doc : list element) : nat :=
  List.length (filter marked doc).

(** How many elements a selector matches. *)
Definition count_matches (sel : element -> bool) (doc : list element) : nat :=
  List.length (filter sel doc).

(** What the scan and its callback return on a value the scan can handle:
    the ids it reaches. *)
Definition scanned (v : json) : Prop :=
  well_scanned v = true ->
  (exists r, getAllIds v = Normal r
             /\ flat1 r = map JNumber (outermost_ids v)
             /\ (has_id v = false ->
                 r = JArray (map JNumber (outermost_ids v))))
  /\ (exists r, getAllIds_callback getAllIds v = Normal r
                /\ flat1 r = map JNumber (outermost_ids v)).

(** ** What the further statements speak of *)

(** Where [JSON_parse] does not follow [JSON.parse]: a text in which a
    digit is followed by a dot or by the letter e, as at the start of a
    fraction or of an exponent, or which holds the escape [\u]. *)
Fixpoint beyond_embedding (s : string) : bool :=
  match s with
  | String a (String b _ as s') =>
      (is_digit a && starts_fraction_or_exponent s')
      || (Ascii.eqb a BACKSLASH && Ascii.eqb b "u")
      || beyond_embedding s'
  | _ => false
  end.

(** Whether the scan of [App.import] comes to a [null]: it goes through
    arrays and through the objects that have no truthy [id]. *)
Fixpoint meets_null (o : json) : bool :=
  match o with
  | JNull => true
  | JBool _ | JNumber _ | JString _ => false
  | JArray l => existsb meets_null l
  | JObject ms =>
      match lookup "id" ms with
      | Some i =>
          if truthy i then false
          else existsb (fun kv => meets_null (snd kv)) ms
      | None => existsb (fun kv => meets_null (snd kv)) ms
      end
  end.

(** [Array.isArray]. *)
Definition is_array (v : json) : bool :=
  match v with
  | JArray _ => true
  | _ => false
  end.

(** The payloads on which the scan and the [map] after it raise: the scan
    comes to a [null], or the payload itself has a truthy [id] that is no
    array. *)
Definition scan_rejects (data : json) : bool :=
  meets_null data
  || match id_of data with
     | Some i => truthy i && negb (is_array i)
     | None => false
     end.

(** [f] raises a [TypeError] on the values that [m] marks, and returns on
    the others. *)
Definition raises_or_returns (m : json -> bool) (f : json -> completion json)
  (x : json) : Prop :=
  (m x = true -> f x = Throw TypeError)
  /\ (m x = false -> exists r, f x = Normal r).

(** The presentation the [App] holds has the two listeners of [App], in
    the order in which the constructor and [App.import] add them. *)
Definition wired (s : App) : Prop :=
  listeners (presentation s)
  = [onPresentationChange; maybePersistOnPresentationChange].

(** The id values the scan of [App.import] collects, in the order in which
    [flatMap] puts them: the truthy [id] of an object, flattened by one
    level, and below an object without one and below an array what the scan
    collects there. *)
Fixpoint reached_ids (o : json) : list json :=
  match o with
  | JObject ms =>
      match lookup "id" ms with
      | Some i =>
          if truthy i then flat1 i
          else concat (map (fun kv => reached_ids (snd kv)) ms)
      | None => concat (map (fun kv => reached_ids (snd kv)) ms)
      end
  | JArray l => concat (map reached_ids l)
  | _ => []
  end.

(** Every collected id is read by [parseInt] as a safe integer: a number,
    or a string that starts with the digits of one. *)
Definition ids_are_integers (data : json) : bool :=
  forallb (fun i => match parseInt i with
                    | Some n => safe_integer n
                    | None => false
                    end) (reached_ids data).

(** The integers [parseInt] reads from the collected ids. *)
Definition integer_ids (data : json) : list Z :=
  flat_map (fun i => match parseInt i with
                     | Some n => [n]
                     | None => []
                     end) (reached_ids data).

(** What the scan and its callback return when the scan comes to no
    [null]: the ids it collects. *)
Definition reaches (v : json) : Prop :=
  meets_null v = false ->
  (exists r, getAllIds v = Normal r
             /\ flat1 r = reached_ids v
             /\ (has_id v = false -> r = JArray (reached_ids v)))
  /\ (exists r, getAllIds_callback getAllIds v = Normal r
                /\ flat1 r = reached_ids v).

(** The ids of the view nodes of a document, in document order. *)
Definition view_ids (doc : list element) : list Z :=
  flat_map (fun e => if contains "visual-root" e
                     then match data_visual_id e with
                          | Some i => [i]
                          | None => []
                          end
                     else []) doc.

(** No number occurs twice. *)
Fixpoint distinct (l : list Z) : bool :=
  match l with
  | [] => true
  | x :: l' => negb (existsb (Z.eqb x) l') && distinct l'
  end.

(** No element is a view node and a row of the diff at once. *)
Definition rows_apart (doc : list element) : bool :=
  forallb (fun e => negb (contains "visual-root" e)
                    || (List.length (data_line_number e) =? 0)%nat) doc.

(** The view shows an annotation: its view node is there, with its text. *)
Definition shows (doc : list element) (x : Comment) : Prop :=
  exists u, find (sel_visual_root (id x)) doc = Some u
            /\ shown_text u = text x.

(** ** Sample data

    A marker, payloads and a page on which the statements are tried. *)
Definition sample_MAGIC : string := "TELLREQUEST".

(** The payload of scenario 7 of the spec. *)
Definition scenario_payload : json :=
  JObject
    [("comments",
      JArray
        [JObject [("id", JNumber 2);
                  ("context", JObject [("file", JString "a.go");
                                       ("lineNo", JNumber 10)]);
                  ("text", JString "fix this")]])].

(** A payload whose nested ids are 3, 7 and 5 (scenario 8 of the spec). *)
Definition payload_3_7_5 : json :=
  JObject
    [("comments",
      JArray
        [JObject [("id", JNumber 3);
                  ("context", JObject [("file", JString "a.go");
                                       ("lineNo", JNumber 10)]);
                  ("text", JString "c")];
         JObject [("id", JNumber 7);
                  ("context", JObject [("file", JString "a.go");
                                       ("lineNo", JNumber 11)]);
                  ("text", JString "d")];
         JObject [("id", JNumber 5);
                  ("context", JObject [("file", JString "b.go");
                                       ("lineNo", JNumber 12)]);
                  ("text", JString "e")]])].

(** A payload with an id below an object that has an id. *)
Definition payload_nested_ids : json :=
  JObject
    [("groups",
      JArray
        [JObject [("id", JNumber 1);
                  ("comments", JArray [JObject [("id", JNumber 5)]])]])].

(** Modelled from the spec: a serialization of the presentation in the
    payload shape of section 6 and scenario 7, a list of records
    [{ id, context: { file, lineNo }, text }] under [comments]. It stands
    in for the conversions of model/model.js where a statement is tried on
    sample data. *)
Definition Comment_to_json (x : Comment) : json :=
  JObject [("id", JNumber (id x));
           ("context", JObject [("file", JString (file (context x)));
                                ("lineNo", JString (lineNo (context x)))]);
           ("text", JString (text x))].

Definition sample_serialize (vs : list Comment) : json :=
  JObject [("comments", JArray (map Comment_to_json vs))].

Definition Comment_of_json (j : json) : completion Comment :=
  match j with
  | JObject ms =>
      match lookup "id" ms, lookup "context" ms, lookup "text" ms with
      | Some (JNumber i), Some (JObject c), Some (JString t) =>
          match lookup "file" c, lookup "lineNo" c with
          | Some (JString f), Some n =>
              Normal {| id := i;
                        context := {| file := f; lineNo := ToString n |};
                        text := t |}
          | _, _ => Throw TypeError
          end
      | _, _, _ => Throw TypeError
      end
  | _ => Throw TypeError
  end.

Fixpoint Comments_of_json (l : list json) : completion (list Comment) :=
  match l with
  | [] => Normal []
  | j :: l' =>
      x <- Comment_of_json j ;;
      xs <- Comments_of_json l' ;;
      Normal (x :: xs)
  end.

Definition sample_deserialize (payload : json) : completion (list Comment) :=
  match payload with
  | JObject ms =>
      match lookup "comments" ms with
      | Some (JArray l) => Comments_of_json l
      | _ => Throw TypeError
      end
  | _ => Throw TypeError
  end.

Definition sample_Comment (i : Z) (line t : string) : Comment :=
  {| id := i; context := {| file := "a.go"; lineNo := line |}; text := t |}.

Definition diff_row (line : string) : element :=
  {| data_line_number := [line]; data_visual_id := None;
     classList := []; shown_text := "" |}.

(** A page with three rows of a diff and two annotations shown, the
    description on the server without a block. *)
Definition sample_App : App :=
  {| presentation :=
       {| oid := 0;
          visuals := [sample_Comment 1 "10" "one"; sample_Comment 2 "11" "two"];
          listeners := [onPresentationChange;
                        maybePersistOnPresentationChange] |};
     document :=
       [diff_row "10";
        CommentUI_rootElem sample_MAGIC (sample_Comment 1 "10" "one");
        diff_row "11";
        CommentUI_rootElem sample_MAGIC (sample_Comment 2 "11" "two");
        diff_row "12"];
     issue_body := "Summary";
     Ids_counter := 2;
     cleanupDone_settled := false;
     presentations_made := 1;
     trace := [] |}.


(** The sample page with a description that holds a block between two
    lines of text. *)
Definition sample_App_with_block : App :=
  set_issue_body
    ("Summary" ++ str1 LF
     ++ "<!-- " ++ sample_MAGIC ++ JSON_stringify scenario_payload
     ++ sample_MAGIC ++ " -->" ++ str1 LF ++ "Footer")
    sample_App.

(** A payload that has an id of its own. *)
Definition payload_own_id : json :=
  JObject [("id", JNumber 3); ("comments", JArray [])].

(** The annotations of the payload with the ids 3, 7 and 5. *)
Definition Comments_3_7_5 : list Comment :=
  [ {| id := 3; context := {| file := "a.go"; lineNo := "10" |};
       text := "c" |};
    {| id := 7; context := {| file := "a.go"; lineNo := "11" |};
       text := "d" |};
    {| id := 5; context := {| file := "b.go"; lineNo := "12" |};
       text := "e" |} ].

(** A change of the presentation of the sample page: the first annotation
    goes, and one is added at a line. *)
Definition sample_change (line : string) : change :=
  {| detail_presentation :=
       with_visuals [sample_Comment 2 "11" "two"; sample_Comment 3 line "three"]
         (presentation sample_App);
     added := [sample_Comment 3 line "three"];
     removed := [sample_Comment 1 "10" "one"] |}.



(** A payload whose ids are strings and numbers. *)
Definition payload_string_ids : json :=
  JObject
    [("comments",
      JArray [JObject [("id", JString "3")]; JObject [("id", JNumber 7)];
              JObject [("id", JString "5")]])].

(** * Properties *)

(** ** Strings *)

Lemma append_assoc (a b c : string) : (a ++ b) ++ c = a ++ (b ++ c).
Proof. induction a as [|x a IH]; simpl; [reflexivity | now rewrite IH]. Qed.

Lemma append_nil_r (a : string) : a ++ "" = a.
Proof. induction a as [|x a IH]; simpl; [reflexivity | now rewrite IH]. Qed.

Lemma append_length (a b : string) :
  String.length (a ++ b) = (String.length a + String.length b)%nat.
Proof. induction a as [|x a IH]; simpl; [reflexivity | now rewrite IH]. Qed.

Lemma append_snoc (a : string) (c : ascii) (b : string) :
  (a ++ str1 c) ++ b = a ++ String c b.
Proof. now rewrite append_assoc. Qed.

(** Two ways to cut one string: one cut lies before the other. *)
Lemma append_eq_append (a b c d : string) :
  a ++ b = c ++ d ->
  (exists e, a = c ++ e /\ d = e ++ b) \/ (exists e, c = a ++ e /\ b = e ++ d).
Proof.
  revert c. induction a as [|x a IH]; intros c H.
  - right. exists c. now simpl in *.
  - destruct c as [|y c].
    + left. exists (String x a). now simpl in *.
    + simpl in H. injection H as -> H.
      destruct (IH c H) as [[e [-> ->]] | [e [-> ->]]].
      * left. now exists e.
      * right. now exists e.
Qed.

Lemma strip_prefix_cons (a : ascii) (p : string) (b : ascii) (s : string) :
  strip_prefix (String a p) (String b s)
  = if Ascii.eqb a b then strip_prefix p s else None.
Proof. reflexivity. Qed.

Lemma strip_prefix_app (p r : string) : strip_prefix p (p ++ r) = Some r.
Proof.
  induction p as [|a p IH]; simpl; [reflexivity|].
  now rewrite Ascii.eqb_refl.
Qed.

Lemma strip_prefix_Some (p s r : string) :
  strip_prefix p s = Some r -> s = p ++ r.
Proof.
  revert s. induction p as [|a p IH]; intros s H; simpl in *.
  - now injection H as ->.
  - destruct s as [|b s]; [discriminate|].
    destruct (Ascii.eqb_spec a b) as [->|]; [|discriminate].
    now rewrite (IH _ H).
Qed.

Lemma includes_false (m s : string) :
  includes m s = false <->
  (forall a b, s = a ++ b -> strip_prefix m b = None).
Proof.
  split.
  - revert m. induction s as [|x s IH]; intros m H a b E.
    + destruct a; [|discriminate]. simpl in E. subst b.
      simpl in H. now destruct (strip_prefix m "").
    + simpl in H.
      destruct (strip_prefix m (String x s)) eqn:P; [discriminate|].
      destruct a as [|y a]; simpl in E.
      * now subst b.
      * injection E as _ E. exact (IH m H a b E).
  - induction s as [|x s IH]; intros H.
    + simpl. now rewrite (H "" "" eq_refl).
    + simpl. rewrite (H "" (String x s) eq_refl).
      apply IH. intros a b ->. exact (H (String x a) b eq_refl).
Qed.

Lemma includes_true (m s : string) :
  includes m s = true <-> exists a b, s = a ++ m ++ b.
Proof.
  split.
  - induction s as [|x s IH]; simpl.
    + destruct (strip_prefix m "") eqn:P; [|discriminate].
      intros _. exists "", s. simpl. now apply strip_prefix_Some.
    + destruct (strip_prefix m (String x s)) eqn:P.
      * intros _. exists "", s0. simpl. now apply strip_prefix_Some.
      * intros H. destruct (IH H) as [a [b ->]]. now exists (String x a), b.
  - intros [a [b ->]].
    destruct (includes m (a ++ m ++ b)) eqn:E; [reflexivity|].
    rewrite includes_false in E.
    specialize (E a (m ++ b) eq_refl). now rewrite strip_prefix_app in E.
Qed.

(** ** The matcher: what a match tells about the text *)
Section Matcher_facts.
Context {R : Type}.
Implicit Types (k : @continuation R) (s : string).

Lemma re_lit_Some p k s r :
  re_lit p k s = Some r -> exists rest, s = p ++ rest /\ k rest = Some r.
Proof.
  unfold re_lit. destruct (strip_prefix p s) as [rest|] eqn:E; [|discriminate].
  intros H. exists rest. split; [now apply strip_prefix_Some | exact H].
Qed.

Lemma re_lit_app p k rest : re_lit p k (p ++ rest) = k rest.
Proof. unfold re_lit. now rewrite strip_prefix_app. Qed.

Lemma re_spaces_Some k s r :
  re_spaces k s = Some r ->
  exists w rest,
    s = w ++ rest /\ string_forallb is_space w = true /\ k rest = Some r.
Proof.
  induction s as [|c s IH]; simpl; intros H.
  - exists "", "". auto.
  - destruct (is_space c) eqn:C.
    + destruct (re_spaces k s) as [x|] eqn:E.
      * injection H as ->. destruct (IH eq_refl) as [w [rest [-> [W K]]]].
        exists (String c w), rest. simpl. now rewrite C, W.
      * exists "", (String c s). auto.
    + exists "", (String c s). auto.
Qed.

Lemma re_opt_Some (r : @continuation R -> @continuation R) k s x :
  re_opt r k s = Some x -> r k s = Some x \/ k s = Some x.
Proof. unfold re_opt. destruct (r k s); [left | right]; assumption. Qed.

Lemma re_group_lazy_Some (k : string -> @continuation R) acc s r :
  re_group_lazy acc k s = Some r ->
  exists a b, s = a ++ b /\ k (acc ++ a) b = Some r.
Proof.
  revert acc. induction s as [|c s IH]; intros acc; simpl.
  - destruct (k acc "") eqn:E; [|discriminate].
    intros H. exists "", "". rewrite (append_nil_r acc).
    split; [reflexivity|congruence].
  - destruct (k acc (String c s)) eqn:E.
    + intros H. exists "", (String c s). rewrite (append_nil_r acc).
      split; [reflexivity|congruence].
    + intros H. destruct (IH _ H) as [a [b [-> K]]].
      exists (String c a), b. rewrite append_snoc in K. now split.
Qed.

Lemma re_group_greedy_Some (k : string -> @continuation R) acc s r :
  re_group_greedy acc k s = Some r ->
  exists a b, s = a ++ b /\ k (acc ++ a) b = Some r.
Proof.
  revert acc. induction s as [|c s IH]; intros acc; simpl.
  - intros H. exists "", "". now rewrite (append_nil_r acc).
  - destruct (re_group_greedy (acc ++ str1 c) k s) eqn:E.
    + intros H. injection H as ->. destruct (IH _ E) as [a [b [-> K]]].
      exists (String c a), b. rewrite append_snoc in K. now split.
    + intros H. exists "", (String c s). now rewrite (append_nil_r acc).
Qed.

Lemma re_end_Some (r x : R) s : re_end r s = Some x -> s = "" /\ x = r.
Proof. destruct s; simpl; [|discriminate]. intros H. now injection H. Qed.

(** ** The matcher: which choice wins *)

(** The lazy group stops at the first cut the rest of the pattern accepts. *)
Lemma re_group_lazy_first (k : string -> @continuation R) acc x y r :
  (forall a b, x = a ++ b -> b <> "" -> k (acc ++ a) (b ++ y) = None) ->
  k (acc ++ x) y = Some r ->
  re_group_lazy acc k (x ++ y) = Some r.
Proof.
  revert acc. induction x as [|c x IH]; intros acc F K.
  - rewrite append_nil_r in K. simpl. destruct y; simpl; now rewrite K.
  - assert (F0 : k (acc ++ "") (String c x ++ y) = None)
      by (apply F; [reflexivity | discriminate]).
    rewrite append_nil_r in F0. simpl in *. rewrite F0.
    apply IH.
    + intros a b -> N. rewrite append_snoc. now apply (F (String c a) b).
    + now rewrite append_snoc.
Qed.

(** The greedy group takes everything when no cut after its start is
    accepted later than the one at hand. *)
Lemma re_group_greedy_none (k : string -> @continuation R) acc y :
  (forall a b, y = a ++ b -> a <> "" -> k (acc ++ a) b = None) ->
  re_group_greedy acc k y = k acc y.
Proof.
  revert acc. induction y as [|c y IH]; intros acc F; [reflexivity|].
  simpl. rewrite IH.
  - rewrite (F (str1 c) y); [reflexivity | reflexivity | discriminate].
  - intros a b -> N. rewrite append_snoc. apply F; [reflexivity|discriminate].
Qed.

Lemma re_group_greedy_last (k : string -> @continuation R) acc x y r :
  (forall a b, y = a ++ b -> a <> "" -> k (acc ++ x ++ a) b = None) ->
  k (acc ++ x) y = Some r ->
  re_group_greedy acc k (x ++ y) = Some r.
Proof.
  revert acc. induction x as [|c x IH]; intros acc F K.
  - simpl. rewrite append_nil_r in K. rewrite re_group_greedy_none; [exact K|].
    intros a b E N. now apply F.
  - simpl. rewrite (IH (acc ++ str1 c)); [reflexivity| |].
    + intros a b E N. rewrite append_snoc. now apply F.
    + now rewrite append_snoc.
Qed.

(** The last group of the pattern takes the rest of the text. *)
Lemma re_group_greedy_end (f : string -> R) acc s :
  re_group_greedy acc (fun a => re_end (f a)) s = Some (f (acc ++ s)).
Proof.
  revert acc. induction s as [|c s IH]; intros acc; simpl.
  - now rewrite append_nil_r.
  - now rewrite IH, append_snoc.
Qed.

End Matcher_facts.

Section Codec_facts.
Variable MAGIC : string.

(** A match of [PARSE_REGEX] cuts the text into the seven pieces of the
    pattern. *)
Lemma PARSE_REGEX_Some c g :
  PARSE_REGEX MAGIC c = Some g ->
  exists o cl,
    c = before g ++ o ++ MAGIC ++ data_group g ++ MAGIC ++ cl ++ after g
    /\ comment_opener o /\ comment_closer cl.
Proof.
  unfold PARSE_REGEX. intros H.
  apply re_group_lazy_Some in H as [b [s1 [-> H]]]. simpl in H.
  assert (O : exists o s2, s1 = o ++ s2 /\ comment_opener o
              /\ re_lit MAGIC
                   (re_group_greedy "" (fun data =>
                      re_lit MAGIC
                        (re_opt (fun k => re_spaces (re_lit "-->" k))
                           (re_group_greedy "" (fun after =>
                              re_end {| before := b; data_group := data;
                                        after := after |}))))) s2 = Some g).
  { apply re_opt_Some in H as [H|H].
    - apply re_lit_Some in H as [s2 [-> H]].
      apply re_spaces_Some in H as [w [s3 [-> [W H]]]].
      exists ("<!--" ++ w), s3. split; [now rewrite append_assoc|].
      split; [right; now exists w | exact H].
    - exists "", s1. split; [reflexivity|]. split; [now left | exact H]. }
  destruct O as [o [s2 [-> [Ho H2]]]].
  apply re_lit_Some in H2 as [s3 [-> H3]].
  apply re_group_greedy_Some in H3 as [d [s4 [-> H4]]]. simpl in H4.
  apply re_lit_Some in H4 as [s5 [-> H5]].
  assert (C : exists cl s6, s5 = cl ++ s6 /\ comment_closer cl
              /\ re_group_greedy "" (fun after =>
                   re_end {| before := b; data_group := d;
                             after := after |}) s6 = Some g).
  { apply re_opt_Some in H5 as [H5|H5].
    - apply re_spaces_Some in H5 as [w [s6 [-> [W H5]]]].
      apply re_lit_Some in H5 as [s7 [-> H5]].
      exists (w ++ "-->"), s7. split; [now rewrite append_assoc|].
      split; [right; now exists w | exact H5].
    - exists "", s5. split; [reflexivity|]. split; [now left | exact H5]. }
  destruct C as [cl [s6 [-> [Hc H6]]]].
  rewrite re_group_greedy_end in H6. injection H6 as <-. simpl.
  exists o, cl. split; [|now split].
  now rewrite ?append_assoc.
Qed.

(** *** The marker in a rendered text *)

Hypothesis MAGIC_ok : marker_ok MAGIC = true.

Lemma MAGIC_chars : string_forallb marker_char MAGIC = true.
Proof.
  unfold marker_ok in MAGIC_ok. destruct MAGIC as [|c r]; [discriminate|].
  apply andb_true_iff in MAGIC_ok as [W F]. simpl. unfold marker_char at 1.
  now rewrite W, F.
Qed.

(** The marker does not start at a character that is no word character. *)
Lemma MAGIC_not_at c s : is_word c = false -> strip_prefix MAGIC (String c s) = None.
Proof.
  intros W. unfold marker_ok in MAGIC_ok. destruct MAGIC as [|a r]; [discriminate|].
  apply andb_true_iff in MAGIC_ok as [Wa _]. simpl.
  destruct (Ascii.eqb_spec a c) as [->|]; [congruence | reflexivity].
Qed.

Lemma MAGIC_not_empty : strip_prefix MAGIC "" = None.
Proof.
  unfold marker_ok in MAGIC_ok. now destruct MAGIC.
Qed.

(** A prefix that runs over a character it cannot hold. *)
Lemma strip_prefix_crossing (m b : string) (c : ascii) (r x : string) :
  string_forallb marker_char m = true -> marker_char c = false ->
  strip_prefix m (b ++ String c r) = Some x ->
  exists y, strip_prefix m b = Some y.
Proof.
  intros Hm Hc. revert b. induction m as [|a m IH]; intros b H.
  - now exists b.
  - simpl in Hm. apply andb_true_iff in Hm as [Ha Hm].
    destruct b as [|b0 b]; simpl in H |- *.
    + destruct (Ascii.eqb_spec a c) as [->|]; [congruence | discriminate].
    + destruct (Ascii.eqb a b0); [|discriminate]. now apply IH.
Qed.

(** In a text that does not hold the marker, followed by a character the
    marker cannot hold, the marker starts nowhere. *)
Lemma MAGIC_not_in_front (x : string) (c : ascii) (r : string) :
  includes MAGIC x = false -> marker_char c = false ->
  forall a b, x = a ++ b -> strip_prefix MAGIC (b ++ String c r) = None.
Proof.
  intros I C a b E.
  destruct (strip_prefix MAGIC (b ++ String c r)) eqn:P; [|reflexivity].
  apply strip_prefix_crossing in P as [y P]; [|exact MAGIC_chars|exact C].
  rewrite includes_false in I. now rewrite (I a b E) in P.
Qed.

(** After the closing marker of a rendered text the marker does not start
    again. *)
Lemma MAGIC_not_after (a b : string) :
  MAGIC ++ " -->" = a ++ b -> a <> "" -> strip_prefix MAGIC b = None.
Proof.
  intros E N. apply append_eq_append in E as [[e [E ->]] | [e [-> E]]].
  - destruct (strip_prefix MAGIC (e ++ " -->")) eqn:P; [|reflexivity].
    apply strip_prefix_crossing in P as [y P];
      [|exact MAGIC_chars|reflexivity].
    apply strip_prefix_Some in P. exfalso.
    apply (f_equal String.length) in E, P. rewrite !append_length in *.
    destruct a; [now apply N|]. simpl in *. lia.
  - destruct e as [|c0 [|c1 [|c2 [|c3 [|c4 e]]]]]; simpl in E;
      try discriminate; inversion E; subst;
      first [ apply MAGIC_not_empty | now apply MAGIC_not_at ].
Qed.

Lemma is_word_not_space c : is_word c = true -> is_space c = false.
Proof.
  destruct c as [[] [] [] [] [] [] [] []]; intros H;
    first [ reflexivity | discriminate H ].
Qed.

(** A comment opener that starts inside the front text ends inside it. *)
Lemma opener_in_front (b rest z : string) :
  strip_prefix "<!--" (b ++ "<!-- " ++ rest) = Some z -> b <> "" ->
  exists e, b = "<!--" ++ e /\ z = e ++ "<!-- " ++ rest.
Proof.
  intros H N.
  destruct b as [|c1 [|c2 [|c3 [|c4 b]]]]; [now elim N| | | |];
    cbn [append] in H; rewrite ?strip_prefix_cons in H;
    repeat match type of H with
      | context [Ascii.eqb ?a ?c] =>
          destruct (Ascii.eqb_spec a c); try discriminate
      end.
  subst. cbn [strip_prefix] in H. injection H as <-. now exists b.
Qed.

(** White space is skipped in vain when the rest of the pattern fails at
    every place up to the next character that is no white space. *)
Lemma re_spaces_none {R : Type} (k : @continuation R) (e : string)
  (c : ascii) (y : string) :
  is_space c = false ->
  (forall a b, e = a ++ b -> k (b ++ String c y) = None) ->
  re_spaces k (e ++ String c y) = None.
Proof.
  intros C. induction e as [|x e IH]; intros F.
  - cbn [re_spaces append]. rewrite C. exact (F "" "" eq_refl).
  - pose proof (F "" (String x e) eq_refl) as F0.
    cbn [re_spaces append] in *. rewrite IH.
    + rewrite F0. now destruct (is_space x).
    + intros a b ->. exact (F (String x a) b eq_refl).
Qed.

(** [PARSE_REGEX] on a text that ends in a rendered block: the front text,
    which does not hold the marker, is the group [before]; the text between
    the markers is the group [data]; the group [after] is empty. *)
Lemma PARSE_REGEX_rendered (x body : string) :
  includes MAGIC x = false ->
  PARSE_REGEX MAGIC (x ++ "<!-- " ++ MAGIC ++ body ++ MAGIC ++ " -->")
  = Some {| before := x; data_group := body; after := "" |}.
Proof.
  intros I. unfold PARSE_REGEX. apply re_group_lazy_first.
  - (* no cut inside the front text is accepted *)
    intros a b E N. cbn beta.
    match goal with
    | |- re_opt _ (re_lit MAGIC ?K) _ = _ => set (k2 := K)
    end.
    unfold re_opt.
    assert (L : re_lit "<!--" (re_spaces (re_lit MAGIC k2))
                  (b ++ "<!-- " ++ MAGIC ++ body ++ MAGIC ++ " -->") = None).
    { unfold re_lit at 1.
      destruct (strip_prefix "<!--" _) as [z|] eqn:P; [|reflexivity].
      apply opener_in_front in P as [e [-> ->]]; [|exact N].
      apply re_spaces_none; [reflexivity|].
      intros a' b' ->. unfold re_lit.
      rewrite (MAGIC_not_in_front x "<" _ I eq_refl (a ++ "<!--" ++ a') b');
        [reflexivity|].
      rewrite E. now rewrite !append_assoc. }
    rewrite L. unfold re_lit.
    pose proof (MAGIC_not_in_front x "<"
                  ("!-- " ++ MAGIC ++ body ++ MAGIC ++ " -->")
                  I eq_refl a b E) as Q.
    cbn [append] in Q |- *. now rewrite Q.
  - (* the cut after the front text is accepted *)
    cbn beta. change ("" ++ x) with x.
    match goal with
    | |- re_opt _ (re_lit MAGIC ?K) _ = _ => set (k2 := K)
    end.
    assert (G : k2 (body ++ MAGIC ++ " -->")
                = Some {| before := x; data_group := body; after := "" |}).
    { subst k2. apply re_group_greedy_last.
      - intros a b E N. cbn beta. unfold re_lit.
        now rewrite (MAGIC_not_after a b E N).
      - cbn beta. now rewrite re_lit_app. }
    assert (T : re_spaces (re_lit MAGIC k2)
                  (MAGIC ++ body ++ MAGIC ++ " -->")
                = re_lit MAGIC k2 (MAGIC ++ body ++ MAGIC ++ " -->")).
    { generalize (re_lit MAGIC k2). intros k.
      pose proof MAGIC_ok as W. unfold marker_ok in W.
      destruct MAGIC as [|c m]; [discriminate|].
      apply andb_true_iff in W as [W _]. cbn [append re_spaces].
      now rewrite (is_word_not_space c W). }
    unfold re_opt, re_lit at 1. cbn [strip_prefix append].
    rewrite !Ascii.eqb_refl. cbn [re_spaces].
    change (is_space " ") with true. cbv iota.
    now rewrite T, re_lit_app, G.
Qed.
End Codec_facts.

(** ** The round trip of JSON *)
Lemma json_induction (P : json -> Prop) :
  P JNull -> (forall b, P (JBool b)) -> (forall n, P (JNumber n)) ->
  (forall s, P (JString s)) ->
  (forall l, Forall P l -> P (JArray l)) ->
  (forall ms, Forall (fun kv => P (snd kv)) ms -> P (JObject ms)) ->
  forall v, P v.
Proof.
  intros Hnull Hbool Hnum Hstr Harr Hobj. fix IH 1.
  intros [| b | n | s | l | ms].
  - exact Hnull.
  - apply Hbool.
  - apply Hnum.
  - apply Hstr.
  - apply Harr. induction l as [|x l IHl]; constructor; [apply IH | exact IHl].
  - apply Hobj.
    induction ms as [|[k x] ms IHms]; constructor; [apply IH | exact IHms].
Qed.

Lemma skip_ws_app (w t : string) :
  string_forallb is_json_ws w = true -> skip_ws (w ++ t) = skip_ws t.
Proof.
  induction w as [|c w IH]; [reflexivity|]. cbn [string_forallb append skip_ws].
  intros H. apply andb_true_iff in H as [-> H]. now apply IH.
Qed.

Lemma skip_ws_start (c : ascii) (t : string) :
  is_json_ws c = false -> skip_ws (String c t) = String c t.
Proof. intros H. cbn [skip_ws]. now rewrite H. Qed.

Lemma all_ws_app (a b : string) :
  string_forallb is_json_ws a = true -> string_forallb is_json_ws b = true ->
  string_forallb is_json_ws (a ++ b) = true.
Proof.
  induction a as [|c a IH]; [auto|]. cbn [string_forallb append].
  intros H Hb. apply andb_true_iff in H as [-> H]. now apply IH.
Qed.

(** *** Numbers *)

Lemma parse_digits_printed (u : uint) (rest : string) :
  number_end rest = true ->
  parse_digits (NilEmpty.string_of_uint u ++ rest) = (u, rest).
Proof.
  intros E. induction u; cbn [NilEmpty.string_of_uint append parse_digits];
    try (change (digit_of "0") with (Some D0);
         change (digit_of "1") with (Some D1);
         change (digit_of "2") with (Some D2);
         change (digit_of "3") with (Some D3);
         change (digit_of "4") with (Some D4);
         change (digit_of "5") with (Some D5);
         change (digit_of "6") with (Some D6);
         change (digit_of "7") with (Some D7);
         change (digit_of "8") with (Some D8);
         change (digit_of "9") with (Some D9);
         cbv iota beta; now rewrite IHu).
  destruct rest as [|c r]; [reflexivity|]. cbn [parse_digits].
  unfold number_end, is_digit in E. destruct (digit_of c); [discriminate|reflexivity].
Qed.

Lemma to_uint_no_leading_zero (p : positive) (d : uint) :
  Pos.to_uint p <> D0 d.
Proof.
  intros E.
  assert (U : unorm (Pos.to_uint p) = Pos.to_uint p).
  { rewrite <- (Unsigned.to_of (Pos.to_uint p)), Unsigned.of_to. reflexivity. }
  rewrite E in U. unfold unorm in U. rewrite nzhead_D0 in U.
  destruct (nzhead d) eqn:N; try discriminate.
  - injection U as <-. now apply (Unsigned.to_uint_nonzero p).
  - now apply (nzhead_nonzero d u).
Qed.

Lemma of_uint_to_uint (p : positive) : Z.of_uint (Pos.to_uint p) = Z.pos p.
Proof. unfold Z.of_uint. now rewrite Unsigned.of_to. Qed.

Lemma number_end_fraction (rest : string) :
  number_end rest = true -> starts_fraction_or_exponent rest = false.
Proof.
  destruct rest as [|c r]; [reflexivity|]. unfold number_end.
  intros H. apply andb_true_iff in H as [_ H]. now apply negb_true_iff in H.
Qed.

Lemma parse_unsigned_printed (p : positive) (rest : string) :
  number_end rest = true ->
  parse_unsigned (NilEmpty.string_of_uint (Pos.to_uint p) ++ rest)
  = Some (Z.pos p, rest).
Proof.
  intros E. unfold parse_unsigned. rewrite (parse_digits_printed _ _ E).
  pose proof (Unsigned.to_uint_nonnil p) as N.
  pose proof (to_uint_no_leading_zero p) as Z0.
  pose proof (of_uint_to_uint p) as V.
  rewrite (number_end_fraction _ E).
  destruct (Pos.to_uint p) as [|d|d|d|d|d|d|d|d|d|d]; try (now rewrite V).
  - now elim N.
  - now elim (Z0 d).
Qed.

Lemma parse_number_printed (n : Z) (rest : string) :
  number_end rest = true ->
  parse_number (NumberToString n ++ rest) = Some (n, rest).
Proof.
  intros E. unfold NumberToString. destruct n as [|p|p]; cbn [Z.to_int NilEmpty.string_of_int].
  - cbn [NilEmpty.string_of_uint append]. unfold parse_number.
    change (is_hyphen "0") with false. cbv iota.
    unfold parse_unsigned. cbn [parse_digits]. change (digit_of "0") with (Some D0).
    cbv iota beta. pose proof (parse_digits_printed Nil rest E) as D.
    cbn [NilEmpty.string_of_uint append] in D. rewrite D.
    now rewrite (number_end_fraction _ E).
  - pose proof (parse_unsigned_printed p rest E) as U.
    pose proof (Unsigned.to_uint_nonnil p) as N.
    destruct (NilEmpty.string_of_uint (Pos.to_uint p)) as [|c s] eqn:S.
    + destruct (Pos.to_uint p); try discriminate. now elim N.
    + cbn [append] in *. unfold parse_number.
      destruct (is_hyphen c) eqn:H; [|exact U].
      exfalso. destruct (Pos.to_uint p);
        cbn [NilEmpty.string_of_uint] in S; try discriminate;
        injection S as <- _; discriminate.
  - cbn [append]. unfold parse_number. change (is_hyphen "-") with true.
    cbv iota. now rewrite (parse_unsigned_printed p rest E).
Qed.

(** *** Strings *)
Lemma parse_string_char (c : ascii) (t : string) :
  parse_string_chars (escape_char c ++ t) = cons_char c (parse_string_chars t).
Proof. destruct c as [[] [] [] [] [] [] [] []]; reflexivity. Qed.

Lemma parse_string_printed (s rest : string) :
  parse_string_chars (escape_string s ++ String DQUOTE rest) = Some (s, rest).
Proof.
  induction s as [|c s IH]; [reflexivity|].
  cbn [escape_string]. rewrite append_assoc, parse_string_char, IH. reflexivity.
Qed.

(** *** Values by their first character *)
Lemma parse_value_skip (fuel : nat) (w t : string) :
  string_forallb is_json_ws w = true ->
  parse_value fuel (w ++ t) = parse_value fuel t.
Proof.
  intros W. destruct fuel; [reflexivity|].
  cbn [parse_value]. now rewrite (skip_ws_app w t W).
Qed.

Lemma parse_value_number (f : nat) (c : ascii) (r : string) :
  is_digit c || is_hyphen c = true ->
  parse_value (S f) (String c r)
  = match parse_number (String c r) with
    | Some (n, rest) => Some (JNumber n, rest)
    | None => None
    end.
Proof.
  destruct c as [[] [] [] [] [] [] [] []]; intros H;
    first [ discriminate H | reflexivity ].
Qed.

Lemma NumberToString_head (n : Z) :
  exists c r, NumberToString n = String c r /\ is_digit c || is_hyphen c = true.
Proof.
  unfold NumberToString. destruct n as [|p|p]; cbn [Z.to_int NilEmpty.string_of_int].
  - now exists "0"%char, "".
  - pose proof (Unsigned.to_uint_nonnil p) as N.
    destruct (Pos.to_uint p); [now elim N| | | | | | | | | |];
      cbn [NilEmpty.string_of_uint]; eexists _, _; (split; [reflexivity|reflexivity]).
  - eexists _, _; (split; [reflexivity|reflexivity]).
Qed.

Lemma parse_value_string (f : nat) (s rest : string) :
  parse_value (S f) (QuoteJSONString s ++ rest) = Some (JString s, rest).
Proof.
  unfold QuoteJSONString, str1. rewrite !append_assoc. cbn [append].
  change (parse_value (S f) (String DQUOTE (escape_string s ++ String DQUOTE rest)))
    with (match parse_string_chars (escape_string s ++ String DQUOTE rest) with
          | Some (str, rest) => Some (JString str, rest)
          | None => None
          end).
  now rewrite parse_string_printed.
Qed.

Lemma number_head_class (c : ascii) :
  is_digit c || is_hyphen c = true ->
  is_json_ws c = false /\ is_char 93 c = false.
Proof.
  destruct c as [[] [] [] [] [] [] [] []]; intros H;
    first [ discriminate H | split; reflexivity ].
Qed.

(** A printed value starts with a character that is neither white space
    nor a closing bracket. *)
Lemma printed_head (i : string) (v : json) :
  exists c r, SerializeJSONProperty i v = String c r
              /\ is_json_ws c = false /\ is_char 93 c = false.
Proof.
  destruct v as [| [|] | n | s | [|x l] | [|kv ms]]; cbn [SerializeJSONProperty];
    try (eexists _, _; split; [reflexivity | split; reflexivity]).
  destruct (NumberToString_head n) as [c [r [-> H]]].
  exists c, r. split; [reflexivity | now apply number_head_class].
Qed.

Lemma concat_cons2 (sep x y : string) (l : list string) :
  String.concat sep (x :: y :: l) = x ++ sep ++ String.concat sep (y :: l).
Proof. reflexivity. Qed.

Lemma all_ws_gap (i : string) : all_ws i -> all_ws (i ++ gap).
Proof. intros H. now apply all_ws_app. Qed.

Lemma all_ws_LF (i : string) : all_ws i -> all_ws (str1 LF ++ i).
Proof. intros H. now apply all_ws_app. Qed.

Lemma skip_ws_line (i t : string) :
  all_ws i -> skip_ws (str1 LF ++ i ++ t) = skip_ws t.
Proof.
  intros I. rewrite <- append_assoc. apply skip_ws_app. now apply all_ws_LF.
Qed.

Lemma parse_elements_printed (l : list json) :
  Forall parses l -> fold_right and True (map serializable l) -> l <> [] ->
  forall i' i w rest fuel,
    all_ws i' -> all_ws i -> all_ws w ->
    list_sum (map (fun x => S (size x)) l) <= fuel ->
    parse_elements fuel
      (w ++ String.concat ("," ++ str1 LF ++ i')
              (map (SerializeJSONProperty i') l)
         ++ str1 LF ++ i ++ "]" ++ rest)
    = Some (l, rest).
Proof.
  induction l as [|v l IH]; intros P S N i' i w rest fuel I' I W F;
    [now elim N|].
  inversion P as [|? ? Pv Pl]; subst. cbn [map fold_right] in S.
  destruct S as [Sv Sl]. cbn [map list_sum fold_right] in F.
  destruct fuel as [|fuel]; [lia|].
  destruct l as [|v2 l].
  - cbn [map String.concat]. cbn [parse_elements].
    rewrite (Pv Sv i' w _ fuel I' W); [| reflexivity | lia].
    rewrite (skip_ws_line i ("]" ++ rest) I). reflexivity.
  - cbn [map]. rewrite concat_cons2, !append_assoc. cbn [parse_elements].
    rewrite (Pv Sv i' w _ fuel I' W); [| reflexivity | lia].
    cbn [append skip_ws]. change (is_json_ws ",") with false. cbv iota.
    change (is_char 44 ",") with true. cbv iota.
    specialize (IH Pl Sl ltac:(discriminate) i' i (str1 LF ++ i') rest fuel
                  I' I (all_ws_LF _ I')).
    cbn [map] in IH. rewrite !append_assoc in IH. cbn [append] in IH.
    rewrite IH; [reflexivity|]. cbn [map list_sum fold_right] in F |- *. lia.
Qed.

Lemma parse_value_array (f : nat) (r : string) (c' : ascii) (r' : string) :
  skip_ws r = String c' r' -> is_char 93 c' = false ->
  parse_value (S f) (String "[" r)
  = match parse_elements f r with
    | Some (vs, rest) => Some (JArray vs, rest)
    | None => None
    end.
Proof.
  intros H1 H2. cbn [parse_value].
  change (skip_ws (String "[" r)) with (String "[" r). cbv iota.
  change (is_char 123 "[") with false. change (is_char 91 "[") with true.
  cbv iota. now rewrite H1, H2.
Qed.

Lemma parse_value_object (f : nat) (r : string) (c' : ascii) (r' : string) :
  skip_ws r = String c' r' -> is_char 125 c' = false ->
  parse_value (S f) (String "{" r)
  = match parse_members f r with
    | Some (ms, rest) => Some (JObject (object_of_entries ms), rest)
    | None => None
    end.
Proof.
  intros H1 H2. cbn [parse_value].
  change (skip_ws (String "{" r)) with (String "{" r). cbv iota.
  change (is_char 123 "{") with true.
  cbv iota. now rewrite H1, H2.
Qed.

Lemma parse_members_step (f : nat) (w k t : string) :
  all_ws w ->
  parse_members (S f)
    (w ++ QuoteJSONString k ++ ": " ++ t)
  = match parse_value f (" " ++ t) with
    | Some (v, rest') =>
        match skip_ws rest' with
        | String c' r'' =>
            if is_char 44 c' then
              match parse_members f r'' with
              | Some (ms, rest'') => Some ((k, v) :: ms, rest'')
              | None => None
              end
            else if is_char 125 c' then Some ([(k, v)], r'')
            else None
        | EmptyString => None
        end
    | None => None
    end.
Proof.
  intros W. cbn [parse_members]. rewrite (skip_ws_app w _ W).
  unfold QuoteJSONString, str1. rewrite !append_assoc. cbn [append].
  change (skip_ws (String DQUOTE ?x)) with (String DQUOTE x).
  cbn [skip_ws]. change (is_json_ws DQUOTE) with false. cbv iota.
  rewrite Ascii.eqb_refl. rewrite parse_string_printed.
  cbn [skip_ws]. change (is_json_ws ":") with false. cbv iota.
  change (is_char 58 ":") with true. cbv iota. reflexivity.
Qed.

Lemma parse_members_printed (ms : list (string * json)) :
  Forall (fun kv => parses (snd kv)) ms ->
  fold_right and True (map (fun kv => serializable (snd kv)) ms) ->
  ms <> [] ->
  forall i' i w rest fuel,
    all_ws i' -> all_ws i -> all_ws w ->
    list_sum (map (fun kv => S (size (snd kv))) ms) <= fuel ->
    parse_members fuel
      (w ++ String.concat ("," ++ str1 LF ++ i')
              (map (fun kv : string * json =>
                      let (k, x) := kv in
                      QuoteJSONString k ++ ": "
                      ++ SerializeJSONProperty i' x) ms)
         ++ str1 LF ++ i ++ "}" ++ rest)
    = Some (ms, rest).
Proof.
  induction ms as [|[k v] ms IH]; intros P S N i' i w rest fuel I' I W F;
    [now elim N|].
  inversion P as [|? ? Pv Pl]; subst. cbn [map fold_right snd] in S, Pv.
  destruct S as [Sv Sl]. cbn [map list_sum fold_right snd] in F.
  destruct fuel as [|fuel]; [lia|].
  destruct ms as [|kv2 ms].
  - cbn [map String.concat]. rewrite !append_assoc.
    rewrite (parse_members_step fuel w k _ W).
    rewrite (Pv Sv i' " " _ fuel I' eq_refl); [| reflexivity | lia].
    rewrite (skip_ws_line i ("}" ++ rest) I). reflexivity.
  - cbn [map]. rewrite concat_cons2, !append_assoc.
    rewrite (parse_members_step fuel w k _ W).
    rewrite (Pv Sv i' " " _ fuel I' eq_refl); [| reflexivity | lia].
    cbn [append skip_ws]. change (is_json_ws ",") with false. cbv iota.
    change (is_char 44 ",") with true. cbv iota.
    specialize (IH Pl Sl ltac:(discriminate) i' i (str1 LF ++ i') rest fuel
                  I' I (all_ws_LF _ I')).
    cbn [map] in IH. rewrite !append_assoc in IH. cbn [append] in IH.
    rewrite IH; [reflexivity|]. cbn [map list_sum fold_right] in F |- *. lia.
Qed.

Lemma concat_head (sep x : string) (l : list string) :
  exists t, String.concat sep (x :: l) = x ++ t.
Proof.
  destruct l as [|y l]; [exists ""; cbn; now rewrite append_nil_r|].
  now exists (sep ++ String.concat sep (y :: l)).
Qed.

Lemma skip_ws_to_value (w i : string) (v : json) (t : string) :
  all_ws w ->
  exists c r, skip_ws (w ++ SerializeJSONProperty i v ++ t) = String c r
              /\ is_char 93 c = false.
Proof.
  intros W. rewrite (skip_ws_app w _ W).
  destruct (printed_head i v) as [c [r [-> [C1 C2]]]].
  exists c, (r ++ t). cbn [append]. now rewrite (skip_ws_start c _ C1).
Qed.

(** Every serializable value is parsed back from its printed form. *)
Lemma parse_value_printed (v : json) : parses v.
Proof.
  induction v as [| b | n | s | l IHl | ms IHms] using json_induction;
    intros S indent w rest fuel I W E F;
    (destruct fuel as [|fuel]; [cbn [size] in F; lia|]);
    rewrite (parse_value_skip _ w _ W).
  - reflexivity.
  - destruct b; reflexivity.
  - cbn [SerializeJSONProperty].
    destruct (NumberToString_head n) as [c [r [H C]]].
    pose proof (parse_number_printed n rest E) as Q. rewrite H in *.
    cbn [append] in *. now rewrite (parse_value_number fuel c _ C), Q.
  - apply parse_value_string.
  - destruct l as [|x l]; [reflexivity|].
    assert (E1 : SerializeJSONProperty indent (JArray (x :: l)) ++ rest
                 = String "["
                     ((str1 LF ++ indent ++ gap)
                      ++ String.concat ("," ++ str1 LF ++ indent ++ gap)
                           (map (SerializeJSONProperty (indent ++ gap))
                              (x :: l))
                      ++ str1 LF ++ indent ++ "]" ++ rest)).
    { cbn [SerializeJSONProperty]. now rewrite !append_assoc. }
    rewrite E1. clear E1.
    pose proof (all_ws_LF _ (all_ws_gap _ I)) as W'.
    assert (K : exists c r,
               skip_ws ((str1 LF ++ indent ++ gap)
                        ++ String.concat ("," ++ str1 LF ++ indent ++ gap)
                             (map (SerializeJSONProperty (indent ++ gap))
                                (x :: l))
                        ++ str1 LF ++ indent ++ "]" ++ rest) = String c r
               /\ is_char 93 c = false).
    { cbn [map].
      destruct (concat_head ("," ++ str1 LF ++ indent ++ gap)
                  (SerializeJSONProperty (indent ++ gap) x)
                  (map (SerializeJSONProperty (indent ++ gap)) l)) as [t ->].
      rewrite (append_assoc (SerializeJSONProperty (indent ++ gap) x)).
      now apply skip_ws_to_value. }
    destruct K as [c [r [K1 K2]]].
    rewrite (parse_value_array fuel _ c r K1 K2).
    rewrite (parse_elements_printed (x :: l) IHl S ltac:(discriminate)
               (indent ++ gap) indent (str1 LF ++ indent ++ gap) rest fuel);
      [reflexivity | now apply all_ws_gap | exact I | exact W'
      | cbn [size] in F; lia].
  - destruct ms as [|[k x] ms]; [reflexivity|].
    assert (E1 : SerializeJSONProperty indent (JObject ((k, x) :: ms)) ++ rest
                 = String "{"
                     ((str1 LF ++ indent ++ gap)
                      ++ String.concat ("," ++ str1 LF ++ indent ++ gap)
                           (map (fun kv : string * json =>
                                   let (k, x) := kv in
                                   QuoteJSONString k ++ ": "
                                   ++ SerializeJSONProperty (indent ++ gap) x)
                              ((k, x) :: ms))
                      ++ str1 LF ++ indent ++ "}" ++ rest)).
    { cbn [SerializeJSONProperty]. now rewrite !append_assoc. }
    rewrite E1. clear E1.
    pose proof (all_ws_LF _ (all_ws_gap _ I)) as W'.
    destruct S as [O S].
    assert (K : exists r,
               skip_ws ((str1 LF ++ indent ++ gap)
                        ++ String.concat ("," ++ str1 LF ++ indent ++ gap)
                             (map (fun kv : string * json =>
                                     let (k, x) := kv in
                                     QuoteJSONString k ++ ": "
                                     ++ SerializeJSONProperty (indent ++ gap) x)
                                ((k, x) :: ms))
                        ++ str1 LF ++ indent ++ "}" ++ rest)
               = String DQUOTE r).
    { cbn [map]. rewrite (skip_ws_app _ _ W').
      match goal with
      | |- context [String.concat ?sep (?h :: ?l)] =>
          destruct (concat_head sep h l) as [t ->]
      end.
      unfold QuoteJSONString, str1. rewrite !append_assoc. cbn [append].
      eexists. now apply skip_ws_start. }
    destruct K as [r K].
    rewrite (parse_value_object fuel _ DQUOTE r K eq_refl).
    rewrite (parse_members_printed ((k, x) :: ms) IHms S ltac:(discriminate)
               (indent ++ gap) indent (str1 LF ++ indent ++ gap) rest fuel);
      [now rewrite O | now apply all_ws_gap | exact I | exact W'
      | cbn [size] in F; lia].
Qed.

Lemma sizes_le_concat (sep : string) (f : json -> string) (l : list json) :
  1 <= String.length sep ->
  Forall (fun v => size v <= String.length (f v)) l ->
  list_sum (map (fun x => S (size x)) l)
  <= String.length (String.concat sep (map f l)) + 1.
Proof.
  intros Hs H. induction H as [|x l Hx Hl IH]; [cbn; lia|].
  destruct l as [|y l].
  - cbn [map list_sum fold_right String.concat]. lia.
  - cbn [map] in *. rewrite concat_cons2, !append_length.
    cbn [list_sum fold_right] in *. lia.
Qed.

Lemma member_sizes_le_concat (sep : string) (f : string * json -> string)
  (l : list (string * json)) :
  1 <= String.length sep ->
  Forall (fun kv => size (snd kv) <= String.length (f kv)) l ->
  list_sum (map (fun kv => S (size (snd kv))) l)
  <= String.length (String.concat sep (map f l)) + 1.
Proof.
  intros Hs H. induction H as [|x l Hx Hl IH]; [cbn; lia|].
  destruct l as [|y l].
  - cbn [map list_sum fold_right String.concat]. lia.
  - cbn [map] in *. rewrite concat_cons2, !append_length.
    cbn [list_sum fold_right] in *. lia.
Qed.

(** The fuel [JSON_parse] takes is enough for a printed value. *)
Lemma size_le_length (v : json) (i : string) :
  size v <= String.length (SerializeJSONProperty i v).
Proof.
  revert i.
  induction v as [| b | n | s | l IHl | ms IHms] using json_induction;
    intros i.
  - cbn. lia.
  - destruct b; cbn; lia.
  - cbn [SerializeJSONProperty size].
    destruct (NumberToString_head n) as [c [r [-> _]]]. cbn. lia.
  - cbn [SerializeJSONProperty size]. unfold QuoteJSONString.
    rewrite append_length. cbn. lia.
  - destruct l as [|x l]; [cbn; lia|].
    cbn [SerializeJSONProperty size]. rewrite !append_length.
    pose proof (sizes_le_concat ("," ++ str1 LF ++ i ++ gap)
                  (SerializeJSONProperty (i ++ gap)) (x :: l)) as Q.
    cbn [String.length append] in *.
    assert (F : Forall (fun v => size v
                          <= String.length (SerializeJSONProperty (i ++ gap) v))
                  (x :: l)).
    { eapply Forall_impl; [|exact IHl]. intros a Ha. apply Ha. }
    specialize (Q ltac:(lia) F). lia.
  - destruct ms as [|kx ms]; [cbn; lia|].
    cbn [SerializeJSONProperty size]. rewrite !append_length.
    pose proof (member_sizes_le_concat ("," ++ str1 LF ++ i ++ gap)
                  (fun kv : string * json =>
                     let (k, x) := kv in
                     QuoteJSONString k ++ ": "
                     ++ SerializeJSONProperty (i ++ gap) x) (kx :: ms)) as Q.
    cbn [String.length append] in *.
    assert (F : Forall (fun kv : string * json =>
                          size (snd kv)
                          <= String.length
                               (let (k, x) := kv in
                                QuoteJSONString k ++ ": "
                                ++ SerializeJSONProperty (i ++ gap) x))
                  (kx :: ms)).
    { eapply Forall_impl; [|exact IHms]. intros [k x] Ha. cbn [snd] in *.
      rewrite !append_length. specialize (Ha (i ++ gap)). lia. }
    specialize (Q ltac:(lia) F). lia.
Qed.

(** [JSON.parse(JSON.stringify(v, null, 2))] is [v]. *)
Theorem JSON_parse_stringify (v : json) :
  serializable v -> JSON_parse (JSON_stringify v) = Normal v.
Proof.
  intros S. unfold JSON_parse, JSON_stringify.
  pose proof (parse_value_printed v S "" "" ""
                (2 * String.length (SerializeJSONProperty "" v) + 2)
                eq_refl eq_refl eq_refl) as P.
  cbn [append] in P. rewrite append_nil_r in P.
  rewrite P; [reflexivity|].
  pose proof (size_le_length v ""). lia.
Qed.

(** ** The codec *)
Section Codec_properties.
Variable MAGIC : string.

(** [parseComment] on a text that ends in a rendered block. *)
Lemma parseComment_rendered (x : string) (p : json) :
  marker_ok MAGIC = true -> includes MAGIC x = false -> serializable p ->
  parseComment MAGIC
    (x ++ "<!-- " ++ MAGIC ++ JSON_stringify p ++ MAGIC ++ " -->")
  = Normal (if truthy p then Some {| data := p; comment := x |} else None).
Proof.
  intros M I S. unfold parseComment.
  rewrite (PARSE_REGEX_rendered MAGIC M x _ I). cbn [data_group before after].
  rewrite (JSON_parse_stringify p S). cbn [Try].
  rewrite append_nil_r. now destruct (truthy p).
Qed.

Lemma renderComment_eq (c : parsed) :
  renderComment MAGIC c
  = (comment c ++ separator (comment c))
    ++ "<!-- " ++ MAGIC ++ JSON_stringify (data c) ++ MAGIC ++ " -->".
Proof. unfold renderComment, separator. now rewrite append_assoc. Qed.

Lemma includes_separator (env : string) :
  marker_ok MAGIC = true -> includes MAGIC env = false ->
  includes MAGIC (env ++ separator env) = false.
Proof.
  intros M I. unfold separator.
  destruct ((String.length env =? 0)%nat || ends_with_space env);
    [now rewrite append_nil_r|].
  apply includes_false. intros a b E.
  apply append_eq_append in E as [[e [E ->]] | [e [-> E]]].
  - exact (MAGIC_not_in_front MAGIC M env LF "" I eq_refl a e E).
  - destruct e as [|c [|c' e]]; cbn in E; try discriminate.
    + subst b. now apply MAGIC_not_at.
    + injection E as _ <-. now apply MAGIC_not_empty.
Qed.

Lemma parseComment_renderComment (env : string) (p : json) :
  marker_ok MAGIC = true -> includes MAGIC env = false -> serializable p ->
  parseComment MAGIC (renderComment MAGIC {| data := p; comment := env |})
  = Normal (if truthy p
            then Some {| data := p; comment := env ++ separator env |}
            else None).
Proof.
  intros M I S. rewrite renderComment_eq. cbn [comment data].
  apply parseComment_rendered; [exact M | now apply includes_separator | exact S].
Qed.

(** C1, as amended. For every payload [p] of the embedding that
    [JSON.stringify] prints and every envelope [env] that does not contain
    the marker: when [p] is truthy (every object and every array is),
    decoding the encoded text yields the payload [p], and the envelope
    [env] followed by the line feed that encoding inserted, none when [env]
    is empty or ends in white space, in which case the envelope comes back
    exactly; when [p] is falsy ([null], [false], 0, the empty string),
    decoding the encoded text yields nothing. *)
Theorem codec_round_trip (env : string) (p : json) :
  marker_ok MAGIC = true -> includes MAGIC env = false ->
  serializable p ->
  (truthy p = true ->
   parseComment MAGIC (renderComment MAGIC {| data := p; comment := env |})
   = Normal (Some {| data := p;
                     comment :=
                       env ++ (if (String.length env =? 0)%nat
                                  || ends_with_space env
                               then "" else str1 LF) |}))
  /\ (truthy p = true ->
      (String.length env =? 0)%nat || ends_with_space env = true ->
      parseComment MAGIC (renderComment MAGIC {| data := p; comment := env |})
      = Normal (Some {| data := p; comment := env |}))
  /\ (truthy p = false ->
      parseComment MAGIC (renderComment MAGIC {| data := p; comment := env |})
      = Normal None).
Proof.
  intros M I S.
  pose proof (parseComment_renderComment env p M I S) as R.
  unfold separator in R. split; [|split].
  - intros T. now rewrite T in R.
  - intros T E. rewrite T, E in R. now rewrite append_nil_r in R.
  - intros T. now rewrite T in R.
Qed.

(** C7. Encoding the payload of the scenario with the envelope [Summary]
    and a line feed, then decoding the result, yields that payload and that
    envelope: for every marker that the envelope does not contain. *)
Theorem scenario_round_trip :
  marker_ok MAGIC = true ->
  includes MAGIC ("Summary" ++ str1 LF) = false ->
  parseComment MAGIC
    (renderComment MAGIC
       {| data := scenario_payload; comment := "Summary" ++ str1 LF |})
  = Normal (Some {| data := scenario_payload;
                    comment := "Summary" ++ str1 LF |}).
Proof.
  intros M I.
  rewrite (parseComment_renderComment _ scenario_payload M I).
  - reflexivity.
  - cbn. repeat split; lia.
Qed.

(** C8. With an empty envelope the rendered text is the block alone: it
    starts with the comment opener, and no line feed comes before it. *)
Theorem renderComment_empty_envelope (p : json) :
  renderComment MAGIC {| data := p; comment := "" |}
  = "<!-- " ++ MAGIC ++ JSON_stringify p ++ MAGIC ++ " -->".
Proof. reflexivity. Qed.

(** C5. [parseComment] ends normally on every text; it returns
    [undefined] when the text does not hold the marker twice, and when the
    text between the markers that the pattern matched is no JSON. *)
Theorem parseComment_never_throws (c : string) :
  exists r,
    parseComment MAGIC c = Normal r
    /\ ((forall a b d, c <> a ++ MAGIC ++ b ++ MAGIC ++ d) -> r = None)
    /\ (forall g e,
          PARSE_REGEX MAGIC c = Some g ->
          JSON_parse (data_group g) = Throw e -> r = None).
Proof.
  unfold parseComment. destruct (PARSE_REGEX MAGIC c) as [g|] eqn:P.
  - destruct (JSON_parse (data_group g)) as [j|e|] eqn:J; cbn [Try].
    + exists (if negb (truthy j) then None
              else Some {| data := j;
                           comment := before g ++ after g |}).
      split; [now destruct (truthy j)|]. split.
      * intros N. apply PARSE_REGEX_Some in P as [o [cl [E _]]].
        exfalso. apply (N (before g ++ o) (data_group g) (cl ++ after g)).
        now rewrite !append_assoc.
      * intros g' e' G' J'. injection G' as <-. congruence.
    + exists None. auto.
    + exists None. auto.
  - exists None. auto.
Qed.
End Codec_properties.

(** ** Persisting *)
Section Persist_properties.
Variable MAGIC : string.
Variable Presentation_serialize : list Comment -> json.

(** What [parseComment] returns, in terms of the text. *)
Lemma parseComment_Some (c : string) (p : parsed) :
  parseComment MAGIC c = Normal (Some p) ->
  exists b o d cl a,
    c = b ++ o ++ MAGIC ++ d ++ MAGIC ++ cl ++ a
    /\ comment_opener o /\ comment_closer cl
    /\ comment p = b ++ a /\ JSON_parse d = Normal (data p).
Proof.
  unfold parseComment. destruct (PARSE_REGEX MAGIC c) as [g|] eqn:P;
    [|discriminate].
  destruct (JSON_parse (data_group g)) as [j|e|] eqn:J; cbn [Try];
    try discriminate.
  destruct (truthy j); cbn [negb]; [|discriminate].
  intros H. injection H as <-. cbn [comment data].
  apply PARSE_REGEX_Some in P as [o [cl [E [O C]]]].
  exists (before g), o, (data_group g), cl, (after g). auto.
Qed.

End Persist_properties.

(** *** Persisting twice *)
Lemma ends_with_space_snoc (a : string) (c : ascii) :
  ends_with_space (a ++ str1 c) = is_space c.
Proof.
  induction a as [|x a IH]; [reflexivity|].
  cbn [append ends_with_space]. rewrite IH.
  destruct a; reflexivity.
Qed.

(** After its separator an envelope needs no other. *)
Lemma separator_idempotent (env : string) :
  separator (env ++ separator env) = "".
Proof.
  unfold separator at 2.
  destruct ((String.length env =? 0)%nat || ends_with_space env) eqn:E.
  - rewrite append_nil_r. unfold separator. now rewrite E.
  - unfold separator. rewrite ends_with_space_snoc.
    change (is_space LF) with true. now rewrite orb_true_r.
Qed.

Section Persist_twice.
Variable MAGIC : string.
Variable Presentation_serialize : list Comment -> json.

(** What [App.persist] has written, [parseComment] reads back: the
    exported payload, and the envelope with its separator. Persisting again
    then writes the same text: the envelope does not grow. *)
Theorem persist_then_parseComment (s : App) :
  marker_ok MAGIC = true ->
  includes MAGIC (envelope_of MAGIC (issue_body s)) = false ->
  serializable (App_export Presentation_serialize s) ->
  truthy (App_export Presentation_serialize s) = true ->
  let envelope := envelope_of MAGIC (issue_body s) in
  let s' := snd (App_persist MAGIC Presentation_serialize s) in
  parseComment MAGIC (issue_body s')
  = Normal (Some {| data := App_export Presentation_serialize s;
                    comment := envelope ++ separator envelope |})
  /\ App_persist MAGIC Presentation_serialize s' = (Normal tt, s').
Proof.
  intros M I S T envelope s'.
  assert (B : issue_body s'
              = renderComment MAGIC
                  {| data := App_export Presentation_serialize s;
                     comment := envelope |}).
  { unfold s', App_persist, persist_text, envelope, envelope_of.
    cbn [snd issue_body set_issue_body].
    now destruct (parseComment MAGIC (issue_body s)) as [[p|]|e|]. }
  assert (P : parseComment MAGIC (issue_body s')
              = Normal (Some {| data := App_export Presentation_serialize s;
                                comment := envelope ++ separator envelope |})).
  { rewrite B, (parseComment_renderComment MAGIC envelope _ M I S).
    now rewrite T. }
  split; [exact P|].
  unfold App_persist at 1, persist_text. rewrite P.
  cbn [comment]. f_equal.
  assert (X : App_export Presentation_serialize s'
              = App_export Presentation_serialize s) by reflexivity.
  rewrite X. rewrite renderComment_eq. cbn [comment data].
  rewrite separator_idempotent, append_nil_r.
  rewrite renderComment_eq in B. cbn [comment data] in B. rewrite <- B.
  now destruct s'.
Qed.
End Persist_twice.

(** ** The id scan *)

(** *** [parseInt] on a number *)
Lemma radix_digits_decimal (d : uint) (acc : positive) :
  radix_digits 10 (Some (Z.pos acc)) (NilEmpty.string_of_uint d)
  = Some (Z.pos (Pos.of_uint_acc d acc)).
Proof.
  revert acc. induction d; intros acc;
    cbn [NilEmpty.string_of_uint radix_digits Pos.of_uint_acc];
    [reflexivity | ..];
    match goal with
    | |- context [hex_value ?c] =>
        let v := eval vm_compute in (hex_value c) in
        change (hex_value c) with v
    end;
    cbv iota; change (_ <? 10)%nat with true; cbv iota;
    rewrite <- IHd; f_equal; f_equal; lia.
Qed.

Lemma parseInt_string_uint (u : uint) :
  u <> Nil -> (forall d, u <> D0 d) ->
  parseInt_string (NilEmpty.string_of_uint u) = Some (Z.of_N (Pos.of_uint u)).
Proof.
  intros N Z0.
  destruct u as [|d|d|d|d|d|d|d|d|d|d];
    [now elim N | now elim (Z0 d) | ..];
    unfold parseInt_string; cbn [NilEmpty.string_of_uint trim_start];
    match goal with
    | |- context [is_space ?c] => change (is_space c) with false
    end; cbv iota;
    match goal with
    | |- context [is_hyphen ?c] => change (is_hyphen c) with false
    end; cbv iota;
    match goal with
    | |- context [is_char 43 ?c] => change (is_char 43 c) with false
    end; cbv iota;
    (destruct (NilEmpty.string_of_uint d) as [|x r] eqn:S;
     [ destruct d; try discriminate S; reflexivity
     | match goal with
       | |- context [is_char 48 ?c] => change (is_char 48 c) with false
       end; cbn [andb]; cbv iota beta; rewrite <- S;
       cbn [radix_digits];
       match goal with
       | |- context [hex_value ?c] =>
           let v := eval vm_compute in (hex_value c) in
           change (hex_value c) with v
       end;
       cbv iota; change (_ <? 10)%nat with true; cbv iota;
       cbn [Z.mul Z.add Z.of_nat Pos.of_succ_nat Pos.succ];
       rewrite radix_digits_decimal; reflexivity ]).
Qed.

Lemma parseInt_JNumber (n : Z) : parseInt (JNumber n) = Some n.
Proof.
  unfold parseInt. cbn [ToString]. unfold NumberToString.
  destruct n as [|p|p]; cbn [Z.to_int NilEmpty.string_of_int].
  - reflexivity.
  - rewrite parseInt_string_uint.
    + now rewrite Unsigned.of_to.
    + apply Unsigned.to_uint_nonnil.
    + apply to_uint_no_leading_zero.
  - pose proof (parseInt_string_uint (Pos.to_uint p)
                  (Unsigned.to_uint_nonnil p)
                  (to_uint_no_leading_zero p)) as Q.
    rewrite Unsigned.of_to in Q. unfold parseInt_string in *.
    cbn [trim_start]. change (is_space "-") with false. cbv iota.
    change (is_hyphen "-") with true. cbv iota.
    destruct (NilEmpty.string_of_uint (Pos.to_uint p)) as [|c r] eqn:S.
    + discriminate Q.
    + assert (C : is_space c = false /\ is_hyphen c = false
                  /\ is_char 43 c = false).
      { destruct (Pos.to_uint p); cbn [NilEmpty.string_of_uint] in S;
          try discriminate S; injection S as <- _; auto. }
      destruct C as [C1 [C2 C3]]. cbn [trim_start] in Q.
      rewrite C1, C2, C3 in Q.
      destruct (match String c r with
                | String z (String x s') =>
                    if is_char 48 z && (is_char 120 x || is_char 88 x)
                    then (16, s') else (10, String c r)
                | _ => (10, String c r)
                end) as [R s'].
      destruct (radix_digits R None s'); [|discriminate].
      injection Q as Q. destruct z; inversion Q. reflexivity.
Qed.

(** *** Sorting and the first element *)
Lemma insert_sorted_head (x m : Z) (t : list (option Z)) :
  exists t', insert_sorted (Some x) (Some m :: t) = Some (Z.max m x) :: t'.
Proof.
  cbn [insert_sorted compare_desc]. destruct (m - x <? 0)%Z eqn:C.
  - exists (Some m :: t). f_equal. f_equal. lia.
  - exists (insert_sorted (Some x) t). f_equal. f_equal. lia.
Qed.

Lemma sort_desc_head (l : list Z) (m : Z) (t : list (option Z)) :
  exists t',
    fold_left (fun sorted x => insert_sorted x sorted) (map Some l)
      (Some m :: t)
    = Some (fold_left Z.max l m) :: t'.
Proof.
  revert m t. induction l as [|x l IH]; intros m t; cbn [map fold_left].
  - now exists t.
  - destruct (insert_sorted_head x m t) as [t' ->]. apply IH.
Qed.

Lemma first_sort_desc (l : list Z) :
  first (sort_desc (toArray (map Some l)))
  = match maximum l with
    | Some m => Some (Some m)
    | None => None
    end.
Proof.
  unfold sort_desc, toArray, maximum. destruct l as [|x l]; [reflexivity|].
  cbn [map fold_left insert_sorted].
  now destruct (sort_desc_head l x []) as [t' ->].
Qed.

Lemma maximum_In (l : list Z) (m : Z) : maximum l = Some m -> In m l.
Proof.
  unfold maximum. destruct l as [|x l]; [discriminate|].
  intros H. injection H as <-. revert x.
  induction l as [|y l IH]; intros x; cbn [fold_left].
  - now left.
  - destruct (IH (Z.max x y)) as [E|I].
    + destruct (Z.max_spec x y) as [[_ M]|[_ M]].
      * right. left. congruence.
      * left. congruence.
    + right. right. exact I.
Qed.

(** *** The scan on a payload it can handle *)
Lemma flatMap_Normal (f : json -> completion json) (g : json -> list Z)
  (l : list json) :
  Forall (fun x => exists r, f x = Normal r /\ flat1 r = map JNumber (g x)) l ->
  flatMap f l = Normal (map JNumber (concat (map g l))).
Proof.
  induction 1 as [|x l [r [Fx Rx]] Hl IH]; [reflexivity|].
  cbn [flatMap map concat] in *. rewrite Fx. cbn [bind].
  fold (flatMap f l). rewrite IH. cbn [bind]. now rewrite Rx, map_app.
Qed.

Lemma flatMap_values_Normal (f : json -> completion json) (g : json -> list Z)
  (ms : list (string * json)) :
  Forall (fun kv => exists r, f (snd kv) = Normal r
                              /\ flat1 r = map JNumber (g (snd kv))) ms ->
  flatMap_values f ms
  = Normal (map JNumber (concat (map (fun kv => g (snd kv)) ms))).
Proof.
  induction 1 as [|[k x] ms [r [Fx Rx]] Hl IH]; [reflexivity|].
  cbn [flatMap_values map concat snd] in *. rewrite Fx. cbn [bind].
  fold (flatMap_values f ms). rewrite IH. cbn [bind]. now rewrite Rx, map_app.
Qed.

Lemma forallb_Forall_scanned (l : list json) :
  Forall scanned l -> forallb well_scanned l = true ->
  Forall (fun x => exists r, getAllIds x = Normal r
                             /\ flat1 r = map JNumber (outermost_ids x)) l
  /\ Forall (fun x => exists r, getAllIds_callback getAllIds x = Normal r
                                /\ flat1 r = map JNumber (outermost_ids x)) l.
Proof.
  induction 1 as [|x l Hx Hl IH]; intros W; [split; constructor|].
  cbn [forallb] in W. apply andb_true_iff in W as [Wx Wl].
  destruct (IH Wl) as [I1 I2]. destruct (Hx Wx) as [[r [G [F1 _]]] [r' [C F2]]].
  split; constructor; eauto.
Qed.

Lemma forallb_Forall_scanned_values (ms : list (string * json)) :
  Forall (fun kv => scanned (snd kv)) ms ->
  forallb (fun kv => well_scanned (snd kv)) ms = true ->
  Forall (fun kv => exists r, getAllIds_callback getAllIds (snd kv) = Normal r
                              /\ flat1 r = map JNumber (outermost_ids (snd kv)))
    ms.
Proof.
  induction 1 as [|x l Hx Hl IH]; intros W; [constructor|].
  cbn [forallb] in W. apply andb_true_iff in W as [Wx Wl].
  destruct (Hx Wx) as [_ [r' [C F2]]]. constructor; eauto.
Qed.

Lemma getAllIds_members (ms : list (string * json)) :
  Forall (fun kv => scanned (snd kv)) ms ->
  forallb (fun kv => well_scanned (snd kv)) ms = true ->
  (rs <- flatMap_values (getAllIds_callback getAllIds) ms ;; Normal (JArray rs))
  = Normal (JArray (map JNumber
                      (concat (map (fun kv => outermost_ids (snd kv)) ms)))).
Proof.
  intros H W.
  rewrite (flatMap_values_Normal _ outermost_ids ms
             (forallb_Forall_scanned_values ms H W)).
  reflexivity.
Qed.

Lemma scan_spec (v : json) : scanned v.
Proof.
  induction v as [| b | n | s | l IHl | ms IHms] using json_induction;
    intros W; try discriminate W;
    try (split; eexists; (split; [reflexivity | auto])).
  - (* an array *)
    cbn [well_scanned] in W.
    destruct (forallb_Forall_scanned l IHl W) as [F1 F2].
    cbn [getAllIds getAllIds_callback id_of outermost_ids].
    rewrite (flatMap_Normal _ outermost_ids l F1).
    rewrite (flatMap_Normal _ outermost_ids l F2).
    cbn [bind]. split; eexists; (split; [reflexivity | auto]).
  - (* an object *)
    assert (G : exists r, getAllIds (JObject ms) = Normal r
                /\ flat1 r = map JNumber (outermost_ids (JObject ms))
                /\ (has_id (JObject ms) = false ->
                    r = JArray (map JNumber (outermost_ids (JObject ms))))).
    { cbn [well_scanned] in W. unfold has_id.
      cbn [getAllIds id_of outermost_ids].
      destruct (lookup "id" ms) as [[| b | n | s | l | ms']|] eqn:L;
        cbn [truthy negb andb] in *;
        try (rewrite (getAllIds_members ms IHms W); eauto);
        try discriminate W.
      - destruct b; [discriminate W|]. cbn [andb] in W.
        rewrite (getAllIds_members ms IHms W); eauto.
      - destruct (n =? 0)%Z eqn:Z0; cbn [negb].
        + rewrite (getAllIds_members ms IHms W); eauto.
        + eexists. split; [reflexivity|]. split; [reflexivity|discriminate].
      - destruct (s =? "")%string; cbn [negb andb] in *; [|discriminate W].
        rewrite (getAllIds_members ms IHms W); eauto. }
    split; [exact G|]. destruct G as [r [G [F _]]]. exists r. now split.
Qed.

(** [maxId] on a payload the scan can handle, without an id of its own:
    the greatest of the ids the scan reaches, or 1 if it reaches none. *)
Lemma outermost_ids_nonzero (v : json) :
  Forall (fun n => n <> 0%Z) (outermost_ids v).
Proof.
  induction v as [| b | n | s | l IHl | ms IHms] using json_induction;
    cbn [outermost_ids]; try constructor.
  - apply Forall_concat. now apply Forall_map.
  - assert (C : Forall (fun n => n <> 0%Z)
                  (concat (map (fun kv => outermost_ids (snd kv)) ms))).
    { apply Forall_concat. now apply Forall_map. }
    destruct (lookup "id" ms) as [[| b | n | s | l | ms']|]; auto.
    destruct (n =? 0)%Z eqn:Z0; auto. constructor; [lia | constructor].
Qed.

Lemma maxId_well_scanned (data : json) :
  well_scanned data = true -> has_id data = false ->
  maxId data = Normal (match maximum (outermost_ids data) with
                       | Some m => m
                       | None => 1%Z
                       end).
Proof.
  intros W H. destruct (scan_spec data W) as [[r [G [_ R]]] _].
  unfold maxId. rewrite G, (R H). cbn [bind].
  rewrite map_map.
  rewrite (map_ext (fun x => parseInt (JNumber x)) Some parseInt_JNumber).
  rewrite first_sort_desc.
  destruct (maximum (outermost_ids data)) as [m|] eqn:M; [|reflexivity].
  apply maximum_In in M. pose proof (outermost_ids_nonzero data) as N.
  rewrite Forall_forall in N. specialize (N m M).
  destruct (Z.eqb_spec m 0); [contradiction | reflexivity].
Qed.

(** *** Payloads whose ids do not nest *)
Lemma concat_map_nil {A B : Type} (f : A -> list B) (l : list A) :
  Forall (fun x => f x = []) l -> concat (map f l) = [].
Proof.
  induction 1 as [|x l Hx Hl IH]; [reflexivity|].
  cbn [map concat]. now rewrite Hx, IH.
Qed.

Lemma concat_map_ext {A B : Type} (f g : A -> list B) (l : list A) :
  Forall (fun x => f x = g x) l -> concat (map f l) = concat (map g l).
Proof.
  induction 1 as [|x l Hx Hl IH]; [reflexivity|].
  cbn [map concat]. now rewrite Hx, IH.
Qed.

(** On such a payload the scan reaches every id. *)
Lemma spec_all_ids_unnested (v : json) :
  ids_unnested v = true -> spec_all_ids v = outermost_ids v.
Proof.
  induction v as [| b | n | s | l IHl | ms IHms] using json_induction;
    cbn [ids_unnested spec_all_ids outermost_ids]; try reflexivity.
  - intros U. apply concat_map_ext. rewrite forallb_forall in U.
    rewrite Forall_forall in *. intros x I. apply IHl; [exact I | now apply U].
  - assert (R : forallb (fun kv => ids_unnested (snd kv)) ms = true ->
                concat (map (fun kv => spec_all_ids (snd kv)) ms)
                = concat (map (fun kv => outermost_ids (snd kv)) ms)).
    { intros U. apply concat_map_ext. rewrite forallb_forall in U.
      rewrite Forall_forall in *. intros x I.
      apply IHms; [exact I | now apply U]. }
    destruct (lookup "id" ms) as [[| b | n | s | l | ms']|]; intros U;
      try (cbn [List.app]; now apply R).
    apply andb_true_iff in U as [Z0 U]. apply negb_true_iff in Z0.
    rewrite Z0. cbn [List.app]. f_equal.
    apply concat_map_nil. rewrite forallb_forall in U.
    apply Forall_forall. intros x I. specialize (U x I).
    unfold no_ids in U. now destruct (spec_all_ids (snd x)).
Qed.

(** On a payload whose ids do not nest, the seed [App.import] computes is
    the greatest id found anywhere in the payload, and 1 if there is none:
    there the scan of pull.js and the scan in the words of the spec
    agree. *)
Theorem maxId_is_greatest_id_when_unnested (data : json) :
  well_scanned data = true -> has_id data = false ->
  ids_unnested data = true ->
  maxId data = Normal (spec_seed data).
Proof.
  intros W H U. unfold spec_seed. rewrite (spec_all_ids_unnested data U).
  now apply maxId_well_scanned.
Qed.

(** *** The ids the scan collects *)
Lemma flatMap_reached (f : json -> completion json) (g : json -> list json)
  (l : list json) :
  Forall (fun x => exists r, f x = Normal r /\ flat1 r = g x) l ->
  flatMap f l = Normal (concat (map g l)).
Proof.
  induction 1 as [|x l [r [Fx Rx]] Hl IH]; [reflexivity|].
  cbn [flatMap map concat] in *. rewrite Fx. cbn [bind].
  fold (flatMap f l). rewrite IH. cbn [bind]. now rewrite Rx.
Qed.

Lemma flatMap_values_reached (f : json -> completion json)
  (g : json -> list json) (ms : list (string * json)) :
  Forall (fun kv => exists r, f (snd kv) = Normal r /\ flat1 r = g (snd kv))
    ms ->
  flatMap_values f ms = Normal (concat (map (fun kv => g (snd kv)) ms)).
Proof.
  induction 1 as [|[k x] ms [r [Fx Rx]] Hl IH]; [reflexivity|].
  cbn [flatMap_values map concat snd] in *. rewrite Fx. cbn [bind].
  fold (flatMap_values f ms). rewrite IH. cbn [bind]. now rewrite Rx.
Qed.

Lemma existsb_false_Forall {A : Type} (m : A -> bool) (P : A -> Prop)
  (l : list A) :
  Forall (fun x => m x = false -> P x) l -> existsb m l = false ->
  Forall P l.
Proof.
  induction 1 as [|x l Hx Hl IH]; intros E; [constructor|].
  cbn [existsb] in E. apply orb_false_iff in E as [Ex El].
  constructor; auto.
Qed.

Lemma scan_reaches (v : json) : reaches v.
Proof.
  induction v as [| b | n | s | l IHl | ms IHms] using json_induction;
    intros W; try discriminate W;
    try (split; eexists; (split; [reflexivity | auto])).
  - cbn [meets_null] in W.
    pose proof (existsb_false_Forall meets_null _ l IHl W) as F.
    assert (F1 : Forall (fun x => exists r, getAllIds x = Normal r
                                    /\ flat1 r = reached_ids x) l).
    { eapply Forall_impl; [|exact F]. intros x [[r [G [R _]]] _]. eauto. }
    assert (F2 : Forall (fun x => exists r,
                           getAllIds_callback getAllIds x = Normal r
                           /\ flat1 r = reached_ids x) l).
    { eapply Forall_impl; [|exact F]. intros x [_ C]. exact C. }
    cbn [getAllIds getAllIds_callback id_of reached_ids].
    rewrite (flatMap_reached _ reached_ids l F1).
    rewrite (flatMap_reached _ reached_ids l F2).
    cbn [bind]. split; eexists; (split; [reflexivity | auto]).
  - assert (M : existsb (fun kv => meets_null (snd kv)) ms = false ->
                (rs <- flatMap_values (getAllIds_callback getAllIds) ms ;;
                 Normal (JArray rs))
                = Normal (JArray
                            (concat (map (fun kv => reached_ids (snd kv))
                                       ms)))).
    { intros E.
      pose proof (existsb_false_Forall (fun kv => meets_null (snd kv)) _ ms
                    IHms E) as F.
      rewrite (flatMap_values_reached _ reached_ids ms); [reflexivity|].
      eapply Forall_impl; [|exact F]. intros x [_ C]. exact C. }
    assert (G : exists r, getAllIds (JObject ms) = Normal r
                /\ flat1 r = reached_ids (JObject ms)
                /\ (has_id (JObject ms) = false ->
                    r = JArray (reached_ids (JObject ms)))).
    { cbn [meets_null] in W. unfold has_id.
      cbn [getAllIds id_of reached_ids].
      destruct (lookup "id" ms) as [i|] eqn:L.
      - destruct (truthy i) eqn:T.
        + eexists. split; [reflexivity|]. split; [reflexivity|discriminate].
        + rewrite (M W). eauto.
      - rewrite (M W). eauto. }
    split; [exact G|]. destruct G as [r [G [F _]]]. exists r. now split.
Qed.

Lemma map_parseInt_integers (l : list json) :
  forallb (fun i => match parseInt i with
                    | Some n => safe_integer n
                    | None => false
                    end) l = true ->
  map parseInt l
  = map Some (flat_map (fun i => match parseInt i with
                                 | Some n => [n]
                                 | None => []
                                 end) l).
Proof.
  induction l as [|i l IH]; [reflexivity|]. cbn [forallb map flat_map].
  intros H. apply andb_true_iff in H as [Hi Hl].
  destruct (parseInt i) as [n|]; [|discriminate Hi].
  cbn [List.app map]. now rewrite IH.
Qed.

(** The seed on a payload without an id of its own, on which the scan
    comes to no [null] and collects integers only. *)
Lemma maxId_integers (data : json) :
  meets_null data = false -> has_id data = false ->
  ids_are_integers data = true ->
  maxId data = Normal (match maximum (integer_ids data) with
                       | Some m => if (m =? 0)%Z then 1%Z else m
                       | None => 1%Z
                       end).
Proof.
  intros W H I. destruct (scan_reaches data W) as [[r [G [_ R]]] _].
  unfold maxId. rewrite G, (R H). cbn [bind].
  rewrite (map_parseInt_integers _ I). fold (integer_ids data).
  rewrite first_sort_desc.
  now destruct (maximum (integer_ids data)).
Qed.

(** ** The application: states *)

(** A state is its fields. *)
Lemma App_eta (s : App) :
  s = {| presentation := presentation s; document := document s;
         issue_body := issue_body s; Ids_counter := Ids_counter s;
         cleanupDone_settled := cleanupDone_settled s;
         presentations_made := presentations_made s; trace := trace s |}.
Proof. now destruct s. Qed.

(** Two states with the same fields are the same. *)
Lemma App_ext (s s' : App) :
  presentation s = presentation s' -> document s = document s' ->
  issue_body s = issue_body s' -> Ids_counter s = Ids_counter s' ->
  cleanupDone_settled s = cleanupDone_settled s' ->
  presentations_made s = presentations_made s' -> trace s = trace s' ->
  s = s'.
Proof. destruct s, s'. cbn. intros. now subst. Qed.

Ltac app_fields :=
  cbn [presentation document issue_body Ids_counter cleanupDone_settled
       presentations_made trace set_presentation set_document set_issue_body
       set_Ids_counter set_cleanupDone_settled set_presentations_made
       log log_all].

Ltac app_ext :=
  apply App_ext; app_fields; rewrite <- ?List.app_assoc; try reflexivity.

Lemma log_all_nil (s : App) : log_all [] s = s.
Proof. unfold log_all. rewrite List.app_nil_r. now destruct s. Qed.

Lemma log_all_log (x : effect) (xs : list effect) (s : App) :
  log_all xs (log x s) = log_all (x :: xs) s.
Proof. app_ext. Qed.

Lemma log_log_all (x : effect) (xs : list effect) (s : App) :
  log x (log_all xs s) = log_all (xs ++ [x]) s.
Proof. app_ext. Qed.

Lemma log_all_log_all (xs ys : list effect) (s : App) :
  log_all ys (log_all xs s) = log_all (xs ++ ys) s.
Proof. app_ext. Qed.

Lemma set_document_same (s : App) : set_document (document s) s = s.
Proof. now destruct s. Qed.

Lemma forEach_modify {A : Type} (f : A -> App -> App) (l : list A) (s : App) :
  forEach l (fun x => modify (f x)) s
  = (Normal tt, fold_left (fun s x => f x s) l s).
Proof.
  revert s. induction l as [|x l IH]; intros s; [reflexivity|].
  cbn [forEach fold_left]. unfold bindM at 1. cbn [modify]. apply IH.
Qed.

Lemma fold_log {A : Type} (f : A -> effect) (l : list A) (s : App) :
  fold_left (fun s x => log (f x) s) l s = log_all (map f l) s.
Proof.
  revert s. induction l as [|x l IH]; intros s; cbn [fold_left map].
  - now rewrite log_all_nil.
  - now rewrite IH, log_all_log.
Qed.

Lemma fold_set_document {A : Type} (g : A -> list element -> list element)
  (l : list A) (s : App) :
  fold_left (fun s x => set_document (g x (document s)) s) l s
  = set_document (fold_left (fun d x => g x d) l (document s)) s.
Proof.
  revert s. induction l as [|x l IH]; intros s; cbn [fold_left].
  - now rewrite set_document_same.
  - now rewrite IH.
Qed.

Section Application_facts.
Variable MAGIC : string.
Variable Presentation_deserialize : json -> completion (list Comment).

(** [show_added] changes the document only. *)
Lemma show_added_document (l : list Comment) (s : App) :
  exists c d, forEach l (show_added MAGIC) s = (c, set_document d s).
Proof.
  revert s. induction l as [|x l IH]; intros s.
  - exists (Normal tt), (document s). cbn. now rewrite set_document_same.
  - cbn [forEach]. unfold bindM, show_added at 1.
    destruct (findVisualUI (id x) (document s)).
    + destruct (IH (set_document
                      (update_first (sel_visual_root (id x))
                         (setText (text x)) (document s)) s)) as [c [d E]].
      exists c, d. now rewrite E.
    + destruct (querySelector _ _).
      * destruct (IH (set_document
                        (insert_after (sel_diff_row (lineNo (context x)))
                           (CommentUI_rootElem MAGIC x) (document s)) s))
          as [c [d E]].
        exists c, d. now rewrite E.
      * exists (Throw TypeError), (document s). now rewrite set_document_same.
Qed.

(** What [onPresentationChange] does: calls of the side list, and a change
    of the document. *)
Lemma onPresentationChange_body_result (e : change) (s : App) :
  exists c d,
    onPresentationChange_body MAGIC e s
    = (c, set_document d (log_all (sidebar_calls e) s)).
Proof.
  unfold onPresentationChange_body, bindM.
  rewrite !forEach_modify, !fold_log,
    (fold_set_document (fun x d => remove_first (sel_visual_root (id x)) d)).
  destruct (show_added_document (added e)
              (log_all
                 (map (fun x => call_sidebar_add x
                         (Presentation_indexOf (detail_presentation e) (id x)))
                    (added e))
                 (set_document
                    (fold_left
                       (fun d x => remove_first (sel_visual_root (id x)) d)
                       (removed e)
                       (document
                          (log_all
                             (map (fun x => call_sidebar_remove (id x))
                                (removed e)) s)))
                    (log_all
                       (map (fun x => call_sidebar_remove (id x)) (removed e))
                       s)))) as [c [d E]].
  exists c, d. rewrite E. f_equal. unfold sidebar_calls. app_ext.
Qed.

(** With nothing added, it removes the view nodes of what was removed. *)
Lemma onPresentationChange_body_removed (p : Presentation)
  (rs : list Comment) (s : App) :
  onPresentationChange_body MAGIC
    {| detail_presentation := p; added := []; removed := rs |} s
  = (Normal tt,
     set_document
       (fold_left (fun d x => remove_first (sel_visual_root (id x)) d) rs
          (document s))
       (log_all (map (fun x => call_sidebar_remove (id x)) rs) s)).
Proof.
  unfold onPresentationChange_body, bindM. cbn [added removed].
  rewrite !forEach_modify, !fold_log,
    (fold_set_document (fun x d => remove_first (sel_visual_root (id x)) d)).
  cbn [map forEach ret]. now rewrite log_all_nil.
Qed.



Lemma sidebar_calls_quiet (e : change) :
  forallb no_delivery (sidebar_calls e) = true.
Proof.
  unfold sidebar_calls. rewrite forallb_app.
  apply andb_true_iff; split; apply forallb_forall; intros x H;
    apply in_map_iff in H as [y [<- _]]; reflexivity.
Qed.

(** What the view listener leaves: a change of the document, and calls
    that are no deliveries. *)
Lemma handle_onPresentationChange (e : change) (s : App) :
  exists d tr,
    handle MAGIC onPresentationChange e s = set_document d (log_all tr s)
    /\ forallb no_delivery tr = true.
Proof.
  cbn [handle]. unfold not_awaited.
  destruct (onPresentationChange_body_result e s) as [c [d E]]. rewrite E.
  destruct c as [[]|err|].
  - exists d, (sidebar_calls e). split; [reflexivity|apply sidebar_calls_quiet].
  - exists d, (sidebar_calls e ++ [unhandled_rejection err])%list. split.
    + app_ext.
    + rewrite forallb_app, sidebar_calls_quiet. reflexivity.
  - exists d, (sidebar_calls e). split; [reflexivity|apply sidebar_calls_quiet].
Qed.

(** Every listener leaves the presentation, the description, the counter
    of [Ids] and the count of presentations as they are. *)
Lemma handle_frame (l : listener) (e : change) (s : App) :
  exists d tr b,
    handle MAGIC l e s
    = set_cleanupDone_settled b (set_document d (log_all tr s)).
Proof.
  destruct l.
  - destruct (handle_onPresentationChange e s) as [d [tr [-> _]]].
    exists d, tr, (cleanupDone_settled s). app_ext.
  - exists (document s), [], (cleanupDone_settled s). cbn [handle].
    app_ext. now rewrite List.app_nil_r.
  - exists (document s), [], true. cbn [handle].
    app_ext. now rewrite List.app_nil_r.
Qed.

Lemma dispatchEvent_frame (ls : list listener) (e : change) (s : App) :
  exists d tr b,
    dispatchEvent MAGIC ls e s
    = set_cleanupDone_settled b (set_document d (log_all tr s)).
Proof.
  revert s. induction ls as [|l ls IH]; intros s; cbn [dispatchEvent].
  - exists (document s), [], (cleanupDone_settled s).
    app_ext. now rewrite List.app_nil_r.
  - destruct (handle_frame l e (log (deliver l e) s)) as [d [tr [b ->]]].
    destruct (IH (set_cleanupDone_settled b
                    (set_document d (log_all tr (log (deliver l e) s)))))
      as [d' [tr' [b' ->]]].
    exists d', (deliver l e :: tr ++ tr')%list, b'. app_ext.
Qed.

Lemma dispatchEvent_app (ls ls' : list listener) (e : change) (s : App) :
  dispatchEvent MAGIC (ls ++ ls') e s
  = dispatchEvent MAGIC ls' e (dispatchEvent MAGIC ls e s).
Proof.
  revert s. induction ls as [|l ls IH]; intros s; [reflexivity|].
  cbn [List.app dispatchEvent]. apply IH.
Qed.

(** The promise of [Util.waitEvent] is settled by the event. *)
Lemma dispatchEvent_settles (ls : list listener) (e : change) (s : App) :
  cleanupDone_settled (dispatchEvent MAGIC (ls ++ [cleanupDone]) e s) = true.
Proof. rewrite dispatchEvent_app. reflexivity. Qed.

(** The clean-up of [App.import] ends normally; it leaves the counter of
    [Ids] and the count of presentations as they are. *)
Lemma import_cleanup_normal (s : App) :
  exists s1,
    import_cleanup MAGIC s = (Normal tt, s1)
    /\ Ids_counter s1 = Ids_counter s
    /\ presentations_made s1 = presentations_made s
    /\ exists tr, trace s1 = (trace s ++ tr)%list.
Proof.
  unfold import_cleanup.
  destruct (List.length (visuals (presentation s)) =? 0)%nat.
  - exists s. repeat split; auto. exists []. now rewrite List.app_nil_r.
  - unfold bindM, waitEvent_change, on_this_presentation,
      Presentation_removeAllVisuals, emit, await_cleanupDone.
    cbn [modify presentation set_presentation addEventListener with_listeners
         with_visuals listeners visuals cleanupDone_settled].
    rewrite dispatchEvent_settles.
    eexists. split; [reflexivity|].
    match goal with
    | |- context [dispatchEvent MAGIC ?ls ?e ?s0] =>
        destruct (dispatchEvent_frame ls e s0) as [d [tr [b ->]]]
    end.
    app_fields. repeat split. now exists tr.
Qed.
End Application_facts.

(** ** [App.import] *)
Section Import_properties.
Variable MAGIC : string.
Variable Presentation_deserialize : json -> completion (list Comment).

(** The continuation of [App.import] from a state [s1], once the scan has
    given a seed: the seed goes to [Ids.initId], then the presentation is
    made, and the event of its [import] reaches the view listener alone. *)
Lemma import_continuation_seeded (data : json) (seed : Z) (s1 : App) :
  maxId data = Normal seed ->
  let p := {| oid := presentations_made s1; visuals := [];
              listeners := [onPresentationChange] |} in
  match Presentation_deserialize data with
  | Normal vs =>
      let e := {| detail_presentation := with_visuals vs p;
                  added := vs; removed := [] |} in
      exists d tr0,
        import_continuation MAGIC Presentation_deserialize data s1
        = (Normal tt,
           set_presentation
             (addEventListener maybePersistOnPresentationChange
                (with_visuals vs p))
             (set_document d
                (log_all
                   ([call_Ids_initId seed;
                     call_new_Presentation (presentations_made s1);
                     deliver onPresentationChange e] ++ tr0)
                   (set_presentations_made (S (presentations_made s1))
                      (set_Ids_counter seed s1)))))
        /\ forallb no_delivery tr0 = true
  | Throw err =>
      import_continuation MAGIC Presentation_deserialize data s1
      = (Throw err,
         log_all [call_Ids_initId seed;
                  call_new_Presentation (presentations_made s1)]
           (set_presentations_made (S (presentations_made s1))
              (set_Ids_counter seed s1)))
  | Pending =>
      import_continuation MAGIC Presentation_deserialize data s1
      = (Pending,
         log_all [call_Ids_initId seed;
                  call_new_Presentation (presentations_made s1)]
           (set_presentations_made (S (presentations_made s1))
              (set_Ids_counter seed s1)))
  end.
Proof.
  intros Hseed p.
  unfold import_continuation, bindM, lift, Ids_initId, modify,
    new_Presentation, Presentation_import.
  rewrite Hseed. cbn [presentations_made log set_presentations_made
                      set_Ids_counter].
  unfold bindM, lift.
  destruct (Presentation_deserialize data) as [vs|err|].
  - cbv zeta. unfold emit.
    cbn [addEventListener with_listeners with_visuals listeners visuals oid
         List.app filter is_cleanupDone negb dispatchEvent].
    match goal with
    | |- context [handle MAGIC onPresentationChange ?e ?s0] =>
        destruct (handle_onPresentationChange MAGIC e s0) as [d [tr0 [-> Q]]]
    end.
    exists d, tr0. split; [|exact Q]. f_equal. app_ext.
  - f_equal. app_ext.
  - f_equal. app_ext.
Qed.

(** C3, as amended. On a payload that has no truthy id of its own, on
    which the scan comes to no [null] and collects only ids that [parseInt]
    reads as safe integers (numbers, and strings that start with the digits
    of one), the seed is the greatest of these integers, or 1 if there is
    none or if the greatest is 0; the scan goes through nested objects and
    arrays and does not go below an object that has a truthy id.
    [App.import] passes that seed to [Ids.initId] and only then makes the
    new presentation. *)
Theorem import_seeds_with_greatest_reached_id (data : json) (s : App) :
  meets_null data = false -> has_id data = false ->
  ids_are_integers data = true ->
  let seed := match maximum (integer_ids data) with
              | Some m => if (m =? 0)%Z then 1%Z else m
              | None => 1%Z
              end in
  maxId data = Normal seed
  /\ exists s1 rest,
       import_cleanup MAGIC s = (Normal tt, s1)
       /\ trace (snd (App_import MAGIC Presentation_deserialize data s))
          = (trace s1
             ++ call_Ids_initId seed
                :: call_new_Presentation (presentations_made s) :: rest)%list
       /\ Ids_counter (snd (App_import MAGIC Presentation_deserialize data s))
          = seed.
Proof.
  intros W H I seed. pose proof (maxId_integers data W H I) as Q.
  split; [exact Q|].
  destruct (import_cleanup_normal MAGIC s) as [s1 [C [_ [P _]]]].
  pose proof (import_continuation_seeded data seed s1 Q) as K.
  unfold App_import, bindM. rewrite C. rewrite <- P.
  cbv zeta in K. destruct (Presentation_deserialize data) as [vs|err|].
  - destruct K as [d [tr0 [-> _]]]. exists s1, (deliver onPresentationChange
      {| detail_presentation :=
           with_visuals vs {| oid := presentations_made s1; visuals := [];
                              listeners := [onPresentationChange] |};
         added := vs; removed := [] |} :: tr0).
    split; [reflexivity|]. split; reflexivity.
  - rewrite K. exists s1, []. split; [reflexivity|]. split; reflexivity.
  - rewrite K. exists s1, []. split; [reflexivity|]. split; reflexivity.
Qed.



(** *** The clean-up and the view *)
Lemma count_matches_remove_first (sel sel' : element -> bool)
  (doc : list element) :
  count_matches sel (remove_first sel' doc) <= count_matches sel doc.
Proof.
  unfold count_matches. induction doc as [|x doc IH]; [constructor|].
  cbn [remove_first filter]. destruct (sel' x).
  - destruct (sel x); cbn [List.length]; lia.
  - cbn [filter]. destruct (sel x); cbn [List.length]; lia.
Qed.

Lemma count_matches_removed (sel : element -> bool) (doc : list element) :
  count_matches sel doc <= 1 -> count_matches sel (remove_first sel doc) = 0.
Proof.
  unfold count_matches. induction doc as [|x doc IH]; [reflexivity|].
  cbn [remove_first filter]. destruct (sel x) eqn:S.
  - cbn [List.length]. lia.
  - cbn [filter]. rewrite S. exact IH.
Qed.

Lemma count_matches_fold (sel : element -> bool) (rs : list Comment)
  (doc : list element) :
  count_matches sel
    (fold_left (fun d x => remove_first (sel_visual_root (id x)) d) rs doc)
  <= count_matches sel doc.
Proof.
  revert doc. induction rs as [|y rs IH]; intros doc; [constructor|].
  cbn [fold_left]. etransitivity; [apply IH|apply count_matches_remove_first].
Qed.

Lemma count_matches_zero (sel : element -> bool) (doc : list element) :
  count_matches sel doc = 0 -> find sel doc = None.
Proof.
  unfold count_matches. induction doc as [|x doc IH]; [reflexivity|].
  cbn [filter find]. destruct (sel x); [discriminate | exact IH].
Qed.

(** After the removals no view node of a removed annotation is left. *)
Lemma removed_nodes_gone (rs : list Comment) (doc : list element) :
  (forall x, In x rs -> count_matches (sel_visual_root (id x)) doc <= 1) ->
  forall x, In x rs ->
    findVisualUI (id x)
      (fold_left (fun d x => remove_first (sel_visual_root (id x)) d) rs doc)
    = None.
Proof.
  intros H x I. apply count_matches_zero. revert doc H x I.
  induction rs as [|y rs IH]; intros doc H x I; [now elim I|].
  cbn [fold_left]. destruct I as [->|I].
  - pose proof (count_matches_fold (sel_visual_root (id x)) rs
                  (remove_first (sel_visual_root (id x)) doc)) as F.
    rewrite (count_matches_removed _ doc (H x (or_introl eq_refl))) in F. lia.
  - apply IH; [|exact I]. intros z Iz.
    etransitivity; [apply count_matches_remove_first|].
    apply H. now right.
Qed.



End Import_properties.

(** ** Selection *)
Lemma existsb_filter_same (c : string) (l : list string) :
  existsb (String.eqb c) (filter (fun c' => negb (c =? c')) l) = false.
Proof.
  induction l as [|x l IH]; [reflexivity|]. cbn [filter].
  destruct (c =? x) eqn:E; cbn [negb]; [exact IH|].
  cbn [existsb]. now rewrite E.
Qed.

Lemma existsb_filter_other (c0 c : string) (l : list string) :
  c0 <> c ->
  existsb (String.eqb c0) (filter (fun c' => negb (c =? c')) l)
  = existsb (String.eqb c0) l.
Proof.
  intros N. induction l as [|x l IH]; [reflexivity|]. cbn [filter existsb].
  destruct (String.eqb_spec c x) as [<-|]; cbn [negb].
  - rewrite IH. destruct (String.eqb_spec c0 c); [contradiction|reflexivity].
  - cbn [existsb]. now rewrite IH.
Qed.

Lemma contains_add (c0 c : string) (e : element) :
  contains c0 (classList_add c e) = contains c0 e || (c0 =? c).
Proof.
  unfold contains at 1, classList_add. cbn [classList].
  destruct (contains c e) eqn:C.
  - fold (contains c0 e). destruct (String.eqb_spec c0 c) as [->|].
    + now rewrite C.
    + now rewrite orb_false_r.
  - rewrite existsb_app. cbn [existsb]. now rewrite orb_false_r.
Qed.

Section Selection_properties.
Variable MAGIC : string.

Lemma clear_selected_unmarked (x : element) :
  (contains "visual-root" x = true -> contains MAGIC x = true) ->
  marked (clear_selected MAGIC x) = false.
Proof.
  intros H. unfold clear_selected, sel_selected, marked.
  destruct (contains "visual-root" x) eqn:V.
  - rewrite (H eq_refl). cbn [andb].
    destruct (contains "selected" x) eqn:S.
    + unfold contains, classList_remove. cbn [classList].
      rewrite existsb_filter_same. apply andb_false_r.
    + now rewrite V, S.
  - rewrite andb_false_r. cbn [andb]. now rewrite V.
Qed.

Lemma clear_selected_visual_root (i : Z) (x : element) :
  sel_visual_root i (clear_selected MAGIC x) = sel_visual_root i x.
Proof.
  unfold clear_selected. destruct (sel_selected MAGIC x); [|reflexivity].
  unfold sel_visual_root, has_visual_id, contains, classList_remove.
  cbn [data_visual_id classList].
  now rewrite existsb_filter_other by discriminate.
Qed.

Lemma find_map_clear (i : Z) (doc : list element) :
  find (sel_visual_root i) (map (clear_selected MAGIC) doc)
  = option_map (clear_selected MAGIC) (find (sel_visual_root i) doc).
Proof.
  induction doc as [|x doc IH]; [reflexivity|]. cbn [map find].
  rewrite clear_selected_visual_root.
  now destruct (sel_visual_root i x).
Qed.

Lemma count_marked_cleared (doc : list element) :
  (forall e, In e doc ->
     contains "visual-root" e = true -> contains MAGIC e = true) ->
  forall x, In x (map (clear_selected MAGIC) doc) -> marked x = false.
Proof.
  intros H x I. apply in_map_iff in I as [y [<- I]].
  apply clear_selected_unmarked. now apply H.
Qed.

Lemma count_marked_update (sel : element -> bool) (f : element -> element)
  (doc : list element) (u : element) :
  (forall x, In x doc -> marked x = false) ->
  find sel doc = Some u -> marked (f u) = true ->
  count_marked (update_first sel f doc) = 1.
Proof.
  unfold count_marked. induction doc as [|x doc IH]; intros U F M;
    [discriminate F|].
  cbn [find update_first] in *. destruct (sel x).
  - injection F as ->. cbn [filter]. rewrite M. cbn [List.length]. f_equal.
    assert (E : filter marked doc = []).
    { clear -U. induction doc as [|y doc IH]; [reflexivity|].
      cbn [filter]. rewrite (U y (or_intror (or_introl eq_refl))).
      apply IH. intros z [->|I]; apply U; [now left | right; now right]. }
    now rewrite E.
  - cbn [filter]. rewrite (U x (or_introl eq_refl)).
    apply IH; auto. intros y I. apply U. now right.
Qed.

Lemma find_update_first (sel : element -> bool) (f : element -> element)
  (doc : list element) (u : element) :
  find sel doc = Some u -> sel (f u) = true ->
  find sel (update_first sel f doc) = Some (f u).
Proof.
  induction doc as [|x doc IH]; intros F S; [discriminate F|].
  cbn [find update_first] in *. destruct (sel x) eqn:X.
  - injection F as ->. cbn [find]. now rewrite S.
  - cbn [find]. rewrite X. now apply IH.
Qed.

Lemma sel_visual_root_add (i : Z) (u : element) :
  sel_visual_root i (classList_add "selected" u) = sel_visual_root i u.
Proof.
  unfold sel_visual_root. rewrite contains_add.
  change ("visual-root" =? "selected") with false.
  unfold has_visual_id. cbn [classList_add data_visual_id].
  now rewrite orb_false_r.
Qed.

(** C9. Selecting the id whose view node already carries the marker
    changes nothing and dispatches nothing. Selecting another id, when
    every view node carries the class [MAGIC], takes the marker off every
    view node and puts it on the view node of that id: one view node is
    marked afterwards, and the [select] event is dispatched. A call for an
    id without a view node raises and changes nothing. So a call keeps the
    number of marked view nodes at one at most. *)
Theorem selectVisual_single_choice (i : Z) (s : App) :
  forallb (fun e => implb (contains "visual-root" e) (contains MAGIC e))
    (document s) = true ->
  (count_marked (document s) <=? 1)%nat = true ->
  (forall ui, findVisualUI i (document s) = Some ui ->
     contains "selected" ui = true ->
     App_selectVisual MAGIC i s = (Normal tt, s))
  /\ (forall ui, findVisualUI i (document s) = Some ui ->
        contains "selected" ui = false ->
        exists s',
          App_selectVisual MAGIC i s = (Normal tt, s')
          /\ count_marked (document s') = 1
          /\ (exists ui', findVisualUI i (document s') = Some ui'
                          /\ marked ui' = true)
          /\ trace s' = (trace s ++ [dispatch_select i;
                                     call_sidebar_select i])%list)
  /\ (findVisualUI i (document s) = None ->
      App_selectVisual MAGIC i s = (Throw TypeError, s))
  /\ count_marked (document (snd (App_selectVisual MAGIC i s))) <= 1.
Proof.
  intros H0 H2.
  assert (H1 : forall e, In e (document s) ->
                 contains "visual-root" e = true -> contains MAGIC e = true).
  { intros e I V. rewrite forallb_forall in H0. specialize (H0 e I).
    now rewrite V in H0. }
  clear H0. apply Nat.leb_le in H2.
  assert (A : forall ui, findVisualUI i (document s) = Some ui ->
                contains "selected" ui = true ->
                App_selectVisual MAGIC i s = (Normal tt, s)).
  { intros ui F S. unfold App_selectVisual. now rewrite F, S. }
  assert (B : forall ui, findVisualUI i (document s) = Some ui ->
                contains "selected" ui = false ->
                exists s',
                  App_selectVisual MAGIC i s = (Normal tt, s')
                  /\ count_marked (document s') = 1
                  /\ (exists ui', findVisualUI i (document s') = Some ui'
                                  /\ marked ui' = true)
                  /\ trace s' = (trace s ++ [dispatch_select i;
                                             call_sidebar_select i])%list).
  { intros ui F S. unfold App_selectVisual. rewrite F, S.
    unfold bindM, modify, App_onSelect. cbn [document set_document log].
    eexists. split; [reflexivity|]. cbn [document trace].
    
    pose proof (find_map_clear i (document s)) as Fm.
    unfold findVisualUI, querySelector in F. rewrite F in Fm.
    cbn [option_map] in Fm.
    assert (V : sel_visual_root i ui = true) by (now apply find_some in F).
    assert (Vc : sel_visual_root i (clear_selected MAGIC ui) = true)
      by now rewrite clear_selected_visual_root.
    assert (Mk : marked (classList_add "selected" (clear_selected MAGIC ui))
                 = true).
    { unfold marked. rewrite !contains_add.
      change ("visual-root" =? "selected") with false.
      change ("selected" =? "selected") with true.
      unfold sel_visual_root in Vc. apply andb_true_iff in Vc as [_ ->].
      now rewrite orb_true_r. }
    split; [|split].
    - apply (count_marked_update _ _ _ (clear_selected MAGIC ui));
        [now apply count_marked_cleared | exact Fm | exact Mk].
    - eexists. split; [|exact Mk]. unfold findVisualUI, querySelector.
      apply find_update_first; [exact Fm|]. now rewrite sel_visual_root_add.
    - app_fields. now rewrite <- ?List.app_assoc. }
  assert (C : findVisualUI i (document s) = None ->
              App_selectVisual MAGIC i s = (Throw TypeError, s)).
  { intros F. unfold App_selectVisual. now rewrite F. }
  repeat split; auto.
  destruct (findVisualUI i (document s)) as [ui|] eqn:F.
  - destruct (contains "selected" ui) eqn:S.
    + now rewrite (A ui eq_refl S).
    + destruct (B ui eq_refl S) as [s' [E [Cm _]]]. rewrite E. cbn [snd].
      rewrite Cm. constructor.
  - now rewrite (C eq_refl).
Qed.
End Selection_properties.

(** ** The two readers of the description *)
Section Decode_failure.
Variable MAGIC : string.
Variable Presentation_serialize : list Comment -> json.
Variable Presentation_deserialize : json -> completion (list Comment).

(** C2 fails on the code: when the description holds no block, or one that
    [parseComment] does not accept, [App.persist] takes the whole text for
    the envelope, and [App.onSettingsLoad] raises a [TypeError] at
    [parsed.data] and imports nothing. *)
Theorem onSettingsLoad_raises_without_block (s : App) :
  parseComment MAGIC (issue_body s) = Normal None ->
  App_onSettingsLoad MAGIC Presentation_deserialize s = (Throw TypeError, s)
  /\ App_persist MAGIC Presentation_serialize s
     = (Normal tt,
        set_issue_body
          (renderComment MAGIC
             {| data := App_export Presentation_serialize s;
                comment := issue_body s |}) s).
Proof.
  intros P. unfold App_onSettingsLoad, App_persist, persist_text.
  now rewrite P.
Qed.
End Decode_failure.

(** ** The statements on sample data *)

(** C1 as stated fails: the envelope [Summary] comes back with a line feed
    after it, and the payload [0] does not come back at all. *)
Lemma codec_round_trip_counterexample :
  let c := {| data := scenario_payload; comment := "Summary" |} in
  let z := {| data := JNumber 0; comment := "" |} in
  serializable (data c)
  /\ includes sample_MAGIC (comment c) = false
  /\ parseComment sample_MAGIC (renderComment sample_MAGIC c)
     = Normal (Some {| data := scenario_payload;
                       comment := "Summary" ++ str1 LF |})
  /\ parseComment sample_MAGIC (renderComment sample_MAGIC c)
     <> Normal (Some c)
  /\ serializable (data z)
  /\ includes sample_MAGIC (comment z) = false
  /\ parseComment sample_MAGIC (renderComment sample_MAGIC z) = Normal None.
Proof.
  cbv zeta. cbn [data comment].
  assert (P : parseComment sample_MAGIC
                (renderComment sample_MAGIC
                   {| data := scenario_payload; comment := "Summary" |})
              = Normal (Some {| data := scenario_payload;
                                comment := "Summary" ++ str1 LF |}))
    by (vm_compute; reflexivity).
  split; [vm_compute; repeat split; reflexivity|].
  split; [reflexivity|]. split; [exact P|].
  split; [rewrite P; intros H; discriminate H|].
  split; [vm_compute; repeat split; reflexivity|].
  split; [reflexivity|]. vm_compute. reflexivity.
Qed.

(** The round trip on the scenario payload with the envelope [Summary]. *)
Lemma codec_round_trip_witness :
  parseComment sample_MAGIC
    (renderComment sample_MAGIC
       {| data := scenario_payload; comment := "Summary" |})
  = Normal (Some {| data := scenario_payload;
                    comment := "Summary" ++ str1 LF |})
  /\ parseComment sample_MAGIC
       (renderComment sample_MAGIC
          {| data := scenario_payload; comment := "Summary" ++ str1 LF |})
     = Normal (Some {| data := scenario_payload;
                       comment := "Summary" ++ str1 LF |})
  /\ parseComment sample_MAGIC
       (renderComment sample_MAGIC
          {| data := JString ""; comment := "Summary" |})
     = Normal None.
Proof.
  assert (S : serializable scenario_payload)
    by (vm_compute; repeat split; reflexivity).
  split; [|split].
  - apply (codec_round_trip sample_MAGIC "Summary" scenario_payload);
      [reflexivity | reflexivity | exact S | reflexivity].
  - apply (codec_round_trip sample_MAGIC ("Summary" ++ str1 LF)
             scenario_payload);
      [reflexivity | reflexivity | exact S | reflexivity | reflexivity].
  - apply (codec_round_trip sample_MAGIC "Summary" (JString ""));
      [reflexivity | reflexivity | exact I | reflexivity].
Defined.

(** Scenario 7 with the marker of the sample page. *)
Lemma scenario_round_trip_witness :
  parseComment sample_MAGIC
    (renderComment sample_MAGIC
       {| data := scenario_payload; comment := "Summary" ++ str1 LF |})
  = Normal (Some {| data := scenario_payload;
                    comment := "Summary" ++ str1 LF |}).
Proof.
  apply (scenario_round_trip sample_MAGIC); reflexivity.
Defined.

(** C3 as stated fails: below the object with the id 1 there is the id 5,
    and the seed is 1. *)
Lemma seed_misses_nested_id :
  spec_all_ids payload_nested_ids = [1%Z; 5%Z]
  /\ spec_seed payload_nested_ids = 5%Z
  /\ maxId payload_nested_ids = Normal 1%Z
  /\ Ids_counter
       (snd (App_import sample_MAGIC sample_deserialize payload_nested_ids
               sample_App)) = 1%Z.
Proof. repeat split; vm_compute; reflexivity. Qed.

(** Scenario 8: the ids 3, 7 and 5 seed the allocator to 7, before the new
    presentation is made. *)
Lemma import_seeds_witness :
  (maxId payload_3_7_5 = Normal 7%Z
   /\ exists s1 rest,
        import_cleanup sample_MAGIC sample_App = (Normal tt, s1)
        /\ trace (snd (App_import sample_MAGIC sample_deserialize
                         payload_3_7_5 sample_App))
           = (trace s1
              ++ call_Ids_initId 7 :: call_new_Presentation 1 :: rest)%list
        /\ Ids_counter
             (snd (App_import sample_MAGIC sample_deserialize payload_3_7_5
                     sample_App)) = 7%Z)
  /\ maxId payload_string_ids = Normal 7%Z.
Proof.
  split.
  - apply (import_seeds_with_greatest_reached_id sample_MAGIC
             sample_deserialize payload_3_7_5 sample_App);
      reflexivity.
  - apply (import_seeds_with_greatest_reached_id sample_MAGIC
             sample_deserialize payload_string_ids sample_App);
      reflexivity.
Defined.



(** Selecting the second annotation of the sample page marks one view
    node. *)
Lemma selectVisual_witness :
  exists s',
    App_selectVisual sample_MAGIC 2 sample_App = (Normal tt, s')
    /\ count_marked (document s') = 1
    /\ count_marked
         (document (snd (App_selectVisual sample_MAGIC 2 sample_App))) <= 1.
Proof.
  destruct (selectVisual_single_choice sample_MAGIC 2 sample_App
              eq_refl eq_refl) as [_ [B [_ D]]].
  destruct (B (CommentUI_rootElem sample_MAGIC (sample_Comment 2 "11" "two"))
              eq_refl eq_refl) as [s' [E [Cm _]]].
  exists s'. split; [exact E|]. split; [exact Cm | exact D].
Defined.


(** The sample page has a description without a block. *)
Lemma onSettingsLoad_raises_witness :
  App_onSettingsLoad sample_MAGIC sample_deserialize sample_App
  = (Throw TypeError, sample_App)
  /\ App_persist sample_MAGIC sample_serialize sample_App
     = (Normal tt,
        set_issue_body
          (renderComment sample_MAGIC
             {| data := App_export sample_serialize sample_App;
                comment := issue_body sample_App |}) sample_App).
Proof.
  apply (onSettingsLoad_raises_without_block sample_MAGIC sample_serialize
           sample_deserialize sample_App).
  reflexivity.
Defined.

(** The ids of scenario 8 do not nest. *)
Lemma maxId_is_greatest_id_witness :
  maxId payload_3_7_5 = Normal 7%Z.
Proof.
  apply (maxId_is_greatest_id_when_unnested payload_3_7_5); reflexivity.
Defined.

(** Persisting the sample page twice. *)
Lemma persist_then_parseComment_witness :
  parseComment sample_MAGIC
    (issue_body (snd (App_persist sample_MAGIC sample_serialize sample_App)))
  = Normal (Some {| data := App_export sample_serialize sample_App;
                    comment := "Summary" ++ str1 LF |})
  /\ App_persist sample_MAGIC sample_serialize
       (snd (App_persist sample_MAGIC sample_serialize sample_App))
     = (Normal tt, snd (App_persist sample_MAGIC sample_serialize sample_App)).
Proof.
  apply (persist_then_parseComment sample_MAGIC sample_serialize sample_App);
    [reflexivity | reflexivity | vm_compute; repeat split; reflexivity
    | reflexivity].
Defined.

(** * Further properties *)

(** ** A block amid text *)
Section Block_amid_text.
Variable MAGIC : string.
Hypothesis MAGIC_ok : marker_ok MAGIC = true.

(** After the closing marker of a block, in a text that does not hold the
    marker after the block, the marker does not start again. *)
Lemma MAGIC_not_after_block (y a b : string) :
  includes MAGIC y = false ->
  MAGIC ++ " -->" ++ y = a ++ b -> a <> "" -> strip_prefix MAGIC b = None.
Proof.
  intros I E N. rewrite includes_false in I.
  apply append_eq_append in E as [[e [E ->]] | [e [-> E]]].
  - destruct (strip_prefix MAGIC (e ++ " -->" ++ y)) eqn:P; [|reflexivity].
    apply strip_prefix_crossing in P as [z P];
      [|exact (MAGIC_chars MAGIC MAGIC_ok)|reflexivity].
    apply strip_prefix_Some in P. exfalso.
    apply (f_equal String.length) in E, P. rewrite !append_length in *.
    destruct a; [now apply N|]. simpl in *. lia.
  - apply append_eq_append in E as [[e' [E ->]] | [e' [-> E]]].
    + destruct e as [|c0 [|c1 [|c2 [|c3 [|c4 e]]]]]; simpl in E;
        try discriminate; inversion E; subst; cbn [append];
        first [ now apply (I "" y) | now apply MAGIC_not_at ].
    + now apply (I e' b).
Qed.

(** [PARSE_REGEX] on a text that holds one rendered block: the text in
    front is the group [before], the text between the markers the group
    [data], the text behind the group [after]. The text between the markers
    may hold the marker. *)
Lemma PARSE_REGEX_block (x body y : string) :
  includes MAGIC x = false -> includes MAGIC y = false ->
  PARSE_REGEX MAGIC (x ++ "<!-- " ++ MAGIC ++ body ++ MAGIC ++ " -->" ++ y)
  = Some {| before := x; data_group := body; after := y |}.
Proof.
  intros I J. unfold PARSE_REGEX. apply re_group_lazy_first.
  - intros a b E N. cbn beta.
    match goal with
    | |- re_opt _ (re_lit MAGIC ?K) _ = _ => set (k2 := K)
    end.
    unfold re_opt.
    assert (L : re_lit "<!--" (re_spaces (re_lit MAGIC k2))
                  (b ++ "<!-- " ++ MAGIC ++ body ++ MAGIC ++ " -->" ++ y)
                = None).
    { unfold re_lit at 1.
      destruct (strip_prefix "<!--" _) as [z|] eqn:P; [|reflexivity].
      apply opener_in_front in P as [e [-> ->]]; [|exact N].
      apply re_spaces_none; [reflexivity|].
      intros a' b' ->. unfold re_lit.
      rewrite (MAGIC_not_in_front MAGIC MAGIC_ok x "<" _ I eq_refl
                 (a ++ "<!--" ++ a') b');
        [reflexivity|].
      rewrite E. now rewrite !append_assoc. }
    rewrite L. unfold re_lit.
    pose proof (MAGIC_not_in_front MAGIC MAGIC_ok x "<"
                  ("!-- " ++ MAGIC ++ body ++ MAGIC ++ " -->" ++ y)
                  I eq_refl a b E) as Q.
    cbn [append] in Q |- *. now rewrite Q.
  - cbn beta. change ("" ++ x) with x.
    match goal with
    | |- re_opt _ (re_lit MAGIC ?K) _ = _ => set (k2 := K)
    end.
    assert (G : k2 (body ++ MAGIC ++ " -->" ++ y)
                = Some {| before := x; data_group := body; after := y |}).
    { subst k2. apply re_group_greedy_last.
      - intros a b E N. cbn beta. unfold re_lit.
        now rewrite (MAGIC_not_after_block y a b J E N).
      - cbn beta. rewrite re_lit_app. unfold re_opt.
        change (" -->" ++ y) with (String " " (String "-" ("->" ++ y))).
        cbn [re_spaces]. change (is_space " ") with true.
        change (is_space "-") with false. cbv iota.
        change (String "-" ("->" ++ y)) with ("-->" ++ y).
        rewrite (re_lit_app "-->"), re_group_greedy_end. reflexivity. }
    assert (T : re_spaces (re_lit MAGIC k2)
                  (MAGIC ++ body ++ MAGIC ++ " -->" ++ y)
                = re_lit MAGIC k2 (MAGIC ++ body ++ MAGIC ++ " -->" ++ y)).
    { generalize (re_lit MAGIC k2). intros k.
      pose proof MAGIC_ok as W. unfold marker_ok in W.
      destruct MAGIC as [|c m]; [discriminate|].
      apply andb_true_iff in W as [W _]. cbn [append re_spaces].
      now rewrite (is_word_not_space c W). }
    assert (U : re_lit MAGIC k2 (MAGIC ++ body ++ MAGIC ++ " -->" ++ y)
                = Some {| before := x; data_group := body; after := y |})
      by now rewrite re_lit_app.
    rewrite U in T. clear U G.
    set (tail := MAGIC ++ body ++ MAGIC ++ " -->" ++ y) in *.
    unfold re_opt, re_lit at 1. cbn [strip_prefix append].
    rewrite !Ascii.eqb_refl. cbn [re_spaces].
    change (is_space " ") with true. cbv iota.
    now rewrite T.
Qed.
End Block_amid_text.

(** [JSON.parse] raises on a printed value with other text behind it. *)
Lemma JSON_parse_trailing (p : json) (c : ascii) (r : string) :
  serializable p -> number_end (String c r) = true -> is_json_ws c = false ->
  JSON_parse (JSON_stringify p ++ String c r) = Throw SyntaxError.
Proof.
  intros S E W. unfold JSON_parse, JSON_stringify.
  pose proof (parse_value_printed p S "" "" (String c r)
                (2 * String.length (SerializeJSONProperty "" p ++ String c r)
                 + 2)
                eq_refl eq_refl E) as P.
  cbn [append] in P. rewrite P.
  - cbn [skip_ws]. now rewrite W.
  - pose proof (size_le_length p ""). rewrite append_length. lia.
Qed.

Section Codec_in_text.
Variable MAGIC : string.

(** [parseComment] on a text that holds one rendered block. *)
Lemma parseComment_block (x y : string) (p : json) :
  marker_ok MAGIC = true ->
  includes MAGIC x = false -> includes MAGIC y = false -> serializable p ->
  parseComment MAGIC
    (x ++ "<!-- " ++ MAGIC ++ JSON_stringify p ++ MAGIC ++ " -->" ++ y)
  = Normal (if truthy p then Some {| data := p; comment := x ++ y |}
            else None).
Proof.
  intros M I J S. unfold parseComment.
  rewrite (PARSE_REGEX_block MAGIC M x _ y I J).
  cbn [data_group before after].
  rewrite (JSON_parse_stringify p S). cbn [Try]. now destruct (truthy p).
Qed.

(** A block that [renderComment] wrote is found with text in front of it and
    behind it, when neither holds the marker: the pattern takes the text in
    front for [before] and the text behind for [after], and [parseComment]
    returns the payload with the two texts joined for the envelope. *)
Theorem parseComment_block_amid_text (x y : string) (p : json) :
  marker_ok MAGIC = true ->
  includes MAGIC x = false -> includes MAGIC y = false ->
  serializable p -> truthy p = true ->
  PARSE_REGEX MAGIC
    (x ++ "<!-- " ++ MAGIC ++ JSON_stringify p ++ MAGIC ++ " -->" ++ y)
  = Some {| before := x; data_group := JSON_stringify p; after := y |}
  /\ parseComment MAGIC
       (x ++ "<!-- " ++ MAGIC ++ JSON_stringify p ++ MAGIC ++ " -->" ++ y)
     = Normal (Some {| data := p; comment := x ++ y |}).
Proof.
  intros M I J S T. split; [now apply PARSE_REGEX_block|].
  rewrite (parseComment_block x y p M I J S). now rewrite T.
Qed.

(** A text with two blocks: the group [data] runs from the first marker to
    the last, over the end of the first block and the start of the second,
    which is no JSON. [parseComment] returns nothing, and [App.persist]
    takes all of the text for the envelope. The marker is taken not to
    start with a digit or with the letter e. *)
Theorem parseComment_two_blocks (x y z : string) (p q : json) :
  marker_ok MAGIC = true -> number_end MAGIC = true ->
  includes MAGIC x = false -> includes MAGIC z = false ->
  serializable p ->
  let text :=
    x ++ "<!-- " ++ MAGIC ++ JSON_stringify p ++ MAGIC ++ " -->"
      ++ y ++ "<!-- " ++ MAGIC ++ JSON_stringify q ++ MAGIC ++ " -->" ++ z in
  PARSE_REGEX MAGIC text
  = Some {| before := x;
            data_group :=
              JSON_stringify p ++ MAGIC ++ " -->" ++ y ++ "<!-- " ++ MAGIC
                ++ JSON_stringify q;
            after := z |}
  /\ parseComment MAGIC text = Normal None
  /\ envelope_of MAGIC text = text.
Proof.
  intros M E I J S text.
  assert (P : PARSE_REGEX MAGIC text
              = Some {| before := x;
                        data_group :=
                          JSON_stringify p ++ MAGIC ++ " -->" ++ y
                            ++ "<!-- " ++ MAGIC ++ JSON_stringify q;
                        after := z |}).
  { unfold text.
    rewrite <- (PARSE_REGEX_block MAGIC M x _ z I J).
    now rewrite !append_assoc. }
  assert (Q : parseComment MAGIC text = Normal None).
  { unfold parseComment. rewrite P. cbn [data_group].
    pose proof M as M0. unfold marker_ok in M0.
    destruct MAGIC as [|c m] eqn:EM; [discriminate|].
    apply andb_true_iff in M0 as [W _]. cbn [append].
    rewrite JSON_parse_trailing; [reflexivity | exact S | exact E |].
    destruct c as [[] [] [] [] [] [] [] []];
      first [ reflexivity | discriminate W ]. }
  split; [exact P|]. split; [exact Q|].
  unfold envelope_of. now rewrite Q.
Qed.
End Codec_in_text.

Section Persist_in_text.
Variable MAGIC : string.
Variable Presentation_serialize : list Comment -> json.
Variable Presentation_deserialize : json -> completion (list Comment).

(** [App.persist] on a description with a block between two texts writes
    the two texts joined, the separator, and the new block at the end: the
    text behind the old block is in front of the new one. *)
Theorem persist_moves_text_in_front_of_block (s : App) (x y : string)
  (p : json) :
  marker_ok MAGIC = true ->
  includes MAGIC x = false -> includes MAGIC y = false ->
  serializable p -> truthy p = true ->
  issue_body s
  = x ++ "<!-- " ++ MAGIC ++ JSON_stringify p ++ MAGIC ++ " -->" ++ y ->
  issue_body (snd (App_persist MAGIC Presentation_serialize s))
  = (x ++ y) ++ separator (x ++ y)
    ++ "<!-- " ++ MAGIC
    ++ JSON_stringify (App_export Presentation_serialize s)
    ++ MAGIC ++ " -->".
Proof.
  intros M I J S T B. unfold App_persist, persist_text.
  cbn [snd issue_body set_issue_body]. rewrite B.
  rewrite (parseComment_block MAGIC x y p M I J S), T.
  rewrite renderComment_eq. cbn [comment data].
  now rewrite !append_assoc.
Qed.

(** What [App.persist] wrote, [parseComment] reads. *)
Lemma parseComment_persisted (s : App) :
  marker_ok MAGIC = true ->
  includes MAGIC (envelope_of MAGIC (issue_body s)) = false ->
  serializable (App_export Presentation_serialize s) ->
  parseComment MAGIC
    (issue_body (snd (App_persist MAGIC Presentation_serialize s)))
  = Normal (if truthy (App_export Presentation_serialize s)
            then Some {| data := App_export Presentation_serialize s;
                         comment :=
                           envelope_of MAGIC (issue_body s)
                           ++ separator (envelope_of MAGIC (issue_body s)) |}
            else None).
Proof.
  intros M I S.
  assert (B : issue_body (snd (App_persist MAGIC Presentation_serialize s))
              = renderComment MAGIC
                  {| data := App_export Presentation_serialize s;
                     comment := envelope_of MAGIC (issue_body s) |}).
  { unfold App_persist, persist_text, envelope_of.
    cbn [snd issue_body set_issue_body].
    now destruct (parseComment MAGIC (issue_body s)) as [[p|]|e|]. }
  rewrite B. now apply parseComment_renderComment.
Qed.

(** After [App.persist], [App.onSettingsLoad] finds the block and calls
    [App.import] with the payload that was exported; it does not raise. *)
Theorem onSettingsLoad_after_persist (s : App) :
  marker_ok MAGIC = true ->
  includes MAGIC (envelope_of MAGIC (issue_body s)) = false ->
  serializable (App_export Presentation_serialize s) ->
  truthy (App_export Presentation_serialize s) = true ->
  let s' := snd (App_persist MAGIC Presentation_serialize s) in
  App_onSettingsLoad MAGIC Presentation_deserialize s'
  = (Normal tt,
     not_awaited
       (App_import MAGIC Presentation_deserialize
          (App_export Presentation_serialize s)) s').
Proof.
  intros M I S T s'. unfold App_onSettingsLoad.
  unfold s' at 1. rewrite (parseComment_persisted s M I S), T.
  reflexivity.
Qed.
End Persist_in_text.

(** ** The pipeline of [App.persist] *)
Section Persist_pipeline.
Variable MAGIC : string.
Variable Presentation_serialize : list Comment -> json.

(** Without two markers the pattern does not match. *)
Lemma PARSE_REGEX_no_block (c : string) :
  (forall a b d, c <> a ++ MAGIC ++ b ++ MAGIC ++ d) ->
  PARSE_REGEX MAGIC c = None.
Proof.
  intros N. destruct (PARSE_REGEX MAGIC c) as [g|] eqn:P; [|reflexivity].
  apply PARSE_REGEX_Some in P as [o [cl [E _]]].
  exfalso. apply (N (before g ++ o) (data_group g) (cl ++ after g)).
  now rewrite !append_assoc.
Qed.

(** The text [App.persist] writes, by what the pattern and [JSON.parse]
    make of the text it fetched. *)
Lemma persist_text_cases (fetched : string) (exported : json) :
  persist_text MAGIC fetched exported
  = match PARSE_REGEX MAGIC fetched with
    | Some g =>
        match JSON_parse (data_group g) with
        | Normal j =>
            if truthy j
            then renderComment MAGIC
                   {| data := exported; comment := before g ++ after g |}
            else renderComment MAGIC
                   {| data := exported; comment := fetched |}
        | _ => renderComment MAGIC {| data := exported; comment := fetched |}
        end
    | None => renderComment MAGIC {| data := exported; comment := fetched |}
    end.
Proof.
  unfold persist_text, parseComment.
  destruct (PARSE_REGEX MAGIC fetched) as [g|]; [|reflexivity].
  destruct (JSON_parse (data_group g)) as [j|e|]; cbn [Try]; try reflexivity.
  now destruct (truthy j).
Qed.

(** C4. [App.persist] ends normally and writes the description only. What
    it writes is an envelope, the separator of [renderComment] and the
    block with the export of the presentation the [App] holds. The
    envelope is the whole fetched text when that text does not hold the
    marker twice, when the payload of its block is falsy, and when the text
    between the markers is no JSON; it is the text in front of the block
    and behind it, as the pattern cuts it, when the block decodes: for a
    block that [renderComment] wrote between two texts without the marker,
    these two texts. The case of a text that is no JSON is stated for the
    texts on which [JSON_parse] follows [JSON.parse]. *)
Theorem persist_is_read_modify_write (s : App) :
  let fetched := issue_body s in
  let written :=
    issue_body (snd (App_persist MAGIC Presentation_serialize s)) in
  let new_block :=
    "<!-- " ++ MAGIC
    ++ JSON_stringify (Presentation_serialize (visuals (presentation s)))
    ++ MAGIC ++ " -->" in
  App_persist MAGIC Presentation_serialize s
  = (Normal tt, set_issue_body written s)
  /\ ((forall a b d, fetched <> a ++ MAGIC ++ b ++ MAGIC ++ d) ->
      written = fetched ++ separator fetched ++ new_block)
  /\ (forall x y p,
        marker_ok MAGIC = true ->
        includes MAGIC x = false -> includes MAGIC y = false ->
        serializable p ->
        fetched
        = x ++ "<!-- " ++ MAGIC ++ JSON_stringify p ++ MAGIC ++ " -->" ++ y ->
        written
        = if truthy p
          then (x ++ y) ++ separator (x ++ y) ++ new_block
          else fetched ++ separator fetched ++ new_block)
  /\ (forall g j,
        PARSE_REGEX MAGIC fetched = Some g ->
        JSON_parse (data_group g) = Normal j ->
        written
        = if truthy j
          then (before g ++ after g) ++ separator (before g ++ after g)
               ++ new_block
          else fetched ++ separator fetched ++ new_block)
  /\ (forall g e,
        PARSE_REGEX MAGIC fetched = Some g ->
        JSON_parse (data_group g) = Throw e ->
        beyond_embedding (data_group g) = false ->
        written = fetched ++ separator fetched ++ new_block).
Proof.
  cbv zeta. unfold App_persist, App_export. cbn [snd issue_body set_issue_body].
  rewrite persist_text_cases.
  split; [reflexivity|]. split; [|split; [|split]].
  - intros N. rewrite (PARSE_REGEX_no_block _ N). rewrite renderComment_eq.
    cbn [comment data]. now rewrite append_assoc.
  - intros x y p M I J S E. rewrite E at 1.
    rewrite (PARSE_REGEX_block MAGIC M x _ y I J). cbn [data_group before after].
    rewrite (JSON_parse_stringify p S).
    destruct (truthy p); rewrite renderComment_eq; cbn [comment data];
      now rewrite append_assoc.
  - intros g j P Q. rewrite P, Q.
    destruct (truthy j); rewrite renderComment_eq; cbn [comment data];
      now rewrite append_assoc.
  - intros g e P Q _. rewrite P, Q. rewrite renderComment_eq.
    cbn [comment data]. now rewrite append_assoc.
Qed.
End Persist_pipeline.

(** ** When the scan raises *)
Lemma flatMap_outcome (m : json -> bool) (f : json -> completion json)
  (l : list json) :
  Forall (raises_or_returns m f) l ->
  (existsb m l = true -> flatMap f l = Throw TypeError)
  /\ (existsb m l = false -> exists rs, flatMap f l = Normal rs).
Proof.
  induction 1 as [|x l [T N] Hl [IT IN]]; cbn [existsb flatMap].
  - split; [discriminate | now exists []].
  - fold (flatMap f l). destruct (m x).
    + split; [|discriminate]. intros _. now rewrite (T eq_refl).
    + destruct (N eq_refl) as [r ->]. cbn [bind orb]. split.
      * intros E. now rewrite (IT E).
      * intros E. destruct (IN E) as [rs ->]. cbn [bind]. eauto.
Qed.

Lemma flatMap_values_outcome (m : json -> bool)
  (f : json -> completion json) (ms : list (string * json)) :
  Forall (fun kv => raises_or_returns m f (snd kv)) ms ->
  (existsb (fun kv => m (snd kv)) ms = true ->
   flatMap_values f ms = Throw TypeError)
  /\ (existsb (fun kv => m (snd kv)) ms = false ->
      exists rs, flatMap_values f ms = Normal rs).
Proof.
  induction 1 as [|[k x] ms [T N] Hl [IT IN]]; cbn [existsb flatMap_values snd].
  - split; [discriminate | now exists []].
  - fold (flatMap_values f ms). cbn [snd] in T, N. destruct (m x).
    + split; [|discriminate]. intros _. now rewrite (T eq_refl).
    + destruct (N eq_refl) as [r ->]. cbn [bind orb]. split.
      * intros E. now rewrite (IT E).
      * intros E. destruct (IN E) as [rs ->]. cbn [bind]. eauto.
Qed.

(** The scan and its callback raise a [TypeError] when the scan comes to a
    [null], and return otherwise. *)
Lemma getAllIds_outcome (v : json) :
  raises_or_returns meets_null getAllIds v
  /\ raises_or_returns meets_null (getAllIds_callback getAllIds) v.
Proof.
  induction v as [| b | n | s | l IHl | ms IHms] using json_induction.
  - split; split; first [ reflexivity | discriminate ].
  - split; split; first [ discriminate | intros _; now eexists ].
  - split; split; first [ discriminate | intros _; now eexists ].
  - split; split; first [ discriminate | intros _; now eexists ].
  - assert (A : Forall (raises_or_returns meets_null getAllIds) l).
    { rewrite Forall_forall in *. intros x I. now apply IHl. }
    assert (B : Forall (raises_or_returns meets_null
                          (getAllIds_callback getAllIds)) l).
    { rewrite Forall_forall in *. intros x I. now apply IHl. }
    destruct (flatMap_outcome _ _ l A) as [AT AN].
    destruct (flatMap_outcome _ _ l B) as [BT BN].
    split; split; cbn [meets_null getAllIds getAllIds_callback id_of];
      intros E.
    + now rewrite (BT E).
    + destruct (BN E) as [rs ->]. cbn [bind]. eauto.
    + now rewrite (AT E).
    + destruct (AN E) as [rs ->]. cbn [bind]. eauto.
  - assert (B : Forall (fun kv => raises_or_returns meets_null
                                    (getAllIds_callback getAllIds) (snd kv))
                  ms).
    { rewrite Forall_forall in *. intros x I. now apply IHms. }
    destruct (flatMap_values_outcome _ _ ms B) as [BT BN].
    assert (G : raises_or_returns meets_null getAllIds (JObject ms)).
    { split; cbn [meets_null getAllIds id_of]; intros E;
        destruct (lookup "id" ms) as [i|]; try destruct (truthy i);
        try discriminate E; eauto;
        first [ now rewrite (BT E)
              | destruct (BN E) as [rs ->]; cbn [bind]; eauto ]. }
    split; [exact G|]. exact G.
Qed.

(** [getAllIds] raises a [TypeError] when the scan comes to a [null]
    ([Object.values(null)]), and only then; otherwise it returns. *)
Theorem getAllIds_raises_at_null (v : json) :
  (meets_null v = true -> getAllIds v = Throw TypeError)
  /\ (meets_null v = false -> exists r, getAllIds v = Normal r)
  /\ (getAllIds v = Throw TypeError -> meets_null v = true).
Proof.
  destruct (getAllIds_outcome v) as [[T N] _].
  split; [exact T|]. split; [exact N|].
  intros E. destruct (meets_null v); [reflexivity|].
  destruct (N eq_refl) as [r R]. congruence.
Qed.

(** Without a truthy [id] of its own, what the scan returns is an array. *)
Lemma getAllIds_array (data r : json) :
  has_id data = false -> getAllIds data = Normal r -> is_array r = true.
Proof.
  unfold has_id. destruct data as [| b | n | s | l | ms];
    cbn [getAllIds id_of]; intros H E.
  - discriminate E.
  - now injection E as <-.
  - now injection E as <-.
  - now injection E as <-.
  - destruct (flatMap _ l); [|discriminate..]. now injection E as <-.
  - destruct (lookup "id" ms) as [i|]; [rewrite H in E|];
      (destruct (flatMap_values _ ms); [|discriminate..]);
      now injection E as <-.
Qed.

(** With a truthy [id] of its own, the scan returns that [id]. *)
Lemma getAllIds_own_id (data i : json) :
  id_of data = Some i -> truthy i = true -> getAllIds data = Normal i.
Proof.
  intros I T. destruct data as [| b | n | s | l | ms]; try discriminate I.
  cbn [id_of] in I. cbn [getAllIds id_of]. now rewrite I, T.
Qed.

Lemma meets_null_own_id (data i : json) :
  id_of data = Some i -> truthy i = true -> meets_null data = false.
Proof.
  intros I T. destruct data as [| b | n | s | l | ms]; try discriminate I.
  cbn [id_of] in I. cbn [meets_null]. now rewrite I, T.
Qed.

(** On a list, the seed is an integer that is not 0. *)
Lemma seed_of_array (l : list json) :
  exists n,
    match first (sort_desc (toArray (map parseInt l))) with
    | Some (Some n) => Normal (if (n =? 0)%Z then 1%Z else n)
    | Some None => Normal 1%Z
    | None => Normal 1%Z
    end = Normal n /\ n <> 0%Z.
Proof.
  destruct (first _) as [[n|]|].
  - destruct (Z.eqb_spec n 0); eexists; (split; [reflexivity|lia]).
  - exists 1%Z. split; [reflexivity|lia].
  - exists 1%Z. split; [reflexivity|lia].
Qed.

(** When the computation of the seed raises, and what it yields
    otherwise. *)
Lemma maxId_outcome (data : json) :
  (scan_rejects data = true -> maxId data = Throw TypeError)
  /\ (scan_rejects data = false ->
      exists n, maxId data = Normal n /\ n <> 0%Z).
Proof.
  destruct (getAllIds_outcome data) as [[T N] _].
  unfold scan_rejects, maxId.
  destruct (id_of data) as [i|] eqn:I.
  - destruct (truthy i) eqn:Ti.
    + rewrite (meets_null_own_id data i I Ti),
        (getAllIds_own_id data i I Ti).
      cbn [orb andb bind].
      destruct i; cbn [is_array negb]; split; intros E;
        try discriminate E; try reflexivity.
      apply seed_of_array.
    + cbn [andb]. rewrite orb_false_r. split; intros E.
      * now rewrite (T E).
      * destruct (N E) as [r R]. rewrite R. cbn [bind].
        assert (A : is_array r = true).
        { apply (getAllIds_array data r); [|exact R].
          unfold has_id. now rewrite I. }
        destruct r; try discriminate A. apply seed_of_array.
  - rewrite orb_false_r. split; intros E.
    + now rewrite (T E).
    + destruct (N E) as [r R]. rewrite R. cbn [bind].
      assert (A : is_array r = true).
      { apply (getAllIds_array data r); [|exact R].
        unfold has_id. now rewrite I. }
      destruct r; try discriminate A. apply seed_of_array.
Qed.

(** ** How [App.import] ends *)
Section Import_outcomes.
Variable MAGIC : string.
Variable Presentation_deserialize : json -> completion (list Comment).

(** The clean-up of [App.import] leaves the presentation that was there,
    without annotations; the description, the counter of [Ids] and the
    count of presentations are as they were. *)
Lemma import_cleanup_presentation (s : App) :
  exists s1,
    import_cleanup MAGIC s = (Normal tt, s1)
    /\ oid (presentation s1) = oid (presentation s)
    /\ visuals (presentation s1) = []
    /\ (wired s -> wired s1)
    /\ issue_body s1 = issue_body s
    /\ Ids_counter s1 = Ids_counter s
    /\ presentations_made s1 = presentations_made s.
Proof.
  unfold import_cleanup.
  destruct (List.length (visuals (presentation s)) =? 0)%nat eqn:V.
  - exists s. repeat split; auto.
    apply Nat.eqb_eq in V. now destruct (visuals (presentation s)).
  - unfold bindM, waitEvent_change, on_this_presentation,
      Presentation_removeAllVisuals, emit, await_cleanupDone.
    cbn [modify presentation set_presentation addEventListener with_listeners
         with_visuals listeners visuals cleanupDone_settled].
    rewrite dispatchEvent_settles.
    eexists. split; [reflexivity|].
    match goal with
    | |- context [dispatchEvent MAGIC ?ls ?e ?s0] =>
        destruct (dispatchEvent_frame MAGIC ls e s0) as [d [tr [b ->]]]
    end.
    app_fields. cbn [oid visuals listeners]. repeat split.
    unfold wired. app_fields. cbn [listeners]. intros ->. reflexivity.
Qed.

(** On a payload the scan rejects, [App.import] raises a [TypeError]
    after the clean-up and before [Ids.initId]: the presentation that was
    there is emptied, the counter of [Ids] is as it was, and no presentation
    has been made. *)
Theorem import_rejected_payload (data : json) (s : App) :
  scan_rejects data = true ->
  exists s1,
    App_import MAGIC Presentation_deserialize data s = (Throw TypeError, s1)
    /\ import_cleanup MAGIC s = (Normal tt, s1)
    /\ oid (presentation s1) = oid (presentation s)
    /\ visuals (presentation s1) = []
    /\ Ids_counter s1 = Ids_counter s
    /\ presentations_made s1 = presentations_made s.
Proof.
  intros R. destruct (maxId_outcome data) as [T _].
  destruct (import_cleanup_presentation s) as [s1 [C [O [V [_ [_ [I P]]]]]]].
  exists s1. repeat split; auto.
  unfold App_import, bindM. rewrite C.
  unfold import_continuation, bindM, lift. now rewrite (T R).
Qed.

(** On a payload the scan accepts, the seed is an integer other than 0,
    and [App.import] leaves it in the counter of [Ids] however
    [presentation.import] ends: when that raises, [App.import] raises the
    same, the counter is seeded all the same, and the [App] still holds the
    old presentation, emptied. *)
Theorem import_seeds_before_deserializing (data : json) (s : App) :
  scan_rejects data = false ->
  exists seed,
    maxId data = Normal seed /\ seed <> 0%Z
    /\ Ids_counter (snd (App_import MAGIC Presentation_deserialize data s))
       = seed
    /\ (forall err,
          Presentation_deserialize data = Throw err ->
          fst (App_import MAGIC Presentation_deserialize data s) = Throw err
          /\ oid (presentation
                    (snd (App_import MAGIC Presentation_deserialize data s)))
             = oid (presentation s)
          /\ visuals (presentation
                        (snd (App_import MAGIC Presentation_deserialize
                                data s)))
             = []).
Proof.
  intros R. destruct (maxId_outcome data) as [_ N].
  destruct (N R) as [seed [Q Z0]]. exists seed.
  destruct (import_cleanup_presentation s) as [s1 [C [O [V _]]]].
  pose proof (import_continuation_seeded MAGIC Presentation_deserialize
                data seed s1 Q) as K.
  cbv zeta in K. unfold App_import, bindM. rewrite C.
  split; [exact Q|]. split; [exact Z0|].
  destruct (Presentation_deserialize data) as [vs|err|].
  - destruct K as [d [tr0 [-> _]]]. split; [reflexivity|]. discriminate.
  - rewrite K. split; [reflexivity|]. intros err' E. injection E as <-.
    cbn [fst snd]. app_fields. auto.
  - rewrite K. split; [reflexivity|]. discriminate.
Qed.
End Import_outcomes.

(** ** View nodes and their ids *)
Lemma distinct_NoDup (l : list Z) : distinct l = true <-> NoDup l.
Proof.
  induction l as [|x l IH]; cbn [distinct].
  - split; [constructor | reflexivity].
  - rewrite andb_true_iff, negb_true_iff, IH. split.
    + intros [E N]. constructor; [|exact N]. intros I.
      assert (X : existsb (Z.eqb x) l = true).
      { apply existsb_exists. exists x. split; [exact I | apply Z.eqb_refl]. }
      congruence.
    + intros N. inversion N as [|? ? I N']; subst. split; [|exact N'].
      destruct (existsb (Z.eqb x) l) eqn:E; [|reflexivity].
      apply existsb_exists in E as [y [Iy Ey]]. apply Z.eqb_eq in Ey.
      now subst.
Qed.

Lemma count_matches_view_ids (i : Z) (doc : list element) :
  count_matches (sel_visual_root i) doc = count_occ Z.eq_dec (view_ids doc) i.
Proof.
  unfold count_matches, view_ids.
  induction doc as [|e doc IH]; [reflexivity|].
  cbn [filter flat_map]. unfold sel_visual_root at 1, has_visual_id.
  destruct (contains "visual-root" e); cbn [List.app].
  - destruct (data_visual_id e) as [j|]; cbn [List.app count_occ andb].
    + rewrite andb_true_r. destruct (Z.eqb_spec i j) as [->|N].
      * destruct (Z.eq_dec j j); [|congruence]. cbn [List.length].
        now rewrite IH.
      * destruct (Z.eq_dec j i); [congruence|]. exact IH.
    + exact IH.
  - rewrite andb_false_r. exact IH.
Qed.

(** The view nodes have distinct ids when no selector of a view node
    matches twice. *)
Lemma distinct_view_ids (doc : list element) :
  distinct (view_ids doc) = true
  <-> forall i, count_matches (sel_visual_root i) doc <= 1.
Proof.
  rewrite distinct_NoDup, (NoDup_count_occ Z.eq_dec). split; intros H i.
  - rewrite count_matches_view_ids. apply H.
  - rewrite <- count_matches_view_ids. apply H.
Qed.

Lemma find_count_matches (sel : element -> bool) (doc : list element) :
  find sel doc = None <-> count_matches sel doc = 0.
Proof.
  unfold count_matches. induction doc as [|x doc IH]; [now split|].
  cbn [find filter]. destruct (sel x); [|exact IH].
  split; discriminate.
Qed.

Lemma count_matches_update_first (sel sel' : element -> bool)
  (f : element -> element) (doc : list element) :
  (forall e, sel (f e) = sel e) ->
  count_matches sel (update_first sel' f doc) = count_matches sel doc.
Proof.
  intros F. unfold count_matches. induction doc as [|x doc IH]; [reflexivity|].
  cbn [update_first]. destruct (sel' x); cbn [filter].
  - rewrite F. now destruct (sel x).
  - destruct (sel x); cbn [List.length]; now rewrite IH.
Qed.

Lemma count_matches_insert_after (sel sel' : element -> bool)
  (x : element) (doc : list element) :
  count_matches sel (insert_after sel' x doc)
  <= count_matches sel doc + (if sel x then 1 else 0).
Proof.
  unfold count_matches. induction doc as [|e doc IH]; [cbn; lia|].
  cbn [insert_after]. destruct (sel' e); cbn [filter].
  - destruct (sel e), (sel x); cbn [List.length]; lia.
  - destruct (sel e); cbn [List.length]; lia.
Qed.

Lemma sel_visual_root_setText (i : Z) (t : string) (e : element) :
  sel_visual_root i (setText t e) = sel_visual_root i e.
Proof. reflexivity. Qed.

Lemma find_update_first_other (sel sel' : element -> bool)
  (f : element -> element) (doc : list element) :
  (forall e, sel' e = true -> sel e = false) ->
  (forall e, sel (f e) = sel e) ->
  find sel (update_first sel' f doc) = find sel doc.
Proof.
  intros D F. induction doc as [|x doc IH]; [reflexivity|].
  cbn [update_first]. destruct (sel' x) eqn:X; cbn [find].
  - now rewrite F, (D x X).
  - now rewrite IH.
Qed.

Lemma find_insert_after_other (sel sel' : element -> bool) (x : element)
  (doc : list element) :
  sel x = false -> find sel (insert_after sel' x doc) = find sel doc.
Proof.
  intros N. induction doc as [|e doc IH]; [reflexivity|].
  cbn [insert_after]. destruct (sel' e); cbn [find].
  - now rewrite N.
  - now rewrite IH.
Qed.

Lemma find_insert_after_new (sel sel' : element -> bool) (x r : element)
  (doc : list element) :
  find sel doc = None -> sel x = true -> find sel' doc = Some r ->
  find sel (insert_after sel' x doc) = Some x.
Proof.
  intros N X. induction doc as [|e doc IH]; [discriminate|].
  cbn [find insert_after] in *. destruct (sel e) eqn:E; [discriminate N|].
  destruct (sel' e); intros R; cbn [find]; rewrite E.
  - now rewrite X.
  - now apply IH.
Qed.

Lemma existsb_find (sel : element -> bool) (doc : list element) :
  existsb sel doc = true -> exists r, find sel doc = Some r.
Proof.
  induction doc as [|e doc IH]; [discriminate|]. cbn [existsb find].
  destruct (sel e); [eauto | exact IH].
Qed.

Lemma existsb_update_first (sel sel' : element -> bool)
  (f : element -> element) (doc : list element) :
  (forall e, sel (f e) = sel e) ->
  existsb sel (update_first sel' f doc) = existsb sel doc.
Proof.
  intros F. induction doc as [|e doc IH]; [reflexivity|].
  cbn [update_first]. destruct (sel' e); cbn [existsb].
  - now rewrite F.
  - now rewrite IH.
Qed.

Lemma existsb_insert_after (sel sel' : element -> bool) (x : element)
  (doc : list element) :
  existsb sel doc = true -> existsb sel (insert_after sel' x doc) = true.
Proof.
  induction doc as [|e doc IH]; [discriminate|].
  cbn [insert_after existsb]. destruct (sel' e); cbn [existsb];
    destruct (sel e); cbn [orb]; auto.
  intros H. now rewrite H, orb_true_r.
Qed.

(** Selectors of view nodes with different ids match different elements. *)
Lemma sel_visual_root_other (i j : Z) (e : element) :
  i <> j -> sel_visual_root j e = true -> sel_visual_root i e = false.
Proof.
  unfold sel_visual_root, has_visual_id. intros N.
  destruct (data_visual_id e) as [k|]; [|discriminate].
  destruct (Z.eqb_spec j k) as [<-|]; [|discriminate].
  intros _. destruct (Z.eqb_spec i j); [contradiction | reflexivity].
Qed.

(** ** The view after a change of the presentation *)
Section View_callback.
Variable MAGIC : string.

Lemma sel_visual_root_rootElem (i : Z) (x : Comment) :
  sel_visual_root i (CommentUI_rootElem MAGIC x) = (i =? id x)%Z.
Proof.
  unfold sel_visual_root, has_visual_id, contains, CommentUI_rootElem.
  cbn [data_visual_id classList existsb].
  change ("visual-root" =? "visual-root") with true.
  now rewrite orb_true_r, andb_true_r.
Qed.

(** One call of the callback that shows an added annotation, when the row
    of its line is on the page. *)
Lemma show_added_step (y : Comment) (s : App) :
  existsb (sel_diff_row (lineNo (context y))) (document s) = true ->
  exists d1,
    show_added MAGIC y s = (Normal tt, set_document d1 s)
    /\ shows d1 y
    /\ (forall x, id x <> id y -> shows (document s) x -> shows d1 x)
    /\ (forall i, i <> id y ->
          find (sel_visual_root i) (document s) = None ->
          find (sel_visual_root i) d1 = None)
    /\ (forall n, existsb (sel_diff_row n) (document s) = true ->
          existsb (sel_diff_row n) d1 = true).
Proof.
  intros R. unfold show_added, findVisualUI, querySelector.
  destruct (find (sel_visual_root (id y)) (document s)) as [u|] eqn:F.
  - eexists. split; [reflexivity|]. split; [|split; [|split]].
    + exists (setText (text y) u). split; [|reflexivity].
      apply find_update_first; [exact F|].
      apply find_some in F as [_ F]. exact F.
    + intros x N [v [Fx T]]. exists v. split; [|exact T].
      rewrite find_update_first_other; auto.
      intros e. now apply sel_visual_root_other.
    + intros i N Fi. rewrite find_update_first_other; auto.
      intros e. now apply sel_visual_root_other.
    + intros n Rn. now rewrite existsb_update_first.
  - destruct (existsb_find _ _ R) as [r Fr]. rewrite Fr.
    eexists. split; [reflexivity|]. split; [|split; [|split]].
    + exists (CommentUI_rootElem MAGIC y). split; [|reflexivity].
      apply (find_insert_after_new _ _ _ r); auto.
      rewrite sel_visual_root_rootElem. apply Z.eqb_refl.
    + intros x N [v [Fx T]]. exists v. split; [|exact T].
      rewrite find_insert_after_other; auto.
      rewrite sel_visual_root_rootElem. now apply Z.eqb_neq.
    + intros i N Fi. rewrite find_insert_after_other; auto.
      rewrite sel_visual_root_rootElem. now apply Z.eqb_neq.
    + intros n Rn. now apply existsb_insert_after.
Qed.

Lemma set_document_twice (d d' : list element) (s : App) :
  set_document d' (set_document d s) = set_document d' s.
Proof. reflexivity. Qed.

(** The callback over the added annotations, when their ids differ and
    the rows of their lines are on the page. *)
Lemma forEach_show_added (l : list Comment) (s : App) :
  NoDup (map id l) ->
  (forall y, In y l ->
     existsb (sel_diff_row (lineNo (context y))) (document s) = true) ->
  exists d',
    forEach l (show_added MAGIC) s = (Normal tt, set_document d' s)
    /\ (forall x, In x l -> shows d' x)
    /\ (forall x, ~ In (id x) (map id l) -> shows (document s) x ->
          shows d' x)
    /\ (forall i, ~ In i (map id l) ->
          find (sel_visual_root i) (document s) = None ->
          find (sel_visual_root i) d' = None).
Proof.
  revert s. induction l as [|y l IH]; intros s N R.
  - exists (document s). cbn [forEach ret]. rewrite set_document_same.
    split; [reflexivity|]. split; [intros x []|]. split; auto.
  - inversion N as [|? ? Ny Nl]; subst.
    destruct (show_added_step y s (R y (or_introl eq_refl)))
      as [d1 [E [Sy [So [Fo Ro]]]]].
    destruct (IH (set_document d1 s) Nl) as [d' [E' [Sl [So' Fo']]]].
    { intros z Iz. apply Ro. apply R. now right. }
    exists d'. cbn [forEach]. unfold bindM at 1. rewrite E, E'.
    split; [reflexivity|]. split; [|split].
    + intros x [<-|Ix]; [|now apply Sl]. apply So'; assumption.
    + intros x Nx Sx. apply So'.
      * intros I. apply Nx. now right.
      * apply So; [|exact Sx]. intros Eq. apply Nx. left. now rewrite Eq.
    + intros i Ni Fi. apply Fo'.
      * intros I. apply Ni. now right.
      * apply Fo; [|exact Fi]. intros Eq. apply Ni. left. now rewrite Eq.
Qed.
End View_callback.

Lemma existsb_remove_first_row (n : string) (i : Z) (doc : list element) :
  rows_apart doc = true ->
  existsb (sel_diff_row n) (remove_first (sel_visual_root i) doc)
  = existsb (sel_diff_row n) doc
  /\ rows_apart (remove_first (sel_visual_root i) doc) = true.
Proof.
  unfold rows_apart. induction doc as [|e doc IH]; [now split|].
  cbn [forallb remove_first existsb]. intros H.
  apply andb_true_iff in H as [He Hd]. destruct (IH Hd) as [IH1 IH2].
  destruct (sel_visual_root i e) eqn:S.
  - split; [|exact Hd]. unfold sel_visual_root in S.
    apply andb_true_iff in S as [_ V]. rewrite V in He. cbn [negb orb] in He.
    unfold sel_diff_row at 2.
    destruct (data_line_number e); [reflexivity | discriminate He].
  - cbn [existsb forallb]. now rewrite IH1, He, IH2.
Qed.

Lemma existsb_removals_row (n : string) (rs : list Comment)
  (doc : list element) :
  rows_apart doc = true ->
  existsb (sel_diff_row n)
    (fold_left (fun d x => remove_first (sel_visual_root (id x)) d) rs doc)
  = existsb (sel_diff_row n) doc.
Proof.
  revert doc. induction rs as [|r rs IH]; intros doc H; [reflexivity|].
  cbn [fold_left]. destruct (existsb_remove_first_row n (id r) doc H) as [E A].
  now rewrite IH, E.
Qed.

Section View_reconciliation.
Variable MAGIC : string.

(** [onPresentationChange] in two phases: the calls of the side list and
    the removals, then the callback over the added annotations. *)
Lemma onPresentationChange_body_phases (e : change) (s : App) :
  onPresentationChange_body MAGIC e s
  = forEach (added e) (show_added MAGIC)
      (set_document
         (fold_left (fun d x => remove_first (sel_visual_root (id x)) d)
            (removed e) (document s))
         (log_all (sidebar_calls e) s)).
Proof.
  unfold onPresentationChange_body, bindM.
  rewrite !forEach_modify, !fold_log,
    (fold_set_document (fun x d => remove_first (sel_visual_root (id x)) d)).
  f_equal. unfold sidebar_calls. app_ext.
Qed.

(** When the added annotations have different ids and the rows of their
    lines are on the page, [onPresentationChange] ends normally: the calls
    of the side list are made, and every added annotation has a view node
    that shows its text. *)
Theorem onPresentationChange_shows_added (e : change) (s : App) :
  rows_apart (document s) = true ->
  distinct (map id (added e)) = true ->
  forallb (fun x => existsb (sel_diff_row (lineNo (context x))) (document s))
    (added e) = true ->
  exists s',
    onPresentationChange_body MAGIC e s = (Normal tt, s')
    /\ trace s' = (trace s ++ sidebar_calls e)%list
    /\ presentation s' = presentation s
    /\ issue_body s' = issue_body s
    /\ forall x, In x (added e) ->
         exists u, findVisualUI (id x) (document s') = Some u
                   /\ shown_text u = text x.
Proof.
  intros A D R. rewrite onPresentationChange_body_phases.
  apply distinct_NoDup in D. rewrite forallb_forall in R.
  match goal with
  | |- context [forEach _ _ ?s0] =>
      destruct (forEach_show_added MAGIC (added e) s0 D) as [d' [E [S _]]]
  end.
  { intros y I. cbn [document set_document].
    rewrite existsb_removals_row; [now apply R | exact A]. }
  rewrite E. eexists. split; [reflexivity|]. app_fields.
  repeat split. exact S.
Qed.

(** One call of the callback keeps the view nodes apart, and makes no
    view node for another id. *)
Lemma show_added_keeps (y : Comment) (s : App) :
  (forall i, count_matches (sel_visual_root i) (document s) <= 1) ->
  (forall i, count_matches (sel_visual_root i)
               (document (snd (show_added MAGIC y s))) <= 1)
  /\ (forall i, i <> id y ->
        find (sel_visual_root i) (document s) = None ->
        find (sel_visual_root i) (document (snd (show_added MAGIC y s)))
        = None).
Proof.
  intros U. unfold show_added, findVisualUI, querySelector.
  destruct (find (sel_visual_root (id y)) (document s)) as [u|] eqn:F.
  - cbn [snd document set_document]. split.
    + intros i. now rewrite count_matches_update_first.
    + intros i N Fi. rewrite find_update_first_other; auto.
      intros e0. now apply sel_visual_root_other.
  - destruct (find (sel_diff_row _) (document s)); cbn [snd]; [|now split].
    cbn [document set_document]. split.
    + intros i.
      pose proof (count_matches_insert_after (sel_visual_root i)
                    (sel_diff_row (lineNo (context y)))
                    (CommentUI_rootElem MAGIC y) (document s)) as C.
      rewrite sel_visual_root_rootElem in C.
      destruct (Z.eqb_spec i (id y)) as [Eq|Ne].
      * rewrite Eq in *. apply find_count_matches in F. lia.
      * specialize (U i). lia.
    + intros i N Fi. rewrite find_insert_after_other; auto.
      rewrite sel_visual_root_rootElem. now apply Z.eqb_neq.
Qed.

Lemma forEach_show_added_keeps (l : list Comment) (s : App) :
  (forall i, count_matches (sel_visual_root i) (document s) <= 1) ->
  (forall i, count_matches (sel_visual_root i)
               (document (snd (forEach l (show_added MAGIC) s))) <= 1)
  /\ (forall i, ~ In i (map id l) ->
        find (sel_visual_root i) (document s) = None ->
        find (sel_visual_root i)
          (document (snd (forEach l (show_added MAGIC) s))) = None).
Proof.
  revert s. induction l as [|y l IH]; intros s U; [now split|].
  cbn [forEach]. unfold bindM.
  destruct (show_added_keeps y s U) as [U1 F1].
  destruct (show_added MAGIC y s) as [[[]|err|] s1] eqn:E; cbn [snd] in *.
  - destruct (IH s1 U1) as [U2 F2]. split; [exact U2|].
    intros i N Fi. apply F2.
    + intros I. apply N. now right.
    + apply F1; [|exact Fi]. intros Eq. apply N. now left.
  - split; [exact U1|]. intros i N Fi. apply F1; [|exact Fi].
    intros Eq. apply N. now left.
  - split; [exact U1|]. intros i N Fi. apply F1; [|exact Fi].
    intros Eq. apply N. now left.
Qed.

(** However [onPresentationChange] ends, it leaves at most one view node
    for an id when there was at most one before, and the view node of a
    removed annotation that is not added again is gone. *)
Theorem onPresentationChange_keeps_view_nodes_apart (e : change) (s : App) :
  distinct (view_ids (document s)) = true ->
  let s' := snd (onPresentationChange_body MAGIC e s) in
  distinct (view_ids (document s')) = true
  /\ (forall x, In x (removed e) -> ~ In (id x) (map id (added e)) ->
        findVisualUI (id x) (document s') = None).
Proof.
  intros D s'. unfold s'. rewrite onPresentationChange_body_phases.
  rewrite distinct_view_ids in D.
  match goal with
  | |- context [forEach _ _ ?s0] =>
      destruct (forEach_show_added_keeps (added e) s0) as [U F]
  end.
  { intros i. cbn [document set_document].
    etransitivity; [apply count_matches_fold | apply D]. }
  split; [now apply distinct_view_ids|].
  intros x I N. apply F; [exact N|]. cbn [document set_document].
  apply (removed_nodes_gone (removed e) (document s)); [|exact I].
  intros z _. apply D.
Qed.

(** When the first added annotation has no view node and the row of its
    line is not on the page, [tr] is [null] and [tr.ancestors()] raises:
    [onPresentationChange] raises a [TypeError] after all the calls of the
    side list and after the removals, with no annotation shown; nothing
    awaits the call, so the rejection is unhandled. *)
Theorem onPresentationChange_without_row (e : change) (s : App)
  (x : Comment) (rest : list Comment) :
  let d0 := fold_left (fun d r => remove_first (sel_visual_root (id r)) d)
              (removed e) (document s) in
  added e = x :: rest ->
  findVisualUI (id x) d0 = None ->
  existsb (sel_diff_row (lineNo (context x))) d0 = false ->
  onPresentationChange_body MAGIC e s
  = (Throw TypeError, set_document d0 (log_all (sidebar_calls e) s))
  /\ handle MAGIC onPresentationChange e s
     = log (unhandled_rejection TypeError)
         (set_document d0 (log_all (sidebar_calls e) s)).
Proof.
  intros d0 A F R.
  assert (B : onPresentationChange_body MAGIC e s
              = (Throw TypeError,
                 set_document d0 (log_all (sidebar_calls e) s))).
  { rewrite onPresentationChange_body_phases, A. fold d0.
    cbn [forEach]. unfold bindM, show_added at 1.
    cbn [document set_document]. rewrite F.
    unfold querySelector.
    destruct (find (sel_diff_row (lineNo (context x))) d0) as [r|] eqn:Q;
      [|reflexivity].
    apply find_some in Q as [I Q].
    assert (X : existsb (sel_diff_row (lineNo (context x))) d0 = true)
      by (apply existsb_exists; eauto).
    congruence. }
  split; [exact B|]. cbn [handle]. unfold not_awaited. now rewrite B.
Qed.
End View_reconciliation.

Lemma filter_idem {A : Type} (f : A -> bool) (l : list A) :
  filter f (filter f l) = filter f l.
Proof.
  induction l as [|x l IH]; [reflexivity|]. cbn [filter].
  destruct (f x) eqn:E; cbn [filter]; now rewrite ?E, IH.
Qed.

Lemma classList_remove_idem (c : string) (e : element) :
  classList_remove c (classList_remove c e) = classList_remove c e.
Proof.
  unfold classList_remove.
  cbn [data_line_number data_visual_id classList shown_text].
  now rewrite filter_idem.
Qed.

Lemma classList_remove_add (c : string) (e : element) :
  classList_remove c (classList_add c e) = classList_remove c e.
Proof.
  unfold classList_remove, classList_add.
  cbn [data_line_number data_visual_id classList shown_text].
  destruct (contains c e); [reflexivity|]. rewrite filter_app.
  cbn [filter]. rewrite String.eqb_refl. cbn [negb].
  now rewrite List.app_nil_r.
Qed.

Lemma map_update_first {B : Type} (g : element -> B) (sel : element -> bool)
  (f : element -> element) (doc : list element) :
  (forall e, g (f e) = g e) -> map g (update_first sel f doc) = map g doc.
Proof.
  intros F. induction doc as [|x doc IH]; [reflexivity|].
  cbn [update_first]. destruct (sel x); cbn [map]; now rewrite ?F, ?IH.
Qed.

(** ** What [selectVisual] leaves alone *)
Section Selection_frame.
Variable MAGIC : string.

Lemma classList_remove_clear (x : element) :
  classList_remove "selected" (clear_selected MAGIC x)
  = classList_remove "selected" x.
Proof.
  unfold clear_selected. destruct (sel_selected MAGIC x); [|reflexivity].
  apply classList_remove_idem.
Qed.

(** What a selection that goes through leaves. *)
Lemma App_selectVisual_selects (i : Z) (s : App) (ui : element) :
  findVisualUI i (document s) = Some ui -> contains "selected" ui = false ->
  App_selectVisual MAGIC i s
  = (Normal tt,
     log_all [dispatch_select i; call_sidebar_select i]
       (set_document
          (update_first (sel_visual_root i) (classList_add "selected")
             (map (clear_selected MAGIC) (document s))) s)).
Proof.
  intros F C. unfold App_selectVisual. rewrite F, C.
  unfold App_onSelect, bindM, modify. cbn [document set_document].
  f_equal. app_ext.
Qed.

Lemma App_selectVisual_presentation (i : Z) (s : App) :
  presentation (snd (App_selectVisual MAGIC i s)) = presentation s.
Proof.
  destruct (findVisualUI i (document s)) as [ui|] eqn:F.
  - destruct (contains "selected" ui) eqn:C.
    + unfold App_selectVisual. now rewrite F, C.
    + now rewrite (App_selectVisual_selects i s ui F C).
  - unfold App_selectVisual. now rewrite F.
Qed.

(** [selectVisual] changes nothing of the page but the presence of the
    class [selected] in class lists, and nothing of the presentation, the
    description and the counter of [Ids]. *)
Theorem selectVisual_changes_selected_only (i : Z) (s : App) :
  let s' := snd (App_selectVisual MAGIC i s) in
  map (classList_remove "selected") (document s')
  = map (classList_remove "selected") (document s)
  /\ presentation s' = presentation s
  /\ issue_body s' = issue_body s
  /\ Ids_counter s' = Ids_counter s.
Proof.
  cbv zeta.
  destruct (findVisualUI i (document s)) as [ui|] eqn:F.
  - destruct (contains "selected" ui) eqn:C.
    + unfold App_selectVisual. rewrite F, C. now repeat split.
    + rewrite (App_selectVisual_selects i s ui F C). cbn [snd]. app_fields.
      repeat split.
      rewrite map_update_first by apply classList_remove_add.
      rewrite map_map. apply map_ext. apply classList_remove_clear.
  - unfold App_selectVisual. rewrite F. now repeat split.
Qed.

(** A second [selectVisual] of the same id leaves the state of the first
    and ends like it: no second [select] event is dispatched. *)
Theorem selectVisual_twice (i : Z) (s : App) :
  App_selectVisual MAGIC i (snd (App_selectVisual MAGIC i s))
  = App_selectVisual MAGIC i s.
Proof.
  destruct (findVisualUI i (document s)) as [ui|] eqn:F.
  - destruct (contains "selected" ui) eqn:C.
    + unfold App_selectVisual at 2 3. rewrite F, C. cbn [snd].
      unfold App_selectVisual. now rewrite F, C.
    + rewrite (App_selectVisual_selects i s ui F C). cbn [snd].
      unfold App_selectVisual, findVisualUI, querySelector. app_fields.
      unfold findVisualUI, querySelector in F.
      assert (Fc : find (sel_visual_root i)
                     (map (clear_selected MAGIC) (document s))
                   = Some (clear_selected MAGIC ui))
        by now rewrite find_map_clear, F.
      rewrite (find_update_first _ _ _ _ Fc).
      * rewrite contains_add. change ("selected" =? "selected") with true.
        now rewrite orb_true_r.
      * rewrite sel_visual_root_add, clear_selected_visual_root.
        apply find_some in F. tauto.
  - unfold App_selectVisual at 2 3. rewrite F. cbn [snd].
    unfold App_selectVisual. now rewrite F.
Qed.
End Selection_frame.

(** ** The listeners of the presentation *)
Section Wiring.
Variable MAGIC : string.
Variable Presentation_serialize : list Comment -> json.
Variable Presentation_deserialize : json -> completion (list Comment).

(** A change emitted by a presentation with the two listeners of [App]
    leaves it with these listeners, and leaves the presentation the [App]
    holds as it is. *)
Lemma emit_wired (p : Presentation) (a r : list Comment) (s : App) :
  listeners p = [onPresentationChange; maybePersistOnPresentationChange] ->
  exists p' s',
    emit MAGIC p a r s = (Normal p', s')
    /\ listeners p'
       = [onPresentationChange; maybePersistOnPresentationChange]
    /\ presentation s' = presentation s.
Proof.
  intros L. unfold emit. eexists _, _. split; [reflexivity|].
  rewrite L. split; [reflexivity|].
  match goal with
  | |- context [dispatchEvent MAGIC ?ls ?e ?s0] =>
      destruct (dispatchEvent_frame MAGIC ls e s0) as [d [tr [b ->]]]
  end.
  reflexivity.
Qed.

Lemma on_this_presentation_wired (f : Presentation -> M Presentation)
  (s : App) :
  wired s ->
  (exists p' s',
     f (presentation s) s = (Normal p', s')
     /\ listeners p'
        = [onPresentationChange; maybePersistOnPresentationChange]
     /\ presentation s' = presentation s) ->
  wired (snd (on_this_presentation f s)).
Proof.
  intros W [p' [s' [E [L P]]]]. unfold on_this_presentation. rewrite E.
  exact L.
Qed.

Lemma import_wired (data : json) (s : App) :
  wired s -> wired (snd (App_import MAGIC Presentation_deserialize data s)).
Proof.
  intros W.
  destruct (import_cleanup_presentation MAGIC s) as [s1 [C [_ [_ [W1 _]]]]].
  specialize (W1 W). unfold App_import, bindM. rewrite C.
  destruct (maxId data) as [seed|err|] eqn:Q.
  - pose proof (import_continuation_seeded MAGIC Presentation_deserialize
                  data seed s1 Q) as K.
    cbv zeta in K. destruct (Presentation_deserialize data) as [vs|err|].
    + destruct K as [d [tr0 [-> _]]]. reflexivity.
    + rewrite K. exact W1.
    + rewrite K. exact W1.
  - unfold import_continuation, bindM, lift. now rewrite Q.
  - unfold import_continuation, bindM, lift. now rewrite Q.
Qed.

(** Every method keeps the presentation the [App] holds with the two
    listeners of [App], however it ends. *)
Theorem listeners_are_kept (s : App) (payload : json) (i : Z)
  (c : Comment) :
  wired s ->
  wired (snd (App_import MAGIC Presentation_deserialize payload s))
  /\ wired (snd (App_onSettingsLoad MAGIC Presentation_deserialize s))
  /\ wired (snd (App_persist MAGIC Presentation_serialize s))
  /\ wired (snd (App_selectVisual MAGIC i s))
  /\ wired (snd (App_onSidebarDelete MAGIC i s))
  /\ wired (snd (App_onAccept MAGIC c s)).
Proof.
  intros W. split; [now apply import_wired|].
  split; [|split; [|split; [|split]]].
  - unfold App_onSettingsLoad.
    destruct (parseComment MAGIC (issue_body s)) as [[p|]|e|]; try exact W.
    cbn [snd]. unfold not_awaited.
    pose proof (import_wired (data p) s W) as I.
    destruct (App_import MAGIC Presentation_deserialize (data p) s)
      as [[[]|err|] s']; exact I.
  - exact W.
  - unfold wired. now rewrite App_selectVisual_presentation.
  - apply on_this_presentation_wired; [exact W|].
    unfold Presentation_removeVisual.
    destruct (find _ (visuals (presentation s))).
    + now apply emit_wired.
    + exists (presentation s), s. now repeat split.
  - apply on_this_presentation_wired; [exact W|].
    unfold Presentation_addOrReplaceVisual.
    destruct (existsb _ (visuals (presentation s))); now apply emit_wired.
Qed.
End Wiring.

(** ** From a user action to the view *)
Section Accept_flow.
Variable MAGIC : string.
Variable Presentation_deserialize : json -> completion (list Comment).

(** [onPresentationChange] ends normally when the added annotations have
    different ids and the rows of their lines are on the page after the
    removals: then the view shows every added annotation. *)
Lemma onPresentationChange_body_normal (e : change) (s : App) :
  let d0 := fold_left (fun d x => remove_first (sel_visual_root (id x)) d)
              (removed e) (document s) in
  NoDup (map id (added e)) ->
  (forall y, In y (added e) ->
     existsb (sel_diff_row (lineNo (context y))) d0 = true) ->
  exists d',
    onPresentationChange_body MAGIC e s
    = (Normal tt, set_document d' (log_all (sidebar_calls e) s))
    /\ (forall x, In x (added e) -> shows d' x)
    /\ (forall i, ~ In i (map id (added e)) ->
          find (sel_visual_root i) d0 = None ->
          find (sel_visual_root i) d' = None).
Proof.
  intros d0 N R. rewrite onPresentationChange_body_phases. fold d0.
  destruct (forEach_show_added MAGIC (added e)
              (set_document d0 (log_all (sidebar_calls e) s)) N R)
    as [d' [E [S [_ F]]]].
  exists d'. rewrite E. split; [reflexivity|]. split; [exact S | exact F].
Qed.

(** The two listeners of [App] on a change that the view listener takes
    without raising. *)
Lemma dispatchEvent_both (e : change) (d' : list element) (s : App) :
  onPresentationChange_body MAGIC e (log (deliver onPresentationChange e) s)
  = (Normal tt,
     set_document d'
       (log_all (sidebar_calls e)
          (log (deliver onPresentationChange e) s))) ->
  dispatchEvent MAGIC
    [onPresentationChange; maybePersistOnPresentationChange] e s
  = set_document d'
      (log_all
         ([deliver onPresentationChange e] ++ sidebar_calls e
          ++ [deliver maybePersistOnPresentationChange e]) s).
Proof.
  intros B. cbn [dispatchEvent handle]. unfold not_awaited. rewrite B.
  app_ext.
Qed.

(** The [accept] listener of [createCommentUI]: when the row of the line
    of the comment is on the page, the change reaches
    [onPresentationChange], then [maybePersistOnPresentationChange]; the
    side list gets the comment and the view shows its text. *)
Theorem accept_shows_the_comment (c : Comment) (s : App) :
  wired s ->
  existsb (sel_diff_row (lineNo (context c))) (document s) = true ->
  exists s' p',
    App_onAccept MAGIC c s = (Normal tt, s')
    /\ presentation s' = p'
    /\ oid p' = oid (presentation s)
    /\ wired s'
    /\ (let e := {| detail_presentation :=
                      with_visuals (visuals p') (presentation s);
                    added := [c]; removed := [] |} in
        trace s'
        = (trace s
           ++ [deliver onPresentationChange e;
               call_sidebar_add c
                 (Presentation_indexOf (detail_presentation e) (id c));
               deliver maybePersistOnPresentationChange e])%list)
    /\ exists u, findVisualUI (id c) (document s') = Some u
                 /\ shown_text u = text c.
Proof.
  intros W R. unfold App_onAccept, on_this_presentation,
    Presentation_addOrReplaceVisual.
  set (vs' := if existsb (fun x => (id x =? id c)%Z) (visuals (presentation s))
              then replace_text c (visuals (presentation s))
              else (visuals (presentation s) ++ [c])%list).
  assert (E : (if existsb (fun x => (id x =? id c)%Z)
                    (visuals (presentation s))
               then emit MAGIC
                      (with_visuals (replace_text c (visuals (presentation s)))
                         (presentation s)) [c] []
               else emit MAGIC
                      (with_visuals (visuals (presentation s) ++ [c])%list
                         (presentation s)) [c] [])
              = emit MAGIC (with_visuals vs' (presentation s)) [c] []).
  { unfold vs'.
    destruct (existsb (fun x => (id x =? id c)%Z) (visuals (presentation s)));
      reflexivity. }
  rewrite E. clear E. unfold emit. cbn [with_visuals listeners].
  rewrite W.
  set (e := {| detail_presentation := with_visuals vs' (presentation s);
               added := [c]; removed := [] |}).
  destruct (onPresentationChange_body_normal e
              (log (deliver onPresentationChange e) s)) as [d' [B [S _]]].
  { cbn [added map]. repeat constructor. intros []. }
  { cbn [added removed fold_left]. intros y [<-|[]]. exact R. }
  rewrite (dispatchEvent_both e d' s B).
  eexists _, _. split; [reflexivity|]. split; [reflexivity|].
  app_fields. split; [reflexivity|]. split; [reflexivity|].
  split; [reflexivity|]. apply (S c). now left.
Qed.
End Accept_flow.

Section Delete_flow.
Variable MAGIC : string.
Variable Presentation_deserialize : json -> completion (list Comment).

Lemma onPresentationChange_body_keeps (e : change) (s : App) :
  (forall i, count_matches (sel_visual_root i) (document s) <= 1) ->
  forall i,
    count_matches (sel_visual_root i)
      (document (snd (onPresentationChange_body MAGIC e s))) <= 1.
Proof.
  intros D. rewrite onPresentationChange_body_phases.
  apply forEach_show_added_keeps.
  intros i. cbn [document set_document].
  etransitivity; [apply count_matches_fold | apply D].
Qed.

(** [onSidebarDelete]: the change of the removal reaches both listeners,
    the side list drops the entry and the view node is gone; for an id that
    no annotation has, nothing happens. *)
Theorem sidebar_delete_removes_view_node (i : Z) (s : App) :
  wired s ->
  distinct (view_ids (document s)) = true ->
  (forall x,
     find (fun x => (id x =? i)%Z) (visuals (presentation s)) = Some x ->
     exists s',
       App_onSidebarDelete MAGIC i s = (Normal tt, s')
       /\ visuals (presentation s') = remove_visual i (visuals (presentation s))
       /\ wired s'
       /\ findVisualUI i (document s') = None
       /\ (let e := {| detail_presentation :=
                         with_visuals
                           (remove_visual i (visuals (presentation s)))
                           (presentation s);
                       added := []; removed := [x] |} in
           trace s'
           = (trace s
              ++ [deliver onPresentationChange e; call_sidebar_remove i;
                  deliver maybePersistOnPresentationChange e])%list))
  /\ (find (fun x => (id x =? i)%Z) (visuals (presentation s)) = None ->
      App_onSidebarDelete MAGIC i s = (Normal tt, s)).
Proof.
  intros W D. unfold App_onSidebarDelete, on_this_presentation,
    Presentation_removeVisual. split.
  - intros x F. rewrite F. unfold emit. cbn [with_visuals listeners].
    rewrite W.
    set (e := {| detail_presentation :=
                   with_visuals (remove_visual i (visuals (presentation s)))
                     (presentation s);
                 added := []; removed := [x] |}).
    assert (I : id x = i).
    { apply find_some in F as [_ F]. now apply Z.eqb_eq in F. }
    pose proof (onPresentationChange_body_removed MAGIC
                  (detail_presentation e) [x]
                  (log (deliver onPresentationChange e) s)) as B.
    change ({| detail_presentation := detail_presentation e; added := [];
               removed := [x] |}) with e in B.
    assert (B' : onPresentationChange_body MAGIC e
                   (log (deliver onPresentationChange e) s)
                 = (Normal tt,
                    set_document
                      (remove_first (sel_visual_root i) (document s))
                      (log_all (sidebar_calls e)
                         (log (deliver onPresentationChange e) s)))).
    { rewrite B. cbn [fold_left document log]. now rewrite I. }
    rewrite (dispatchEvent_both MAGIC e _ s B').
    eexists. split; [reflexivity|]. app_fields.
    split; [reflexivity|]. split; [reflexivity|]. split.
    + apply find_count_matches, count_matches_removed.
      now apply distinct_view_ids.
    + unfold sidebar_calls. cbn [removed added map List.app e].
      now rewrite I.
  - intros F. rewrite F. cbn [ret]. f_equal. now destruct s.
Qed.
End Delete_flow.

Section Import_flow.
Variable MAGIC : string.
Variable Presentation_deserialize : json -> completion (list Comment).

(** The clean-up of [App.import] on the page: the view nodes of the
    annotations that were there are removed. *)
Lemma import_cleanup_document (s : App) :
  wired s ->
  exists s1,
    import_cleanup MAGIC s = (Normal tt, s1)
    /\ document s1
       = fold_left (fun d x => remove_first (sel_visual_root (id x)) d)
           (visuals (presentation s)) (document s).
Proof.
  intros W. unfold import_cleanup.
  destruct (visuals (presentation s)) as [|v vs] eqn:E.
  - exists s. now split.
  - cbn [List.length Nat.eqb].
    unfold bindM, waitEvent_change, on_this_presentation,
      Presentation_removeAllVisuals, emit, await_cleanupDone.
    cbn [modify presentation set_presentation addEventListener with_listeners
         with_visuals listeners visuals cleanupDone_settled oid].
    rewrite W, E. cbn [List.app dispatchEvent handle].
    unfold not_awaited. rewrite onPresentationChange_body_removed.
    cbn [filter is_cleanupDone negb cleanupDone_settled
         set_cleanupDone_settled].
    eexists. split; [reflexivity|]. reflexivity.
Qed.

(** The statements of [App.import] after the clean-up, when the payload is
    accepted: what they leave on the page. *)
Lemma import_continuation_document (data : json) (seed : Z)
  (vs : list Comment) (s1 : App) :
  maxId data = Normal seed ->
  Presentation_deserialize data = Normal vs ->
  NoDup (map id vs) ->
  (forall y, In y vs ->
     existsb (sel_diff_row (lineNo (context y))) (document s1) = true) ->
  exists s',
    import_continuation MAGIC Presentation_deserialize data s1
    = (Normal tt, s')
    /\ presentation s'
       = {| oid := presentations_made s1; visuals := vs;
            listeners := [onPresentationChange;
                          maybePersistOnPresentationChange] |}
    /\ Ids_counter s' = seed
    /\ (forall x, In x vs -> shows (document s') x)
    /\ (forall i, ~ In i (map id vs) ->
          find (sel_visual_root i) (document s1) = None ->
          find (sel_visual_root i) (document s') = None)
    /\ ((forall i, count_matches (sel_visual_root i) (document s1) <= 1) ->
        forall i, count_matches (sel_visual_root i) (document s') <= 1).
Proof.
  intros Q V N R.
  unfold import_continuation, bindM, lift, Ids_initId, modify,
    new_Presentation, Presentation_import.
  rewrite Q. cbn [presentations_made log set_presentations_made
                  set_Ids_counter].
  unfold bindM, lift. rewrite V. unfold emit.
  cbn [addEventListener with_listeners with_visuals listeners visuals oid
       List.app filter is_cleanupDone negb dispatchEvent handle].
  match goal with
  | |- context [not_awaited (onPresentationChange_body MAGIC ?e) ?s0] =>
      pose proof (onPresentationChange_body_normal MAGIC e s0) as B;
      pose proof (onPresentationChange_body_keeps MAGIC e s0) as K
  end.
  cbn [added removed fold_left] in B. cbv zeta in B.
  destruct (B N R) as [d' [E [S F]]]. clear B.
  unfold not_awaited. rewrite E in K |- *.
  eexists. split; [reflexivity|]. app_fields.
  split; [reflexivity|]. split; [reflexivity|]. split; [exact S|].
  split; [exact F|]. exact K.
Qed.

(** [App.import] of a payload that the scan accepts and that
    [presentation.import] reads as annotations with different ids, whose
    rows are on the page: the [App] holds the new presentation with these
    annotations, [Ids] is seeded, the view shows every imported annotation,
    the view nodes of the old annotations that are not imported are gone,
    and no id has two view nodes. *)
Theorem import_replaces_the_view (data : json) (vs : list Comment)
  (s : App) :
  wired s ->
  distinct (view_ids (document s)) = true ->
  rows_apart (document s) = true ->
  scan_rejects data = false ->
  Presentation_deserialize data = Normal vs ->
  distinct (map id vs) = true ->
  forallb (fun x => existsb (sel_diff_row (lineNo (context x))) (document s))
    vs = true ->
  exists s',
    App_import MAGIC Presentation_deserialize data s = (Normal tt, s')
    /\ visuals (presentation s') = vs
    /\ wired s'
    /\ maxId data = Normal (Ids_counter s')
    /\ (forall x, In x vs ->
          exists u, findVisualUI (id x) (document s') = Some u
                    /\ shown_text u = text x)
    /\ (forall x, In x (visuals (presentation s)) ->
          ~ In (id x) (map id vs) ->
          findVisualUI (id x) (document s') = None)
    /\ distinct (view_ids (document s')) = true.
Proof.
  intros W D A R V N Rows.
  destruct (maxId_outcome data) as [_ Q]. destruct (Q R) as [seed [Qs _]].
  destruct (import_cleanup_document s W) as [s1 [C Ds]].
  apply distinct_NoDup in N. rewrite forallb_forall in Rows.
  rewrite distinct_view_ids in D.
  destruct (import_continuation_document data seed vs s1 Qs V N)
    as [s' [E [P [I [S [F K]]]]]].
  { intros y Iy. rewrite Ds, existsb_removals_row; [now apply Rows|exact A]. }
  exists s'. unfold App_import, bindM. rewrite C.
  split; [exact E|]. rewrite P. split; [reflexivity|].
  split; [unfold wired; now rewrite P|]. split; [now rewrite I|].
  split; [exact S|]. split.
  - intros x Ix Nx. apply F; [exact Nx|]. rewrite Ds.
    apply (removed_nodes_gone (visuals (presentation s)) (document s));
      [|exact Ix].
    intros z _. apply D.
  - apply distinct_view_ids. apply K. intros i. rewrite Ds.
    etransitivity; [apply count_matches_fold | apply D].
Qed.
End Import_flow.

(** ** The further statements on sample data *)

(** The block of the sample description is found between its two lines. *)
Lemma parseComment_block_amid_text_witness :
  parseComment sample_MAGIC (issue_body sample_App_with_block)
  = Normal (Some {| data := scenario_payload;
                    comment := ("Summary" ++ str1 LF)
                               ++ str1 LF ++ "Footer" |}).
Proof.
  apply (parseComment_block_amid_text sample_MAGIC ("Summary" ++ str1 LF)
           (str1 LF ++ "Footer") scenario_payload);
    [reflexivity | reflexivity | reflexivity
    | vm_compute; repeat split; reflexivity | reflexivity].
Defined.

(** Persisting the sample page with that description puts the footer in
    front of the block. *)
Lemma persist_moves_text_witness :
  issue_body (snd (App_persist sample_MAGIC sample_serialize
                     sample_App_with_block))
  = "Summary" ++ str1 LF ++ str1 LF ++ "Footer" ++ str1 LF
    ++ "<!-- " ++ sample_MAGIC
    ++ JSON_stringify (App_export sample_serialize sample_App_with_block)
    ++ sample_MAGIC ++ " -->".
Proof.
  apply (persist_moves_text_in_front_of_block sample_MAGIC sample_serialize
           sample_App_with_block ("Summary" ++ str1 LF)
           (str1 LF ++ "Footer") scenario_payload);
    [reflexivity | reflexivity | reflexivity
    | vm_compute; repeat split; reflexivity | reflexivity | reflexivity].
Defined.

(** A block rendered with a rendered block for its envelope decodes to
    nothing. *)
Lemma parseComment_two_blocks_witness :
  parseComment sample_MAGIC
    (renderComment sample_MAGIC
       {| data := scenario_payload;
          comment :=
            renderComment sample_MAGIC
              {| data := scenario_payload; comment := "" |} |})
  = Normal None.
Proof.
  apply (parseComment_two_blocks sample_MAGIC "" (str1 LF) ""
           scenario_payload scenario_payload);
    [reflexivity | reflexivity | reflexivity | reflexivity
    | vm_compute; repeat split; reflexivity].
Defined.

(** Loading after persisting on the sample page does not raise. *)
Lemma onSettingsLoad_after_persist_witness :
  fst (App_onSettingsLoad sample_MAGIC sample_deserialize
         (snd (App_persist sample_MAGIC sample_serialize sample_App)))
  = Normal tt.
Proof.
  rewrite (onSettingsLoad_after_persist sample_MAGIC sample_serialize
             sample_deserialize sample_App);
    [reflexivity | reflexivity | reflexivity
    | vm_compute; repeat split; reflexivity | reflexivity].
Defined.

(** A payload with an id of its own empties the sample page and leaves the
    counter of [Ids] at 2. *)
Lemma import_rejected_payload_witness :
  exists s1,
    App_import sample_MAGIC sample_deserialize payload_own_id sample_App
    = (Throw TypeError, s1)
    /\ visuals (presentation s1) = []
    /\ Ids_counter s1 = 2%Z.
Proof.
  destruct (import_rejected_payload sample_MAGIC sample_deserialize
              payload_own_id sample_App eq_refl)
    as [s1 [E [_ [_ [V [I _]]]]]].
  exists s1. split; [exact E|]. split; [exact V | exact I].
Defined.

(** The payload with the ids 3, 7 and 5 is accepted. *)
Lemma import_seeds_before_deserializing_witness :
  exists seed,
    maxId payload_3_7_5 = Normal seed /\ seed <> 0%Z
    /\ Ids_counter
         (snd (App_import sample_MAGIC sample_deserialize payload_3_7_5
                 sample_App)) = seed.
Proof.
  destruct (import_seeds_before_deserializing sample_MAGIC sample_deserialize
              payload_3_7_5 sample_App eq_refl) as [seed [Q [N [I _]]]].
  exists seed. split; [exact Q|]. split; [exact N | exact I].
Defined.

(** The change of the sample page shows the third annotation at line 12. *)
Lemma onPresentationChange_shows_added_witness :
  exists s',
    onPresentationChange_body sample_MAGIC (sample_change "12") sample_App
    = (Normal tt, s')
    /\ exists u, findVisualUI 3 (document s') = Some u
                 /\ shown_text u = "three".
Proof.
  destruct (onPresentationChange_shows_added sample_MAGIC
              (sample_change "12") sample_App eq_refl eq_refl eq_refl)
    as [s' [E [_ [_ [_ S]]]]].
  exists s'. split; [exact E|].
  apply (S (sample_Comment 3 "12" "three")). now left.
Defined.

(** After that change the view node of the first annotation is gone. *)
Lemma onPresentationChange_keeps_apart_witness :
  distinct
    (view_ids
       (document
          (snd (onPresentationChange_body sample_MAGIC (sample_change "12")
                  sample_App)))) = true
  /\ findVisualUI 1
       (document
          (snd (onPresentationChange_body sample_MAGIC (sample_change "12")
                  sample_App))) = None.
Proof.
  destruct (onPresentationChange_keeps_view_nodes_apart sample_MAGIC
              (sample_change "12") sample_App eq_refl) as [D G].
  split; [exact D|].
  apply (G (sample_Comment 1 "10" "one")).
  - now left.
  - cbn. intros [H|[]]. discriminate H.
Defined.

(** The sample page has no line 99. *)
Lemma onPresentationChange_without_row_witness :
  fst (onPresentationChange_body sample_MAGIC (sample_change "99")
         sample_App) = Throw TypeError.
Proof.
  rewrite (proj1 (onPresentationChange_without_row sample_MAGIC
                    (sample_change "99") sample_App
                    (sample_Comment 3 "99" "three") []
                    eq_refl eq_refl eq_refl)).
  reflexivity.
Defined.

(** The sample page after an import and after a deletion. *)
Lemma listeners_are_kept_witness :
  wired (snd (App_import sample_MAGIC sample_deserialize payload_3_7_5
                sample_App))
  /\ wired (snd (App_onSidebarDelete sample_MAGIC 1 sample_App)).
Proof.
  destruct (listeners_are_kept sample_MAGIC sample_serialize
              sample_deserialize sample_App payload_3_7_5 1
              (sample_Comment 3 "12" "three") eq_refl)
    as [I [_ [_ [_ [D _]]]]].
  split; [exact I | exact D].
Defined.

(** Accepting a third comment at line 12 of the sample page. *)
Lemma accept_shows_the_comment_witness :
  exists s',
    App_onAccept sample_MAGIC (sample_Comment 3 "12" "three") sample_App
    = (Normal tt, s')
    /\ exists u, findVisualUI 3 (document s') = Some u
                 /\ shown_text u = "three".
Proof.
  destruct (accept_shows_the_comment sample_MAGIC
              (sample_Comment 3 "12" "three") sample_App eq_refl eq_refl)
    as [s' [p' [E [_ [_ [_ [_ S]]]]]]].
  exists s'. split; [exact E | exact S].
Defined.

(** Deleting the first annotation of the sample page. *)
Lemma sidebar_delete_witness :
  exists s',
    App_onSidebarDelete sample_MAGIC 1 sample_App = (Normal tt, s')
    /\ findVisualUI 1 (document s') = None.
Proof.
  destruct (sidebar_delete_removes_view_node sample_MAGIC 1 sample_App
              eq_refl eq_refl) as [F _].
  destruct (F (sample_Comment 1 "10" "one") eq_refl)
    as [s' [E [_ [_ [N _]]]]].
  exists s'. split; [exact E | exact N].
Defined.

(** The import of the payload with the ids 3, 7 and 5 on the sample
    page. *)
Lemma import_replaces_the_view_witness :
  exists s',
    App_import sample_MAGIC sample_deserialize payload_3_7_5 sample_App
    = (Normal tt, s')
    /\ visuals (presentation s') = Comments_3_7_5
    /\ findVisualUI 1 (document s') = None
    /\ distinct (view_ids (document s')) = true.
Proof.
  destruct (import_replaces_the_view sample_MAGIC sample_deserialize
              payload_3_7_5 Comments_3_7_5 sample_App
              eq_refl eq_refl eq_refl eq_refl eq_refl eq_refl eq_refl)
    as [s' [E [V [_ [_ [_ [G D]]]]]]].
  exists s'. split; [exact E|]. split; [exact V|]. split; [|exact D].
  apply (G (sample_Comment 1 "10" "one")).
  - now left.
  - cbn. intros [H|[H|[H|[]]]]; discriminate H.
Defined.
